(** * anb-codedev: the prompt / response-normalisation pipeline

    A shallow embedding of the TypeScript sources of the AI tool pages
    (CodeExplanation.tsx, the test generator page, codeAnalysis,
    groqService, aiService, aiApiCaller, quickFixAITools) and the
    properties their specification states about them.

    JavaScript strings are sequences of UTF-16 code units; regular
    expressions are run by a backtracking matcher that follows the
    ECMAScript pattern semantics (continuation passing, greedy and lazy
    quantifiers, leftmost alternative first). *)

From Stdlib Require Import String Ascii DecimalString.
From Stdlib Require Import QArith Qround.
From Stdlib Require Import List NArith ZArith Bool Lia Arith.
Import ListNotations.

(* ===================================================================== *)
(** ** JavaScript strings *)
(* ===================================================================== *)

Module JS.

Local Open Scope N_scope.

(** A UTF-16 code unit. *)
Definition char := N.
Definition jsstring := list char.

(** An ASCII literal of the source, as code units. *)
Definition lit (s : string) : jsstring :=
  List.map N_of_ascii (list_ascii_of_string s).

Definition LF : char := 10.
Definition CR : char := 13.
Definition SP : char := 32.
Definition DQ : char := 34.
Definition BACKTICK : char := 96.

Definition inRange (lo hi c : char) : bool := (N.leb lo c && N.leb c hi)%bool.

(** LineTerminator: LF, CR, LS, PS. *)
Definition isLineTerminator (c : char) : bool :=
  (N.eqb c 10 || N.eqb c 13 || N.eqb c 8232 || N.eqb c 8233)%bool.

(** WhiteSpace or LineTerminator: what [\s] matches and what
    [String.prototype.trim] removes.  TAB, VT, FF, SP, NBSP, ZWNBSP and
    the space separators U+1680, U+2000..U+200A, U+202F, U+205F, U+3000. *)
Definition isSpace (c : char) : bool :=
  (N.eqb c 9 || N.eqb c 11 || N.eqb c 12 || N.eqb c 32 || N.eqb c 160
   || N.eqb c 5760 || inRange 8192 8202 c || N.eqb c 8239 || N.eqb c 8287
   || N.eqb c 12288 || N.eqb c 65279 || isLineTerminator c)%bool.

Definition isDigit (c : char) : bool := inRange 48 57 c.
Definition isUpper (c : char) : bool := inRange 65 90 c.
Definition isLower (c : char) : bool := inRange 97 122 c.

(** [\w]: the letters, the digits and the underscore. *)
Definition isWord (c : char) : bool :=
  (isUpper c || isLower c || isDigit c || N.eqb c 95)%bool.

Definition upperAscii (c : char) : char := if isLower c then (c - 32) else c.
Definition lowerAscii (c : char) : char := if isUpper c then (c + 32) else c.

Fixpoint dropWhile (p : char -> bool) (s : jsstring) : jsstring :=
  match s with
  | [] => []
  | c :: t => if p c then dropWhile p t else s
  end.

Fixpoint takeWhile (p : char -> bool) (s : jsstring) : jsstring :=
  match s with
  | [] => []
  | c :: t => if p c then c :: takeWhile p t else []
  end.

Definition trimStart (s : jsstring) : jsstring := dropWhile isSpace s.
Definition trimEnd (s : jsstring) : jsstring := rev (dropWhile isSpace (rev s)).

(** [String.prototype.trim]. *)
Definition trim (s : jsstring) : jsstring := trimEnd (trimStart s).

Fixpoint eqs (a b : jsstring) : bool :=
  match a, b with
  | [], [] => true
  | x :: a', y :: b' => (N.eqb x y && eqs a' b')%bool
  | _, _ => false
  end.

Fixpoint startsWith (p s : jsstring) : bool :=
  match p, s with
  | [], _ => true
  | x :: p', y :: s' => (N.eqb x y && startsWith p' s')%bool
  | _ :: _, [] => false
  end.

(** [String.prototype.includes]. *)
Fixpoint includes (p s : jsstring) : bool :=
  (startsWith p s ||
   match s with
   | [] => false
   | _ :: t => includes p t
   end)%bool.

(** [String.prototype.split] on a one-code-unit separator. *)
Fixpoint split (sep : char) (s : jsstring) : list jsstring :=
  match s with
  | [] => [[]]
  | c :: t =>
      if N.eqb c sep then [] :: split sep t
      else match split sep t with
           | [] => [[c]]
           | w :: ws => (c :: w) :: ws
           end
  end.

(** [Array.prototype.join]. *)
Fixpoint join (sep : jsstring) (l : list jsstring) : jsstring :=
  match l with
  | [] => []
  | [x] => x
  | x :: t => x ++ sep ++ join sep t
  end.

(** [String.prototype.toLowerCase], exact on the code units whose image
    meets a..z: A..Z, U+0130 (to i and U+0307) and U+212A (to k).  The
    other cased letters are left as they are: wherever the program lowers
    a string it also deletes every code unit that is not a letter a..z. *)
Definition toLowerCase (s : jsstring) : jsstring :=
  flat_map (fun c =>
    if isUpper c then [c + 32]
    else if N.eqb c 304 then [105; 775]
    else if N.eqb c 8490 then [107]
    else [c]) s.

End JS.

Import JS.

(* ===================================================================== *)
(** ** Regular expressions *)
(* ===================================================================== *)

Module RegExp.

Local Open Scope N_scope.

(** A member of a character class. *)
Inductive citem :=
| CChar (c : char)
| CRange (lo hi : char)
| CWord                       (* \w *)
| CSpace                      (* \s *)
| CNotSpace                   (* \S *)
| CDigit.                     (* \d *)

(** Patterns.  Capturing groups carry their number (counted by opening
    parenthesis, from 1). *)
Inductive regex :=
| REmpty
| RChar (c : char)
| RDot
| RClass (invert : bool) (items : list citem)
| RBol                        (* ^ *)
| REol                        (* $ *)
| RWordB                      (* \b *)
| RSeq (a b : regex)
| RAlt (a b : regex)
| RQuant (min : nat) (max : option nat) (greedy : bool) (r : regex)
| RGroup (i : nat) (r : regex).

Record flags := { global : bool; ignoreCase : bool; multiline : bool }.

Record RegExp := { pattern : regex; flag : flags }.

(** The matcher state: the code unit before the current position (for
    [^] and [\b]), the input that is left, and the captures, each kept
    as the input left at its start and at its end. *)
Record mstate := {
  prev : option char;
  rest : jsstring;
  caps : list (nat * (jsstring * jsstring))
}.

Definition continuation := mstate -> option mstate.

Definition advance (x : mstate) (c : char) (t : jsstring) : mstate :=
  {| prev := Some c; rest := t; caps := caps x |}.

(** Canonicalize under the [i] flag.  Every literal of the patterns of
    this program is ASCII, and for those the ECMAScript canonicalisation
    (without the [u] flag) is the fold of a..z onto A..Z: a code unit
    above 127 is never folded onto an ASCII one. *)
Definition canon (fl : flags) (c : char) : char :=
  if ignoreCase fl then upperAscii c else c.

Definition citemMatches (fl : flags) (it : citem) (c : char) : bool :=
  match it with
  | CChar a => N.eqb (canon fl a) (canon fl c)
  | CRange lo hi =>
      if ignoreCase fl
      then (inRange lo hi c || inRange lo hi (upperAscii c)
            || inRange lo hi (lowerAscii c))%bool
      else inRange lo hi c
  | CWord => isWord c
  | CSpace => isSpace c
  | CNotSpace => negb (isSpace c)
  | CDigit => isDigit c
  end.

Definition classMatches (fl : flags) (invert : bool) (items : list citem)
  (c : char) : bool :=
  xorb invert (existsb (fun it => citemMatches fl it c) items).

Definition isWordOpt (o : option char) : bool :=
  match o with Some c => isWord c | None => false end.

Definition setCap (i : nat) (s e : jsstring) (x : mstate) : mstate :=
  {| prev := prev x; rest := rest x;
     caps := (i, (s, e)) :: filter (fun p => negb (Nat.eqb (fst p) i)) (caps x) |}.

Definition clearCaps (inner : list nat) (x : mstate) : mstate :=
  {| prev := prev x; rest := rest x;
     caps := filter (fun p => negb (existsb (Nat.eqb (fst p)) inner)) (caps x) |}.

(** The capturing groups inside a pattern. *)
Fixpoint groups (r : regex) : list nat :=
  match r with
  | RSeq a b | RAlt a b => groups a ++ groups b
  | RQuant _ _ _ a => groups a
  | RGroup i a => i :: groups a
  | _ => []
  end.

(** RepeatMatcher of the ECMAScript specification: [m] matches the
    quantified atom, [c] is what follows.  An iteration that is not
    required ([min = 0]) and consumes nothing is refused, so the
    iterations are at most [min] plus the length of the input; [fuel]
    counts them. *)
Fixpoint repeatMatcher (m : continuation -> mstate -> option mstate)
  (inner : list nat) (fuel min : nat) (max : option nat) (greedy : bool)
  (c : continuation) (x : mstate) : option mstate :=
  match fuel with
  | O => None
  | S fuel' =>
      match max with
      | Some O => c x
      | _ =>
          let d := fun y : mstate =>
            if (Nat.eqb min 0 && Nat.eqb (length (rest y)) (length (rest x)))%bool
            then None
            else repeatMatcher m inner fuel' (Nat.pred min)
                   (option_map Nat.pred max) greedy c y in
          let xr := clearCaps inner x in
          if negb (Nat.eqb min 0) then m d xr
          else if greedy then
            match m d xr with
            | Some z => Some z
            | None => c x
            end
          else
            match c x with
            | Some z => Some z
            | None => m d xr
            end
      end
  end.

(** The matcher of a pattern, in continuation-passing style. *)
Fixpoint exec (fl : flags) (r : regex) (c : continuation) (x : mstate)
  {struct r} : option mstate :=
  match r with
  | REmpty => c x
  | RChar a =>
      match rest x with
      | b :: t => if N.eqb (canon fl a) (canon fl b) then c (advance x b t) else None
      | [] => None
      end
  | RDot =>
      match rest x with
      | b :: t => if isLineTerminator b then None else c (advance x b t)
      | [] => None
      end
  | RClass invert items =>
      match rest x with
      | b :: t => if classMatches fl invert items b then c (advance x b t) else None
      | [] => None
      end
  | RBol =>
      match prev x with
      | None => c x
      | Some p => if (multiline fl && isLineTerminator p)%bool then c x else None
      end
  | REol =>
      match rest x with
      | [] => c x
      | b :: _ => if (multiline fl && isLineTerminator b)%bool then c x else None
      end
  | RWordB =>
      if xorb (isWordOpt (prev x)) (isWordOpt (hd_error (rest x))) then c x else None
  | RSeq a b => exec fl a (exec fl b c) x
  | RAlt a b =>
      match exec fl a c x with
      | Some z => Some z
      | None => exec fl b c x
      end
  | RQuant min max greedy a =>
      repeatMatcher (exec fl a) (groups a) (min + length (rest x) + 1)%nat
        min max greedy c x
  | RGroup i a =>
      exec fl a (fun y => c (setCap i (rest x) (rest y) y)) x
  end.

Definition accept : continuation := fun y => Some y.

(** One attempt at one position. *)
Definition matchAt (re : RegExp) (p : option char) (s : jsstring) : option mstate :=
  exec (flag re) (pattern re) accept {| prev := p; rest := s; caps := [] |}.

(** The text between two positions of the input, each given by what is
    left of the input there. *)
Definition between (s e : jsstring) : jsstring :=
  firstn (length s - length e)%nat s.

Definition capture (i : nat) (y : mstate) : option jsstring :=
  match find (fun p => Nat.eqb (fst p) i) (caps y) with
  | Some (_, (s, e)) => Some (between s e)
  | None => None
  end.

(** The leftmost match at or after the current position: the text
    skipped before it, the input at its start, and the final state. *)
Fixpoint search (re : RegExp) (p : option char) (s : jsstring)
  : option (jsstring * jsstring * mstate) :=
  match matchAt re p s with
  | Some y => Some ([], s, y)
  | None =>
      match s with
      | [] => None
      | c :: t =>
          match search re (Some c) t with
          | Some (sk, st, y) => Some (c :: sk, st, y)
          | None => None
          end
      end
  end.

(** [RegExp.prototype.test] for a pattern without the [g] flag. *)
Definition test (re : RegExp) (s : jsstring) : bool :=
  match search re None s with Some _ => true | None => false end.

(** A replacement template: text and [$n] references. *)
Inductive ritem := RLit (s : jsstring) | RCap (i : nat).

Definition expand (tpl : list ritem) (y : mstate) : jsstring :=
  flat_map (fun it =>
    match it with
    | RLit s => s
    | RCap i => match capture i y with Some v => v | None => [] end
    end) tpl.

(** The loop of a global replace: at each position either a match is
    replaced and the scan goes on behind it (one code unit further if the
    match is empty), or the code unit is kept. *)
Fixpoint replaceLoop (fuel : nat) (re : RegExp) (tpl : list ritem)
  (p : option char) (s : jsstring) : jsstring :=
  match fuel with
  | O => s
  | S fuel' =>
      match matchAt re p s with
      | Some y =>
          if Nat.eqb (length (rest y)) (length s)
          then match s with
               | [] => expand tpl y
               | c :: t => expand tpl y ++ c :: replaceLoop fuel' re tpl (Some c) t
               end
          else expand tpl y ++ replaceLoop fuel' re tpl (prev y) (rest y)
      | None =>
          match s with
          | [] => []
          | c :: t => c :: replaceLoop fuel' re tpl (Some c) t
          end
      end
  end.

(** [String.prototype.replace] with a regular expression. *)
Definition replace (re : RegExp) (tpl : list ritem) (s : jsstring) : jsstring :=
  if global (flag re)
  then replaceLoop (S (length s)) re tpl None s
  else match search re None s with
       | Some (sk, st, y) => sk ++ expand tpl y ++ rest y
       | None => s
       end.

(** The number of matches of a global pattern. *)
Fixpoint countLoop (fuel : nat) (re : RegExp) (p : option char) (s : jsstring) : nat :=
  match fuel with
  | O => 0%nat
  | S fuel' =>
      match matchAt re p s with
      | Some y =>
          if Nat.eqb (length (rest y)) (length s)
          then match s with
               | [] => 1%nat
               | c :: t => S (countLoop fuel' re (Some c) t)
               end
          else S (countLoop fuel' re (prev y) (rest y))
      | None =>
          match s with
          | [] => 0%nat
          | c :: t => countLoop fuel' re (Some c) t
          end
      end
  end.

(** The length of the array [s.match(re)], 0 for [null]: all the matches
    with the [g] flag, else the match and its capturing groups. *)
Definition matchLength (re : RegExp) (s : jsstring) : nat :=
  if global (flag re)
  then countLoop (S (length s)) re None s
  else if test re s then S (length (groups (pattern re))) else 0%nat.

End RegExp.

Import RegExp.

(* ===================================================================== *)
(** ** Regular expression literals *)
(* ===================================================================== *)

(** The patterns of the program are kept as their source text and parsed
    here.  A double quote of a source pattern is written [\x22]. *)

Module Literal.

Local Open Scope N_scope.

Definition isc (a : string) (c : char) : bool :=
  match lit a with
  | [b] => N.eqb b c
  | _ => false
  end.

Definition hexVal (c : char) : option N :=
  if isDigit c then Some (c - 48)
  else if inRange 97 102 c then Some (c - 87)
  else if inRange 65 70 c then Some (c - 55)
  else None.

(** What follows a backslash: a class, or one code unit. *)
Definition escape (e : char) (t : jsstring) : option (citem * jsstring) :=
  if isc "w" e then Some (CWord, t)
  else if isc "s" e then Some (CSpace, t)
  else if isc "S" e then Some (CNotSpace, t)
  else if isc "d" e then Some (CDigit, t)
  else if isc "n" e then Some (CChar 10, t)
  else if isc "r" e then Some (CChar 13, t)
  else if isc "t" e then Some (CChar 9, t)
  else if isc "x" e then
    match t with
    | h :: l :: t' =>
        match hexVal h, hexVal l with
        | Some a, Some b => Some (CChar (16 * a + b), t')
        | _, _ => None
        end
    | _ => None
    end
  else Some (CChar e, t).

Fixpoint parseClass (fuel : nat) (s : jsstring) : option (list citem * jsstring) :=
  match fuel with
  | O => None
  | S f =>
      match s with
      | [] => None
      | c :: t =>
          if isc "]" c then Some ([], t)
          else if isc "\" c then
            match t with
            | e :: t' =>
                match escape e t' with
                | Some (it, t'') =>
                    match parseClass f t'' with
                    | Some (its, r) => Some (it :: its, r)
                    | None => None
                    end
                | None => None
                end
            | [] => None
            end
          else
            match t with
            | d :: hi :: t' =>
                if (isc "-" d && negb (isc "]" hi))%bool then
                  match parseClass f t' with
                  | Some (its, r) => Some (CRange c hi :: its, r)
                  | None => None
                  end
                else
                  match parseClass f t with
                  | Some (its, r) => Some (CChar c :: its, r)
                  | None => None
                  end
            | _ =>
                match parseClass f t with
                | Some (its, r) => Some (CChar c :: its, r)
                | None => None
                end
            end
      end
  end.

Fixpoint parseNat (s : jsstring) (acc : nat) : nat * jsstring :=
  match s with
  | c :: t => if isDigit c then parseNat t (10 * acc + N.to_nat (c - 48))%nat else (acc, s)
  | [] => (acc, s)
  end.

(** A quantifier, if there is one: its bounds and whether it is greedy. *)
Definition parseQuant (s : jsstring) : option (nat * option nat * bool) * jsstring :=
  let lazy (q : nat * option nat) (t : jsstring) :=
    match t with
    | c :: t' => if isc "?" c then (Some (q, false), t') else (Some (q, true), t)
    | [] => (Some (q, true), t)
    end in
  match s with
  | c :: t =>
      if isc "*" c then lazy (0%nat, None) t
      else if isc "+" c then lazy (1%nat, None) t
      else if isc "?" c then lazy (0%nat, Some 1%nat) t
      else if isc "{" c then
        let '(lo, t1) := parseNat t 0%nat in
        match t1 with
        | d :: t2 =>
            if isc "}" d then lazy (lo, Some lo) t2
            else if isc "," d then
              match t2 with
              | e :: t3 =>
                  if isc "}" e then lazy (lo, None) t3
                  else
                    let '(hi, t4) := parseNat t2 0%nat in
                    match t4 with
                    | f :: t5 => if isc "}" f then lazy (lo, Some hi) t5 else (None, s)
                    | [] => (None, s)
                    end
              | [] => (None, s)
              end
            else (None, s)
        | [] => (None, s)
        end
      else (None, s)
  | [] => (None, s)
  end.

Definition seq (a b : regex) : regex :=
  match b with
  | REmpty => a
  | _ => RSeq a b
  end.

Definition itemRegex (it : citem) : regex :=
  match it with
  | CChar c => RChar c
  | _ => RClass false [it]
  end.

(** Disjunction, Alternative, Term and Atom of the pattern grammar; [g]
    counts the capturing groups opened so far. *)
Fixpoint parseDisjunction (fuel : nat) (s : jsstring) (g : nat)
  : option (regex * jsstring * nat) :=
  match fuel with
  | O => None
  | S f =>
      match parseAlternative f s g with
      | Some (a, s1, g1) =>
          match s1 with
          | c :: s2 =>
              if isc "|" c then
                match parseDisjunction f s2 g1 with
                | Some (b, s3, g3) => Some (RAlt a b, s3, g3)
                | None => None
                end
              else Some (a, s1, g1)
          | [] => Some (a, s1, g1)
          end
      | None => None
      end
  end
with parseAlternative (fuel : nat) (s : jsstring) (g : nat)
  : option (regex * jsstring * nat) :=
  match fuel with
  | O => None
  | S f =>
      match s with
      | [] => Some (REmpty, s, g)
      | c :: _ =>
          if (isc "|" c || isc ")" c)%bool then Some (REmpty, s, g)
          else
            match parseTerm f s g with
            | Some (t, s1, g1) =>
                match parseAlternative f s1 g1 with
                | Some (a, s2, g2) => Some (seq t a, s2, g2)
                | None => None
                end
            | None => None
            end
      end
  end
with parseTerm (fuel : nat) (s : jsstring) (g : nat)
  : option (regex * jsstring * nat) :=
  match fuel with
  | O => None
  | S f =>
      match parseAtom f s g with
      | Some (a, s1, g1) =>
          match parseQuant s1 with
          | (Some (lo, hi, greedy), s2) => Some (RQuant lo hi greedy a, s2, g1)
          | (None, _) => Some (a, s1, g1)
          end
      | None => None
      end
  end
with parseAtom (fuel : nat) (s : jsstring) (g : nat)
  : option (regex * jsstring * nat) :=
  match fuel with
  | O => None
  | S f =>
      match s with
      | [] => None
      | c :: t =>
          if isc "^" c then Some (RBol, t, g)
          else if isc "$" c then Some (REol, t, g)
          else if isc "." c then Some (RDot, t, g)
          else if isc "\" c then
            match t with
            | e :: t' =>
                if isc "b" e then Some (RWordB, t', g)
                else match escape e t' with
                     | Some (it, t'') => Some (itemRegex it, t'', g)
                     | None => None
                     end
            | [] => None
            end
          else if isc "[" c then
            match t with
            | n :: t' =>
                if isc "^" n then
                  match parseClass (S (length t')) t' with
                  | Some (its, r) => Some (RClass true its, r, g)
                  | None => None
                  end
                else
                  match parseClass (S (length t)) t with
                  | Some (its, r) => Some (RClass false its, r, g)
                  | None => None
                  end
            | [] => None
            end
          else if isc "(" c then
            match t with
            | q :: k :: t' =>
                if (isc "?" q && isc ":" k)%bool then
                  match parseDisjunction f t' g with
                  | Some (r, p :: t'', g') =>
                      if isc ")" p then Some (r, t'', g') else None
                  | _ => None
                  end
                else
                  match parseDisjunction f t (S g) with
                  | Some (r, p :: t'', g') =>
                      if isc ")" p then Some (RGroup (S g) r, t'', g') else None
                  | _ => None
                  end
            | _ => None
            end
          else Some (RChar c, t, g)
      end
  end.

Definition parseFlags (s : jsstring) : flags :=
  {| global := existsb (isc "g") s;
     ignoreCase := existsb (isc "i") s;
     multiline := existsb (isc "m") s |}.

(** A pattern that matches nowhere, for a source text that does not parse. *)
Definition never : regex := RClass false [].

Definition parse (src : string) : option regex :=
  let s := lit src in
  match parseDisjunction (4 * S (length s)) s 0%nat with
  | Some (r, [], _) => Some r
  | _ => None
  end.

(** The literal [/src/fl]. *)
Definition re (src fl : string) : RegExp :=
  {| pattern := match parse src with Some r => r | None => never end;
     flag := parseFlags (lit fl) |}.

End Literal.

Import Literal.

(* ===================================================================== *)
(** ** Numbers *)
(* ===================================================================== *)

(** The Number values the program computes with are non-negative and
    finite; they are kept as the exact rationals they denote, and an
    arithmetic operation rounds its exact result to the nearest value
    with a 53-bit significand, ties to even, as binary64 does. *)

Module Number.

Local Open Scope Z_scope.

(** [floor (n * 2^s / d)], also for a negative [s]. *)
Definition scaled (n d s : Z) : Z :=
  if 0 <=? s then (n * 2 ^ s) / d else n / (d * 2 ^ (- s)).

Definition round53 (q : Q) : Q :=
  let n := Qnum q in
  let d := Zpos (Qden q) in
  if n <=? 0 then 0%Q
  else
    let s0 := 52 - (Z.log2 n - Z.log2 d) in
    let s := if scaled n d s0 <? 2 ^ 52 then s0 + 1 else s0 in
    let num := if 0 <=? s then n * 2 ^ s else n in
    let den := if 0 <=? s then d else d * 2 ^ (- s) in
    let q0 := num / den in
    let r := num mod den in
    let up := ((den <? 2 * r) || ((den =? 2 * r) && Z.odd q0))%bool in
    let m := if up then q0 + 1 else q0 in
    if 0 <=? s then Qmake m (Z.to_pos (2 ^ s)) else inject_Z (m * 2 ^ (- s)).

(** A decimal literal of the source. *)
Definition literal (q : Q) : Q := round53 q.

Definition mul (a b : Q) : Q := round53 (a * b).
Definition div (a b : Q) : Q := round53 (a / b).

Definition ofNat (n : nat) : Q := inject_Z (Z.of_nat n).

Definition ltb (a b : Q) : bool := negb (Qle_bool b a).

(** [Math.round]: the nearest integer, a half goes up. *)
Definition round (a : Q) : Z := Qfloor (a + (1 # 2)).

End Number.

(* ===================================================================== *)
(** ** Effects: the network, the toasts, the history table *)
(* ===================================================================== *)

Module Effects.

(** How a call ends: with a value, or with a thrown [Error] and its
    message. *)
Inductive outcome (A : Type) : Type :=
| Returned (a : A)
| Thrown (message : jsstring).
Arguments Returned {A} a.
Arguments Thrown {A} message.

Record ChatMessage := { role : jsstring; content : jsstring }.

(** The body of the POST to the proxy. *)
Record Request := {
  url : jsstring;
  model : jsstring;
  messages : list ChatMessage;
  temperature : Q;
  max_tokens : N;
  top_p : Q;
  stream : bool
}.

(** What [JSON.parse] makes of a response body: nothing (a SyntaxError),
    [null], or an object, given by its string-valued properties; a
    property that is absent or [null] is not listed, and any other value
    reads as an object without the properties the program asks for. *)
Inductive json :=
| NotJson
| JsonNull
| JsonObject (fields : list (jsstring * jsstring)).

Record Response := { ok : bool; status : N; text : jsstring; body : json }.

(** [fetch] is rejected (no connection) or answers. *)
Inductive answer :=
| Rejected (message : jsstring)
| Responded (r : Response).

Record Toast := { title : jsstring; description : jsstring; destructive : bool }.

(** A row of the table [code_executions]. *)
Record Row := {
  user_id : jsstring;
  language : jsstring;
  code : jsstring;
  output : jsstring;
  created_at : jsstring
}.

(** The world outside the program: the configured URL, the clock, the
    answers the network gives to the next fetches, and the log of what the
    program did. *)
Record world := {
  VITE_SUPABASE_URL : jsstring;
  now : jsstring;
  network : list answer;
  fetches : list Request;
  toasts : list Toast;
  rows : list Row
}.

(** Computations over a state [S] that may throw. *)
Definition M (S A : Type) : Type := S -> outcome A * S.

Definition ret {S A} (a : A) : M S A := fun s => (Returned a, s).

Definition throw {S A} (message : jsstring) : M S A := fun s => (Thrown message, s).

Definition bind {S A B} (m : M S A) (f : A -> M S B) : M S B :=
  fun s =>
    match m s with
    | (Returned a, s') => f a s'
    | (Thrown e, s') => (Thrown e, s')
    end.

(** [try { m } catch (e) { h e }]. *)
Definition tryCatch {S A} (m : M S A) (h : jsstring -> M S A) : M S A :=
  fun s =>
    match m s with
    | (Returned a, s') => (Returned a, s')
    | (Thrown e, s') => h e s'
    end.

(** [try { m } finally { f }]. *)
Definition tryFinally {S A} (m : M S A) (f : M S unit) : M S A :=
  fun s =>
    let '(r, s') := m s in
    match f s' with
    | (Returned _, s'') => (r, s'')
    | (Thrown e, s'') => (Thrown e, s'')
    end.

Definition get {S} : M S S := fun s => (Returned s, s).
Definition modify {S} (f : S -> S) : M S unit := fun s => (Returned tt, f s).

Declare Scope js_scope.
Delimit Scope js_scope with js.
Notation "x <- m ;; k" := (bind m (fun x => k))
  (at level 61, m at next level, right associativity) : js_scope.
Notation "m ;; k" := (bind m (fun _ => k))
  (at level 61, right associativity) : js_scope.

Local Open Scope js_scope.

(** [fetch]: the request is logged and the next answer of the network is
    taken; a network with no answer left rejects. *)
Definition fetch (req : Request) : M world Response :=
  fun w =>
    let log (rest : list answer) :=
      {| VITE_SUPABASE_URL := VITE_SUPABASE_URL w; now := now w;
         network := rest; fetches := fetches w ++ [req];
         toasts := toasts w; rows := rows w |} in
    match network w with
    | [] => (Thrown (lit "Failed to fetch"), log [])
    | Rejected e :: rest => (Thrown e, log rest)
    | Responded r :: rest => (Returned r, log rest)
    end.

Definition toast (t : Toast) : M world unit :=
  modify (fun w =>
    {| VITE_SUPABASE_URL := VITE_SUPABASE_URL w; now := now w;
       network := network w; fetches := fetches w;
       toasts := toasts w ++ [t]; rows := rows w |}).

(** [supabase.from("code_executions").insert(row)]. *)
Definition insert (r : Row) : M world unit :=
  modify (fun w =>
    {| VITE_SUPABASE_URL := VITE_SUPABASE_URL w; now := now w;
       network := network w; fetches := fetches w;
       toasts := toasts w; rows := rows w ++ [r] |}).

(** [new Date().toISOString()]. *)
Definition toISOString : M world jsstring := fun w => (Returned (now w), w).

(** A property of a parsed object; of two equal keys the later one counts. *)
Definition property (name : string) (fields : list (jsstring * jsstring))
  : option jsstring :=
  match find (fun p => eqs (fst p) (lit name)) (rev fields) with
  | Some (_, v) => Some v
  | None => None
  end.

(** [a ?? b] and [a || b] on a string that may be undefined. *)
Definition nullish (a : option jsstring) (b : jsstring) : jsstring :=
  match a with Some v => v | None => b end.

Definition orElse (a : option jsstring) (b : jsstring) : jsstring :=
  match a with
  | Some [] | None => b
  | Some v => v
  end.

(** A number in a template literal. *)
Definition decimal (n : N) : jsstring := lit (NilZero.string_of_uint (N.to_uint n)).

(** The messages of the errors the engine itself throws are its own
    wording; these texts stand for them. *)
Definition syntaxError : jsstring := lit "SyntaxError: Unexpected token in JSON".
Definition typeError : jsstring := lit "TypeError: Cannot read properties of null".

End Effects.

Import Effects.
Local Open Scope js_scope.

(* ===================================================================== *)
(** ** services/groqService.ts *)
(* ===================================================================== *)

Module GroqService.

Definition DEFAULT_MODEL : jsstring := lit "llama-3.3-70b-versatile".

Record GroqOptions := {
  opt_model : option jsstring;
  opt_temperature : option Q;
  opt_maxTokens : option N;
  opt_topP : option Q;
  opt_stream : option bool
}.

Definition noOptions : GroqOptions :=
  {| opt_model := None; opt_temperature := None; opt_maxTokens := None;
     opt_topP := None; opt_stream := None |}.

Definition withDefault {A} (o : option A) (d : A) : A :=
  match o with Some a => a | None => d end.

Definition system (c : jsstring) : ChatMessage := {| role := lit "system"; content := c |}.
Definition user (c : jsstring) : ChatMessage := {| role := lit "user"; content := c |}.

(** One POST to the proxy.  A response that is not ok throws; the error
    thrown inside the inner [try] is caught by its own [catch], which
    throws the message with the status and the body text.  An ok response
    yields [data.response ?? data.generatedCode ?? data.content ?? '']. *)
Definition executeWithGroq (messages : list ChatMessage) (options : GroqOptions)
  : M world jsstring :=
  tryCatch
    (w <- get ;;
     let functionsBase := VITE_SUPABASE_URL w in
     let proxyUrl := replace (re "\/$" "") [] functionsBase
    ++ lit "/functions/v1/groq-proxy" in
     response <- fetch {| url := proxyUrl;
                          model := withDefault (opt_model options) DEFAULT_MODEL;
                          messages := messages;
                          temperature := withDefault (opt_temperature options) (7 # 10);
                          max_tokens := withDefault (opt_maxTokens options) 4000%N;
                          top_p := withDefault (opt_topP options) 1;
                          stream := withDefault (opt_stream options) false |} ;;
     if negb (ok response) then
       tryCatch
         (match body response with
          | NotJson => throw syntaxError
          | JsonNull => throw typeError
          | JsonObject errJson =>
              throw (orElse (property "error" errJson)
                       (orElse (property "message" errJson)
                          (lit "Groq proxy error: "
    ++ decimal (status response))))
          end)
         (fun _ => throw (lit "Groq proxy error: "
    ++ decimal (status response)
    ++ lit " - "
    ++ text response))
     else
       match body response with
       | NotJson => throw syntaxError
       | JsonNull => throw typeError
       | JsonObject data =>
           ret (nullish (property "response" data)
                  (nullish (property "generatedCode" data)
                     (nullish (property "content" data) [])))
       end)
    (fun error => throw error).

(** The patterns [cleanCodeResponse] removes, in order. *)
Definition patternsToRemove : list RegExp :=
  [ re "^\/\*[\s\S]*?\*\/\s*\n?" "gm";
    re "^\/\/.*(?:generated|example|template|todo|note:|note that|please|change this|implement|TODO:|FIXME:).*\n?" "gmi";
    re "^#!\/.*\n?" "g";
    re "^\/\*[\s\S]*?replace this.*?\*\/\s*\n?" "gmi";
    re "^\/\/\s*(?:TODO|FIXME|NOTE|HACK|XXX).*\n?" "gmi";
    re "^\/\/\s*Your code here.*\n?" "gmi";
    re "^\/\/\s*Add your .* here.*\n?" "gmi";
    re "^\/\/\s*Implement .*\n?" "gmi";
    re "^(?:Here'?s|Here is|Here are).*?:\n\n?" "i";
    re "^The following .*?:\n\n?" "i";
    re "^To get started.*?:\n\n?" "i";
    re "^\s*\n+" "" ].

Definition cleanCodeResponse (code language : jsstring) : jsstring :=
  let cleaned := trim (replace (re "^```(?:\w+)?\n([\s\S]*?)\n```$" "gm") [RCap 1] code) in
  let cleaned := replace (re "`" "g") [] cleaned in
  let cleaned := fold_left (fun cleaned pattern => replace pattern [] cleaned)
                   patternsToRemove cleaned in
  let cleaned := replace (re "^\s*\/\/.*\n?" "gm") [] cleaned in
  let cleaned := replace (re "\n{3,}" "g") [RLit [LF; LF]] cleaned in
  trim cleaned ++ [LF].

Definition generateCode (description language : jsstring) : M world jsstring :=
  let systemPrompt :=
    lit "You are a senior "
    ++ language
    ++ lit " developer. Your task is to transform natural language requirements into production-ready code.

IMPORTANT INSTRUCTIONS:
1. Generate ONLY the complete, runnable code
2. DO NOT include any markdown code blocks
3. DO NOT include any explanatory text or comments
4. DO NOT include any placeholders or TODOs
5. The first line of your response must be valid code
6. Include all necessary imports and exports
7. Ensure the code is properly formatted
8. Add appropriate error handling
9. Use modern "
    ++ language
    ++ lit " features and best practices" in
  let prompt :=
    lit "Generate production-ready "
    ++ language
    ++ lit " code based on this description: "
    ++ [DQ]
    ++ description
    ++ [DQ]
    ++ lit "

REQUIREMENTS:
1. Generate ONLY the code - no explanations, no markdown, no placeholders
2. The code must be immediately runnable
3. Include all necessary imports and dependencies
4. Add proper error handling
5. Consider edge cases
6. Follow best practices for "
    ++ language
    ++ lit "
7. The first line must be valid code (no comments or markdown)

IMPORTANT: Your response must be the raw code only, with no additional text before or after." in
  tryCatch
    (result <- executeWithGroq [system systemPrompt; user prompt]
                 {| opt_model := None; opt_temperature := Some (3 # 10);
                    opt_maxTokens := Some 4000%N; opt_topP := None;
                    opt_stream := None |} ;;
     ret (cleanCodeResponse result language))
    (fun _ => throw (lit "Failed to generate code. Please try again with a more specific prompt.")).

Definition generateTests (code language : jsstring) : M world jsstring :=
  let systemPrompt :=
    lit "You are a QA engineer. Generate comprehensive test cases for the following "
    ++ language
    ++ lit " code. Include edge cases and error handling." in
  result <- executeWithGroq [system systemPrompt; user code] noOptions ;;
  ret (cleanCodeResponse result language).

Definition explainCode (code language : jsstring) : M world jsstring :=
  let systemPrompt :=
    lit "You are a senior developer. Explain the following "
    ++ language
    ++ lit " code in detail, including its purpose, how it works, and any important considerations." in
  executeWithGroq [system systemPrompt; user code] noOptions.

Definition debugCode (code language : jsstring) (error : option jsstring)
  : M world jsstring :=
  let systemPrompt :=
    lit "You are a debugging expert. Analyze and fix issues in the following "
    ++ language
    ++ lit " code. "
    ++ (match error with Some (_ :: _ as e) => lit "The following error occurred: " ++ e | _ => [] end) in
  executeWithGroq [system systemPrompt; user code] noOptions.

Definition generateDocumentation (code language : jsstring) : M world jsstring :=
  let systemPrompt :=
    lit "Generate professional documentation for the following "
    ++ language
    ++ lit " code. Include:
    1. Function/Class purpose
    2. Parameters and return values
    3. Examples of usage
    4. Any important notes or warnings" in
  executeWithGroq [system systemPrompt; user code] noOptions.

Definition optimizeCode (code language : jsstring) : M world jsstring :=
  let systemPrompt :=
    lit "You are a performance optimization expert. Analyze and optimize the following "
    ++ language
    ++ lit " code for better performance, readability, and maintainability." in
  executeWithGroq [system systemPrompt; user code] noOptions.

Definition auditSecurity (code language : jsstring) : M world jsstring :=
  let systemPrompt :=
    lit "You are a security expert. Perform a security audit of the following "
    ++ language
    ++ lit " code. Identify and explain any potential security vulnerabilities." in
  executeWithGroq [system systemPrompt; user code] noOptions.

End GroqService.

(* ===================================================================== *)
(** ** services/aiService.ts *)
(* ===================================================================== *)

Module AIService.

Definition chatCompletion (messages : list ChatMessage)
  (temperature : option Q) (maxTokens : option N) : M world jsstring :=
  GroqService.executeWithGroq messages
    {| GroqService.opt_model := None;
       GroqService.opt_temperature := Some (GroqService.withDefault temperature (7 # 10));
       GroqService.opt_maxTokens := Some (GroqService.withDefault maxTokens 2000%N);
       GroqService.opt_topP := None;
       GroqService.opt_stream := None |}.

(** Language detection by the model; never throws. *)
Definition detectLanguage (code : jsstring) : M world jsstring :=
  let systemPrompt :=
    lit "You are a programming language detection system. Analyze the code and respond with only the programming language name in lowercase." in
  let prompt :=
    lit "What programming language is this code written in? Respond with only the language name in lowercase.

```
"
    ++ firstn 1000 code
    ++ lit " // Only using first 1000 chars for detection
```" in
  tryCatch
    (result <- GroqService.executeWithGroq
                 [GroqService.system systemPrompt; GroqService.user prompt]
                 {| GroqService.opt_model := None;
                    GroqService.opt_temperature := Some (1 # 10);
                    GroqService.opt_maxTokens := Some 20%N;
                    GroqService.opt_topP := None;
                    GroqService.opt_stream := None |} ;;
     ret (replace (re "[^a-z]" "g") []
            (hd [] (split SP (toLowerCase (trim result))))))
    (fun _ => ret (lit "unknown")).

Definition generateCode (description language : jsstring) : M world jsstring :=
  GroqService.generateCode description language.

(** [explainCode]: the completion, then the clean-up of what the model
    may have left of markdown and markup. *)
Definition explainCode (code language : jsstring) (detailLevel : option jsstring)
  : M world jsstring :=
  let detailLevel := GroqService.withDefault detailLevel (lit "detailed") in
  let systemPrompt :=
    lit "You are a " ++ language
    ++ lit " expert. Explain the following code in a clear, concise way using plain text only." in
  let prompt :=
    lit "Explain this " ++ language ++ lit " code in " ++ detailLevel
    ++ lit " detail, using only plain text format.
    
    RULES FOR YOUR RESPONSE:
    1. Use only plain text - NO markdown, backticks, asterisks, or any special formatting
    2. Do not use headers, sections, or any kind of dividers
    3. Do not show the code being explained
    4. Write in complete sentences with proper punctuation
    5. Use line breaks between paragraphs for better readability
    6. Do not use any special characters for emphasis
    
    Code to explain:
    ```" ++ language ++ lit "
    " ++ code ++ lit "
    ```
    
    Provide a clear, flowing explanation as if you were explaining it to a colleague in person." in
  explanation <- chatCompletion
                   [GroqService.system systemPrompt; GroqService.user prompt]
                   (Some (3 # 10)) (Some 1000%N) ;;
  let cleaned := replace (re "```[\s\S]*?```" "g") [] explanation in
  let cleaned := replace (re "[#*_`~]" "g") [] cleaned in
  let cleaned := replace (re "<[^>]*>?" "gm") [] cleaned in
  let cleaned := replace (re "\s+\n" "g") [RLit [LF]] cleaned in
  let cleaned := replace (re "\n{3,}" "g") [RLit [LF; LF]] cleaned in
  ret (trim cleaned).

End AIService.

(* ===================================================================== *)
(** ** utils/codeAnalysis.ts *)
(* ===================================================================== *)

Module CodeAnalysis.

Record LanguageDetectionResult := {
  language : jsstring;
  confidence : Z;
  fallback : option bool
}.

Record CodeAnalysisConfig := {
  useAI : option bool;
  minConfidence : option Q;
  fallbackToText : option bool
}.

Definition defaultConfig : CodeAnalysisConfig :=
  {| useAI := None; minConfidence := None; fallbackToText := None |}.

Record Rule := rule { pattern : RegExp; ruleLanguage : string; weight : nat }.

(** The weighted rule table.  (A double quote of the source is written
    [\x22].) *)
Definition patterns : list Rule :=
  [
    rule (re "export\s+default|type\s+\w+\s*=|interface\s+\w+|enum\s+\w+" "g") "typescript" 3;
    rule (re "\b(Console\.WriteLine|using\s+System;|namespace\s+\w+)" "g") "csharp" 3;
    rule (re "\b(SELECT|INSERT\s+INTO|UPDATE|DELETE\s+FROM|CREATE\s+TABLE)\s+" "gi") "sql" 3;
    rule (re "import\s+React|React\.|useState|useEffect|JSX\.Element" "g") "tsx" 3;
    rule (re "from\s+['\x22]react['\x22]|ReactDOM\.|useState|useEffect" "g") "jsx" 3;
    rule (re "(const|let|var)\s+\w+\s*=[^=]|function\s+\w+\s*\(|=>|import\s+[\w{ ]" "g") "javascript" 2;
    rule (re "^\s*(def|class)\s+\w+\s*[(:]|^\s*import\s+\w+|^\s*from\s+\w+" "gm") "python" 2;
    rule (re "\b(public|private|protected)\s+\w+\s+\w+\s*\{|class\s+\w+" "g") "java" 2;
    rule (re "#include\s+[<\x22][\w./]+[>\x22]|using\s+namespace|std::" "g") "cpp" 2;
    rule (re "\bfunc\s+\w+\s*\(|package\s+main|import\s+\(" "g") "go" 2;
    rule (re "<\?php|\$\w+\s*=|\$_\w+" "g") "php" 2;
    rule (re "[.#]\w+\s*\{[^}]*\}|@(media|keyframes|import)" "g") "css" 2;
    rule (re "\bfn\s+\w+\s*\(|let\s+mut|println!" "g") "rust" 2;
    rule (re "\bfun\s+\w+\s*\(|val\s+\w+\s*[:=]|var\s+\w+\s*[:=]" "g") "kotlin" 2;
    rule (re "func\s+\w+\s*\(|defer\s+\w+|goroutine" "g") "go" 2;
    rule (re "public\s+static\s+void\s+main|String\[\]\s+args" "g") "java" 2;
    rule (re "<\w+[^>]*>.*<\/\w+>|<\/\w+>" "gi") "html" 1;
    rule (re "<!DOCTYPE\s+html>" "i") "html" 2;
    rule (re "def\s+\w+\s*\(" "") "python" 1;
    rule (re "function\s+\w+\s*\(" "") "javascript" 1;
    rule (re "class\s+\w+" "") "java" 1
  ].

(** [scores[language] = (scores[language] || 0) + n], the keys kept in the
    order in which they were first written. *)
Fixpoint addScore (scores : list (jsstring * nat)) (language : jsstring) (n : nat)
  : list (jsstring * nat) :=
  match scores with
  | [] => [(language, n)]
  | (l, v) :: t =>
      if eqs l language then (l, v + n)%nat :: t
      else (l, v) :: addScore t language n
  end.

(** The [forEach] over the rule table. *)
Definition score (code : jsstring) : list (jsstring * nat) :=
  fold_left (fun scores r =>
    let matches := matchLength (pattern r) code in
    if Nat.eqb matches 0 then scores
    else addScore scores (lit (ruleLanguage r)) (matches * weight r))
    patterns [].

(** [sort(([, a], [, b]) => b - a)]: by falling score, entries of equal
    score in their former order. *)
Fixpoint insertDesc (e : jsstring * nat) (l : list (jsstring * nat))
  : list (jsstring * nat) :=
  match l with
  | [] => [e]
  | x :: t => if Nat.ltb (snd e) (snd x) then x :: insertDesc e t else e :: l
  end.

Definition sortDesc (l : list (jsstring * nat)) : list (jsstring * nat) :=
  fold_right insertDesc [] l.

(** [Math.min(100, Math.round((score / (code.length * 0.01)) * 100))].
    The length is never 0 here: blank code has returned before. *)
Definition confidenceOf (score length : nat) : Z :=
  Z.min 100
    (Number.round
       (Number.mul
          (Number.div (Number.ofNat score)
             (Number.mul (Number.ofNat length) (Number.literal (1 # 100))))
          100)).

Definition fallbackLanguage (fallbackToText : bool) : jsstring :=
  if fallbackToText then lit "text" else lit "unknown".

(** The regex-based detection with scoring, the second half of
    [detectLanguage]. *)
Definition detectByPatterns (code : jsstring) (minConfidence : Q)
  (fallbackToText : bool) : LanguageDetectionResult :=
  let scores := score code in
  let '(bestLanguage, score) :=
    match sortDesc scores with
    | e :: _ => e
    | [] => (lit "unknown", 0%nat)
    end in
  let confidence := confidenceOf score (length code) in
  if Number.ltb (inject_Z confidence) minConfidence then
    {| language := fallbackLanguage fallbackToText; confidence := 0;
       fallback := Some true |}
  else
    {| language := bestLanguage; confidence := confidence; fallback := None |}.

Definition detectLanguage (code : jsstring) (config : CodeAnalysisConfig)
  : M world LanguageDetectionResult :=
  let useAI := GroqService.withDefault (useAI config) true in
  let minConfidence := GroqService.withDefault (minConfidence config) 0 in
  let fallbackToText := GroqService.withDefault (fallbackToText config) true in
  match trim code with
  | [] => ret {| language := fallbackLanguage fallbackToText; confidence := 0;
                 fallback := None |}
  | _ :: _ =>
      byAI <- (if useAI then
                 tryCatch
                   (aiLang <- AIService.detectLanguage code ;;
                    match aiLang with
                    | [] => ret None
                    | _ :: _ =>
                        if eqs aiLang (lit "unknown") then ret None
                        else ret (Some {| language := aiLang; confidence := 90;
                                          fallback := None |})
                    end)
                   (fun _ => ret None)
               else ret None) ;;
      match byAI with
      | Some r => ret r
      | None => ret (detectByPatterns code minConfidence fallbackToText)
      end
  end.

End CodeAnalysis.

(* ===================================================================== *)
(** ** utils/errorHandler.ts *)
(* ===================================================================== *)

Module ErrorHandler.

(** [validateRequired]: an empty or blank value raises the validation
    toast and fails. *)
Definition validateRequired (value fieldName : jsstring) : M world bool :=
  match trim value with
  | [] =>
      toast {| title := lit "Validation Error";
               description := fieldName ++ lit " is required";
               destructive := true |} ;;
      ret false
  | _ :: _ => ret true
  end.

End ErrorHandler.

(* ===================================================================== *)
(** ** pages/CodeExplanation.tsx *)
(* ===================================================================== *)

Module CodeExplanation.

Record Level := { value : jsstring; label : jsstring; prompt : jsstring }.

Definition beginner : Level :=
  {| value := lit "beginner"; label := lit "Beginner";
     prompt := lit "Explain like I'm 10. Use everyday words. Short sentences. Fun analogies. No jargon. One idea per line." |}.

Definition intermediate : Level :=
  {| value := lit "intermediate"; label := lit "Intermediate";
     prompt := lit "Explain how parts connect. Use real code terms. Mention patterns. Keep it readable. One comment per line." |}.

Definition expert : Level :=
  {| value := lit "expert"; label := lit "Expert";
     prompt := lit "Deep dive: time/space complexity, edge cases, optimizations, design trade-offs, best practices. Be concise." |}.

Definition explanationLevels : list Level := [beginner; intermediate; expert].

(** The state of the component that the handler writes. *)
Record Page := { explanation : jsstring; activeTab : jsstring; isExplaining : bool }.

Record state := { outside : world; page : Page }.

Definition lift {A} (m : M world A) : M state A :=
  fun s =>
    let '(r, w) := m (outside s) in
    (r, {| outside := w; page := page s |}).

Definition setPage (f : Page -> Page) : M state unit :=
  modify (fun s => {| outside := outside s; page := f (page s) |}).

Definition setExplanation (v : jsstring) : M state unit :=
  setPage (fun p => {| explanation := v; activeTab := activeTab p;
                       isExplaining := isExplaining p |}).

Definition setActiveTab (v : jsstring) : M state unit :=
  setPage (fun p => {| explanation := explanation p; activeTab := v;
                       isExplaining := isExplaining p |}).

Definition setIsExplaining (v : bool) : M state unit :=
  setPage (fun p => {| explanation := explanation p; activeTab := activeTab p;
                       isExplaining := v |}).

(** The local check for JSX or HTML. *)
Definition looksLikeMarkup (trimmed : jsstring) : bool :=
  (test (re "<Card|className|ref=|React\.|tsx|jsx|<\w+" "") trimmed
   || includes (lit "<div") trimmed
   || includes (lit "return (") trimmed)%bool.

(** "Clean output": the fences, the line breaks, the blank lines, the
    ends. *)
Definition cleanOutput (result : jsstring) : jsstring :=
  trim
    (replace (re "(\n\s*){3,}" "g") [RLit [LF; LF]]
       (replace (re "[\r\n]+" "g") [RLit [LF]]
          (replace (re "```" "g") []
             (replace (re "```[\w]*\n?" "g") [] result)))).

(** The keyword table of the fallback. *)
Definition map : list (string * string) :=
  [ ("function", "Define a function");
    ("let", "Create a variable");
    ("const", "Create a constant");
    ("var", "Create a variable");
    ("return", "Return a value");
    ("if", "Check condition");
    ("else", "Otherwise");
    ("for", "Loop over items");
    ("while", "Loop while true");
    ("try", "Try to run code");
    ("catch", "Catch errors");
    ("throw", "Throw an error");
    ("class", "Define a class");
    ("import", "Import module");
    ("from", "Import from module");
    ("export", "Export something");
    ("def", "Define a function (Python)");
    ("print", "Print output");
    ("console", "Print to console");
    ("async", "Run asynchronously");
    ("await", "Wait for promise") ]%string.

(** The source text of the function [Object], which [map] inherits under
    the key [constructor]; the wording is the engine's. *)
Definition nativeObject : jsstring := lit "function Object() { [native code] }".

(** [map[first] || "Do something"]. *)
Definition commentFor (first : jsstring) : jsstring :=
  match find (fun p => eqs (lit (fst p)) first) map with
  | Some (_, c) => lit c
  | None =>
      if eqs first (lit "constructor") then nativeObject
      else lit "Do something"
  end.

(** One line of the keyword-based fallback. *)
Definition commentLine (line : jsstring) : jsstring :=
  let trimmedLine := trim line in
  match trimmedLine with
  | [] => line
  | _ :: _ =>
      let first :=
        toLowerCase (replace (re "[^a-zA-Z]" "g") [] (hd [] (split SP trimmedLine))) in
      let comment := commentFor first in
      lit "// " ++ comment ++ [LF] ++ line
  end.

Definition keywordComments (sourceCode : jsstring) : jsstring :=
  join [LF] (List.map commentLine (split LF sourceCode)).

(** [!result.includes("//") || result.length < sourceCode.length * 0.6]. *)
Definition needsFallback (result sourceCode : jsstring) : bool :=
  (negb (includes (lit "//") result)
   || Number.ltb (Number.ofNat (length result))
        (Number.mul (Number.ofNat (length sourceCode)) (Number.literal (6 # 10))))%bool.

Definition buildPrompt (level : Level) (sourceCode : jsstring) : jsstring :=
  lit "You are a code-commenting robot. Add ONE // comment ABOVE each line/block.

STYLE: "
    ++ prompt level
    ++ lit "

RULES:
1. Output ONLY code + // comments
2. NO markdown, NO ```, NO extra text
3. Preserve EXACT indentation and formatting
4. Use // for ALL languages
5. One comment per line or logical block
6. Original code 100% unchanged
7. If input is JSX/HTML, respond: "
    ++ [DQ]
    ++ lit "ERROR: JSX detected."
    ++ [DQ]
    ++ lit "

CODE TO EXPLAIN:
"
    ++ sourceCode
    ++ lit "

OUTPUT ONLY CODE + COMMENTS.".

Definition systemContent (level : Level) : jsstring :=
  lit "You are a code explainer. Style: "
    ++ prompt level
    ++ lit ". Return ONLY code with // comments above each line. No markdown. No extra text.".

(** The explain handler.  [sourceCode], [explanationLevel], [user] and
    [detectedLang] are the values the callback closes over. *)
Definition handleExplain (sourceCode explanationLevel : jsstring)
  (user detectedLang : option jsstring) : M state unit :=
  valid <- lift (ErrorHandler.validateRequired sourceCode (lit "Source Code")) ;;
  if negb valid then
    lift (toast {| title := lit "No Code"; description := lit "Paste code first.";
                   destructive := true |})
  else
    let trimmed := trim sourceCode in
    if looksLikeMarkup trimmed then
      lift (toast {| title := lit "Invalid Input";
                     description := lit "Please paste real code (JS, Python, etc.), not React/HTML components.";
                     destructive := true |})
    else
      setIsExplaining true ;;
      tryFinally
        (tryCatch
           (let level :=
              match find (fun l => eqs (value l) explanationLevel) explanationLevels with
              | Some l => l
              | None => beginner
              end in
            let prompt := buildPrompt level sourceCode in
            result <- lift (AIService.chatCompletion
                              [GroqService.system (systemContent level);
                               GroqService.user prompt] None None) ;;
            let result := cleanOutput result in
            if includes (lit "ERROR: JSX") result then
              lift (toast {| title := lit "Invalid Code";
                             description := lit "This looks like React/JSX. Please paste real code to explain.";
                             destructive := true |}) ;;
              setIsExplaining false
            else
              let result :=
                if needsFallback result sourceCode then keywordComments sourceCode
                else result in
              setExplanation result ;;
              setActiveTab (lit "result") ;;
              match user with
              | Some id =>
                  tryCatch
                    (created <- lift toISOString ;;
                     lift (insert {| user_id := id;
                                     language := lit "explain-" ++ orElse detectedLang (lit "unknown");
                                     code := sourceCode;
                                     output := result;
                                     created_at := created |}))
                    (fun _ => ret tt)
              | None => ret tt
              end ;;
              lift (toast {| title := lit "Done!";
                             description := label level ++ lit " explanation ready.";
                             destructive := false |}))
           (fun message =>
              lift (toast {| title := lit "Error";
                             description := orElse (Some message) (lit "Failed to explain.");
                             destructive := true |})))
        (setIsExplaining false).

End CodeExplanation.

(* ===================================================================== *)
(** ** The test generator page *)
(* ===================================================================== *)

Module TestGenerator.

Record TestQuality := {
  value : jsstring;
  label : jsstring;
  coverage : N;
  features : list jsstring
}.

Definition testQualities : list TestQuality :=
  [ {| value := lit "basic"; label := lit "Basic"; coverage := 65;
       features := [lit "Happy path"; lit "Basic assertions"; lit "Simple inputs"] |};
    {| value := lit "standard"; label := lit "Standard"; coverage := 88;
       features := [lit "Happy path"; lit "Edge cases"; lit "Error handling";
                    lit "Input validation"; lit "Integration"] |};
    {| value := lit "advanced"; label := lit "Advanced"; coverage := 97;
       features := [lit "All paths"; lit "Edge cases"; lit "Integration";
                    lit "Performance"; lit "Security"; lit "Mocking";
                    lit "Error resilience"] |} ].

Record Framework := {
  framework : jsstring;
  ext : jsstring;
  testFile : jsstring -> jsstring
}.

(** Language to test framework and file extension. *)
Definition frameworkMap : list (string * Framework) :=
  [
    ("javascript"%string, {| framework := lit "Jest"; ext := lit "js";
       testFile := fun n => n ++ lit ".test.js" |});
    ("typescript"%string, {| framework := lit "Jest"; ext := lit "ts";
       testFile := fun n => n ++ lit ".test.ts" |});
    ("jsx"%string, {| framework := lit "Jest + React Testing Library"; ext := lit "jsx";
       testFile := fun n => n ++ lit ".test.jsx" |});
    ("tsx"%string, {| framework := lit "Jest + React Testing Library"; ext := lit "tsx";
       testFile := fun n => n ++ lit ".test.tsx" |});
    ("python"%string, {| framework := lit "pytest"; ext := lit "py";
       testFile := fun n => lit "test_" ++ n ++ lit ".py" |});
    ("java"%string, {| framework := lit "JUnit 5"; ext := lit "java";
       testFile := fun n => n ++ lit "Test.java" |});
    ("csharp"%string, {| framework := lit "xUnit"; ext := lit "cs";
       testFile := fun n => n ++ lit "Tests.cs" |});
    ("php"%string, {| framework := lit "PHPUnit"; ext := lit "php";
       testFile := fun n => n ++ lit "Test.php" |});
    ("ruby"%string, {| framework := lit "RSpec"; ext := lit "rb";
       testFile := fun n => n ++ lit "_spec.rb" |});
    ("go"%string, {| framework := lit "testing"; ext := lit "go";
       testFile := fun n => n ++ lit "_test.go" |});
    ("rust"%string, {| framework := lit "cargo test"; ext := lit "rs";
       testFile := fun n => n ++ lit "_test.rs" |});
    ("kotlin"%string, {| framework := lit "JUnit 5"; ext := lit "kt";
       testFile := fun n => n ++ lit "Test.kt" |});
    ("swift"%string, {| framework := lit "XCTest"; ext := lit "swift";
       testFile := fun n => n ++ lit "Tests.swift" |});
    ("dart"%string, {| framework := lit "test"; ext := lit "dart";
       testFile := fun n => n ++ lit "_test.dart" |});
    ("html"%string, {| framework := lit "Jest + JSDOM"; ext := lit "html";
       testFile := fun n => lit "test_" ++ n ++ lit ".html" |});
    ("css"%string, {| framework := lit "Jest + jest-css-modules"; ext := lit "css";
       testFile := fun n => n ++ lit ".test.css" |})
  ].

(** The fallback tests.  [identifier] is the state the callback closes
    over.  (A [lang] that is no key of [templates] but [constructor] reads
    the inherited function [Object]; its source text stands for it.) *)
Definition generateFallbackTests (identifier : jsstring)
  (lang framework : jsstring) (quality : TestQuality) : jsstring :=
  let templates : list (string * jsstring) :=
    [ ("python"%string,
       lit "import pytest

def test_"
       ++ identifier
       ++ lit "():
    "
       ++ [DQ; DQ; DQ]
       ++ lit "Test core functionality"
       ++ [DQ; DQ; DQ]
       ++ lit "
    # TODO: Implement real test
    assert True

def test_edge_case():
    assert True
");
      ("javascript"%string,
       lit "test('"
       ++ identifier
       ++ lit " works', () => {
  expect(true).toBe(true);
});

test('handles edge case', () => {
  expect(true).toBe(true);
});
");
      ("java"%string,
       lit "@Test
void test"
       ++ identifier
       ++ lit "() {
    assertTrue(true);
}

@Test
void testEdgeCase() {
    assertTrue(true);
}
");
      ("typescript"%string,
       lit "test('"
       ++ identifier
       ++ lit " works', () => {
  expect(true).toBe(true);
});
") ] in
  match find (fun p => eqs (lit (fst p)) lang) templates with
  | Some (_, t) => t
  | None =>
      if eqs lang (lit "constructor") then CodeExplanation.nativeObject
      else lit "// Tests for "
           ++ identifier
           ++ lit "
// Using "
           ++ framework
           ++ lit "

// Add real tests"
  end.

(** The cleaning of the model's answer in [handleGenerate]. *)
Definition stripFences (result : jsstring) : jsstring :=
  trim (replace (re "```" "g") [] (replace (re "```[\w]*\n?" "g") [] result)).

End TestGenerator.

(* ===================================================================== *)
(** ** utils/aiApiCaller.ts *)
(* ===================================================================== *)

Module AIApiCaller.

(** The handler types of the interface, and any other string the caller
    may pass at run time. *)
Inductive HandlerType :=
| CodeGeneration
| TestGeneration
| CodeExplanation
| DebugRefactor
| CodeOptimization
| Documentation
| SecurityAudit
| Other (name : jsstring).

(** The fields of [body] the caller reads. *)
Record Body := {
  language : option jsstring;
  description : option jsstring;
  sourceCode : option jsstring;
  bodyError : option jsstring
}.

Record AIApiCallOptions := {
  functionName : jsstring;
  body : Body;
  fallbackContent : jsstring;
  handlerType : HandlerType
}.

Record Metadata := {
  model : option jsstring;
  timestamp : option jsstring;
  error : option bool;
  errorMessage : option jsstring
}.

Record StandardizedOutput := {
  content : jsstring;
  isPlaceholder : bool;
  metadata : option Metadata
}.

(** The [switch] over the handler type: the call to the provider. *)
Definition dispatch (handlerType : HandlerType) (body : Body) (language : jsstring)
  : M world jsstring :=
  match handlerType with
  | CodeGeneration =>
      GroqService.generateCode
        (orElse (description body) (orElse (sourceCode body) [])) language
  | TestGeneration =>
      GroqService.generateTests (orElse (sourceCode body) []) language
  | CodeExplanation =>
      GroqService.explainCode (orElse (sourceCode body) []) language
  | DebugRefactor =>
      GroqService.debugCode (orElse (sourceCode body) []) language (bodyError body)
  | Documentation =>
      GroqService.generateDocumentation (orElse (sourceCode body) []) language
  | SecurityAudit =>
      GroqService.auditSecurity (orElse (sourceCode body) []) language
  | CodeOptimization =>
      GroqService.optimizeCode (orElse (sourceCode body) []) language
  | Other name => throw (lit "Unsupported handler type: " ++ name)
  end.

Definition succeeded (now : jsstring) : Metadata :=
  {| model := Some (lit "llama-3.3-70b-versatile"); timestamp := Some now;
     error := None; errorMessage := None |}.

Definition failed (message : jsstring) : Metadata :=
  {| model := None; timestamp := None; error := Some true;
     errorMessage := Some message |}.

Definition callAIFunction (options : AIApiCallOptions) : M world StandardizedOutput :=
  tryCatch
    (let language := orElse (language (body options)) (lit "javascript") in
     result <- dispatch (handlerType options) (body options) language ;;
     now <- toISOString ;;
     ret {| content := result; isPlaceholder := false;
            metadata := Some (succeeded now) |})
    (fun message =>
       ret {| content := lit "Error: " ++ message ++ [LF; LF] ++ fallbackContent options;
              isPlaceholder := true;
              metadata := Some (failed message) |}).

Record Optimization := {
  optimizedCode : StandardizedOutput;
  analysisReport : StandardizedOutput
}.

(** The call for code optimization, which returns the code and an
    analysis report. *)
Definition callCodeOptimization (functionName : jsstring) (body : Body)
  (fallbackCode fallbackAnalysis : jsstring) : M world Optimization :=
  tryCatch
    (let language := orElse (language body) (lit "javascript") in
     optimizedCode <- GroqService.optimizeCode (orElse (sourceCode body) []) language ;;
     now <- toISOString ;;
     let result := {| content := optimizedCode; isPlaceholder := false;
                      metadata := Some (succeeded now) |} in
     ret {| optimizedCode := result;
            analysisReport :=
              {| content := lit "Code optimization analysis is included in the optimized code comments.";
                 isPlaceholder := false;
                 metadata := None |} |})
    (fun message =>
       ret {| optimizedCode :=
                {| content := fallbackCode; isPlaceholder := true;
                   metadata := Some (failed message) |};
              analysisReport :=
                {| content := fallbackAnalysis; isPlaceholder := true;
                   metadata := Some (failed message) |} |}).

End AIApiCaller.

(* ===================================================================== *)
(** ** utils/quickFixAITools.ts *)
(* ===================================================================== *)

Module QuickFix.

(** What the synchronous fallbacks read from outside their arguments: the
    date of the day as [toLocaleDateString] prints it, and the values
    [Math.random] returns, call after call. *)
Record environment := {
  toLocaleDateString : jsstring;
  random : nat -> Q
}.

Definition generateDebugRefactorFallback (sourceCode : jsstring)
  (analysisTypes : list jsstring) : jsstring :=
  lit "# Debug & Refactor Analysis

## Analysis Types: "
  ++ join (lit ", ") analysisTypes
  ++ lit "

---

"
  ++ (if existsb (eqs (lit "bugs")) analysisTypes
      then lit "
## "
           ++ [55357; 56347]%N
           ++ lit " Bug Detection

### Potential Issues Found:
- **Null/Undefined Checks**: Consider adding null checks for variables
- **Error Handling**: Missing try-catch blocks for error-prone operations
- **Type Safety**: Verify data types before operations
- **Edge Cases**: Handle boundary conditions and empty inputs

### Recommendations:
- Add input validation
- Implement proper error handling
- Use defensive programming techniques
- Add logging for debugging purposes

---
"
      else [])
  ++ lit "

"
  ++ (if existsb (eqs (lit "performance")) analysisTypes
      then lit "
## "
           ++ [9889]%N
           ++ lit " Performance Analysis

### Performance Issues:
- **Time Complexity**: Review algorithm efficiency
- **Memory Usage**: Check for memory leaks and unnecessary allocations
- **Loop Optimization**: Consider optimizing nested loops
- **Caching**: Implement caching for repeated calculations

### Optimization Suggestions:
- Use more efficient data structures
- Minimize DOM manipulations
- Implement lazy loading where applicable
- Consider memoization for expensive operations

---
"
      else [])
  ++ lit "

"
  ++ (if existsb (eqs (lit "refactor")) analysisTypes
      then lit "
## "
           ++ [55357; 56580]%N
           ++ lit " Refactoring Suggestions

### Code Structure:
- **Function Length**: Break down large functions into smaller ones
- **Code Duplication**: Extract common code into reusable functions
- **Naming Conventions**: Use descriptive variable and function names
- **Separation of Concerns**: Separate business logic from presentation

### Improvements:
- Extract constants for magic numbers
- Use design patterns where appropriate
- Improve code readability with better formatting
- Add meaningful comments for complex logic

---
"
      else [])
  ++ lit "

"
  ++ (if existsb (eqs (lit "best-practices")) analysisTypes
      then lit "
## "
           ++ [9989]%N
           ++ lit " Best Practices Review

### Code Quality:
- **Documentation**: Add JSDoc comments for functions
- **Testing**: Ensure adequate test coverage
- **Security**: Review for potential security vulnerabilities
- **Maintainability**: Structure code for easy maintenance

### Standards Compliance:
- Follow language-specific style guides
- Use consistent indentation and formatting
- Implement proper error handling patterns
- Follow SOLID principles where applicable

---
"
      else [])
  ++ lit "

## Summary
The code analysis is complete. Review the suggestions above to improve code quality, performance, and maintainability.

*Configure GEMINI_API_KEY in Supabase for AI-powered detailed analysis*".

Definition generateCodeOptimizerFallback (sourceCode optimizationType : jsstring)
  : jsstring :=
  lit "// Optimized Code - "
  ++ optimizationType
  ++ lit " optimization
// Original code analysis and optimization suggestions

"
  ++ sourceCode
  ++ lit "

// OPTIMIZATION SUGGESTIONS:
// 1. Performance improvements
// 2. Memory usage optimization  
// 3. Complexity reduction
// 4. Code readability enhancements

// Configure GEMINI_API_KEY in Supabase for AI-powered optimization".

(** The section of the report for one vulnerability type; [draw] is the
    value [Math.random] returned for it. *)
Definition section (vuln : jsstring) (draw : Q) : jsstring :=
  lit "
### "
  ++ (if eqs vuln (lit "sql-injection") then [55357; 56772; 65039]%N ++ lit " SQL Injection"
         else if eqs vuln (lit "xss") then [55357; 56385; 65039]%N ++ lit " Cross-Site Scripting (XSS)"
         else if eqs vuln (lit "csrf") then [55357; 57057; 65039]%N ++ lit " Cross-Site Request Forgery"
         else if eqs vuln (lit "auth") then [55357; 56594]%N ++ lit " Authentication Issues"
         else if eqs vuln (lit "input-validation") then [9888; 65039]%N ++ lit " Input Validation"
         else [55357; 56385; 65039]%N ++ lit " Sensitive Data Exposure")
  ++ lit "

**Status:** "
  ++ (if Number.ltb (Number.literal (7 # 10)) draw
         then [10060]%N ++ lit " Issues Found"
         else [9989]%N ++ lit " No Issues Detected")
  ++ lit "

"
  ++ (if eqs vuln (lit "sql-injection")
         then lit "
**Findings:**
- Potential SQL injection in database queries
- Unparameterized queries detected
- Missing input sanitization

**Recommendations:**
- Use parameterized queries or prepared statements
- Implement input validation and sanitization
- Use ORM frameworks with built-in protection
- Apply principle of least privilege for database access
"
         else [])
  ++ lit "

"
  ++ (if eqs vuln (lit "xss")
         then lit "
**Findings:**
- Unescaped user input in HTML output
- Missing Content Security Policy headers
- Potential DOM-based XSS vulnerabilities

**Recommendations:**
- Escape all user input before rendering
- Implement Content Security Policy (CSP)
- Use secure templating engines
- Validate and sanitize all input data
"
         else [])
  ++ lit "

---
".

(** The [map] over the vulnerability types: the callback draws one random
    number per type, in order. *)
Fixpoint sections (e : environment) (calls : nat) (vulnerabilityTypes : list jsstring)
  : list jsstring :=
  match vulnerabilityTypes with
  | [] => []
  | vuln :: rest => section vuln (random e calls) :: sections e (S calls) rest
  end.

Definition generateSecurityAuditFallback (e : environment)
  (vulnerabilityTypes : list jsstring) : jsstring :=
  lit "# "
  ++ [55357; 56594]%N
  ++ lit " Security Audit Report

## Executive Summary
Security audit completed for "
  ++ decimal (N.of_nat (length vulnerabilityTypes))
  ++ lit " vulnerability categories.

**Scan Date:** "
  ++ toLocaleDateString e
  ++ lit "
**Vulnerability Categories:** "
  ++ join (lit ", ") vulnerabilityTypes
  ++ lit "

---

## Vulnerability Assessment

"
  ++ concat (sections e 0 vulnerabilityTypes)
  ++ lit "

## Security Best Practices

1. **Input Validation**: Always validate and sanitize user input
2. **Authentication**: Implement strong authentication mechanisms
3. **Authorization**: Apply proper access controls
4. **Encryption**: Use HTTPS and encrypt sensitive data
5. **Error Handling**: Don't expose sensitive information in errors
6. **Logging**: Implement comprehensive security logging
7. **Updates**: Keep dependencies and frameworks updated
8. **Testing**: Regular security testing and code reviews

---

*Configure GEMINI_API_KEY in Supabase for AI-powered detailed security analysis*

**Disclaimer:** This is an automated security audit. Manual review by security experts is recommended for production systems.".

End QuickFix.

(* ===================================================================== *)
(** ** utils/errorHandler.ts: the handlers and the other validators *)
(* ===================================================================== *)

Module ErrorUtils.

Record AppError := {
  code : jsstring;
  message : jsstring;
  details : option jsstring;
  timestamp : jsstring
}.

(** What reaches [handle] as [error: unknown]: an [Error], an object with
    a [code] as Supabase returns them, or anything else. *)
Inductive Unknown :=
| AnError (message : jsstring)
| Coded (code message : jsstring) (details : option jsstring)
| Other.

(** [a || b] on a string that may be undefined, with a result that may be
    undefined. *)
Definition orUndefined (a b : option jsstring) : option jsstring :=
  match a with
  | Some (_ :: _) => a
  | _ => b
  end.

(** [ErrorHandler.handle].  (The lines it writes to the console are not
    kept.) *)
Definition handle (error : Unknown) (context : option jsstring) : M world AppError :=
  timestamp <- toISOString ;;
  match error with
  | AnError message =>
      ret {| code := lit "GENERIC_ERROR"; message := message;
             details := context; timestamp := timestamp |}
  | Coded code message details =>
      ret {| code := code; message := message;
             details := orUndefined details context; timestamp := timestamp |}
  | Other =>
      ret {| code := lit "UNKNOWN_ERROR";
             message := lit "An unexpected error occurred";
             details := context; timestamp := timestamp |}
  end.

Definition showToast (error : AppError) (title : option jsstring) : M world unit :=
  toast {| Effects.title := orElse title (lit "Error");
           description := message error;
           destructive := true |}.

Definition handleAndShow (error : Unknown) (context title : option jsstring)
  : M world AppError :=
  appError <- handle error context ;;
  showToast appError title ;;
  ret appError.

Definition handleApiError (error : Unknown) (operation : jsstring) : M world AppError :=
  handleAndShow error (Some (lit "API: " ++ operation)) (Some (lit "API Error")).

Definition handleAuthError (error : Unknown) (operation : jsstring) : M world AppError :=
  handleAndShow error (Some (lit "Auth: " ++ operation))
    (Some (lit "Authentication Error")).

Definition handleValidationError (message : jsstring) (field : option jsstring)
  : M world AppError :=
  timestamp <- toISOString ;;
  let error := {| code := lit "VALIDATION_ERROR"; message := message;
                  details := field; timestamp := timestamp |} in
  showToast error (Some (lit "Validation Error")) ;;
  ret error.


Definition validateEmail (email : jsstring) : M world bool :=
  let emailRegex := re "^[^\s@]+@[^\s@]+\.[^\s@]+$" "" in
  if negb (test emailRegex email) then
    handleValidationError (lit "Please enter a valid email address")
      (Some (lit "email")) ;;
    ret false
  else ret true.

Definition validateCodeInput (code language : jsstring) : M world bool :=
  ok <- ErrorHandler.validateRequired code (lit "Code") ;;
  if negb ok then ret false
  else if N.ltb 50000 (N.of_nat (length code)) then
    handleValidationError (lit "Code is too long (maximum 50,000 characters)")
      (Some (lit "code")) ;;
    ret false
  else ret true.

End ErrorUtils.

(* ===================================================================== *)
(** ** utils/codeAnalysis.ts: identifiers, validation, highlighting *)
(* ===================================================================== *)

Module CodeTools.

(** The names every object literal inherits from [Object.prototype]; a
    table written as an object literal answers to them too. *)
Definition inherited : list string :=
  [ "constructor"; "hasOwnProperty"; "isPrototypeOf"; "propertyIsEnumerable";
    "toLocaleString"; "toString"; "valueOf"; "__proto__";
    "__defineGetter__"; "__defineSetter__"; "__lookupGetter__";
    "__lookupSetter__" ]%string.

Definition isInherited (key : jsstring) : bool :=
  existsb (fun k => eqs (lit k) key) inherited.

(** [table[key]] for a table written as an object literal with string
    keys: the own property, else what is inherited, else [undefined]. *)
Inductive lookup (A : Type) :=
| Own (a : A)
| Native
| Undefined.
Arguments Own {A} a.
Arguments Native {A}.
Arguments Undefined {A}.

Definition get {A : Type} (table : list (string * A)) (key : jsstring) : lookup A :=
  match find (fun p => eqs (lit (fst p)) key) table with
  | Some (_, a) => Own a
  | None => if isInherited key then Native else Undefined
  end.

Definition languagePatterns : list (string * list RegExp) :=
  [ ("javascript",
     [ re "(?:function|const|let|var)\s+([a-zA-Z_$][a-zA-Z0-9_$]*)\s*[:=]" "";
       re "(?:export\s+)?(?:function|const|let|var)\s+([a-zA-Z_$][a-zA-Z0-9_$]*)\s*\(" "" ]);
    ("typescript",
     [ re "(?:function|const|let|var)\s+([a-zA-Z_$][a-zA-Z0-9_$]*)\s*[:=]" "";
       re "(?:export\s+)?(?:function|const|let|var)\s+([a-zA-Z_$][a-zA-Z0-9_$]*)\s*\(" "";
       re "interface\s+([A-Za-z_$][A-Za-z0-9_$]*)" "";
       re "type\s+([A-Za-z_$][A-Za-z0-9_$]*)\s*=" "" ]);
    ("python",
     [ re "def\s+([a-zA-Z_][a-zA-Z0-9_]*)\s*\(" "";
       re "class\s+([A-Za-z_][A-Za-z0-9_]*)" "" ]);
    ("java",
     [ re "(?:public\s+)?class\s+([A-Za-z_$][A-Za-z0-9_$]*)" "";
       re "(?:public\s+)?(?:interface|enum)\s+([A-Za-z_$][A-Za-z0-9_$]*)" "" ]);
    ("csharp",
     [ re "(?:public\s+)?class\s+([A-Za-z_$][A-Za-z0-9_$]*)" "";
       re "(?:public\s+)?interface\s+([A-Za-z_$][A-Za-z0-9_$]*)" "" ]);
    ("cpp",
     [ re "class\s+([A-Za-z_$][A-Za-z0-9_$]*)" "";
       re "struct\s+([A-Za-z_$][A-Za-z0-9_$]*)" "" ]);
    ("php",
     [ re "function\s+([a-zA-Z_$][a-zA-Z0-9_$]*)\s*\(" "";
       re "class\s+([A-Za-z_$][A-Za-z0-9_$]*)" "" ]);
    ("ruby",
     [ re "def\s+([a-zA-Z_][a-zA-Z0-9_?!]*)" "";
       re "class\s+([A-Za-z_][A-Za-z0-9_]*)" "" ]);
    ("go",
     [ re "func\s+([A-Za-z_][A-Za-z0-9_]*)\s*\(" "";
       re "type\s+([A-Za-z_][A-Za-z0-9_]*)\s+" "" ]);
    ("rust",
     [ re "fn\s+([a-zA-Z_][a-zA-Z0-9_]*)\s*\(" "";
       re "struct\s+([A-Za-z_][A-Za-z0-9_]*)" "" ]);
    ("kotlin",
     [ re "fun\s+([a-zA-Z_$][a-zA-Z0-9_$]*)\s*\(" "";
       re "class\s+([A-Za-z_$][A-Za-z0-9_$]*)" "" ]) ]%string.

Definition generalPatterns : list RegExp :=
  [ re "(?:function|const|let|var|def|class|interface|type|struct)\s+([a-zA-Z_$][a-zA-Z0-9_$]*)" "";
    re "([a-zA-Z_$][a-zA-Z0-9_$]*)\s*\([^)]*\)\s*{" "";
    re "([A-Za-z_$][A-Za-z0-9_$]*)" "" ].

(** [code.match(pattern)[1]] for a pattern without the [g] flag:
    [undefined] where there is no match or the group took no part. *)
Definition group1 (pattern : RegExp) (code : jsstring) : option jsstring :=
  match search pattern None code with
  | Some (_, _, y) => capture 1 y
  | None => None
  end.

(** The loop over the patterns: the first [match[1]] that is not empty. *)
Fixpoint firstGroup (patterns : list RegExp) (code : jsstring) : option jsstring :=
  match patterns with
  | [] => None
  | pattern :: more =>
      match group1 pattern code with
      | Some (c :: v) => Some (c :: v)
      | _ => firstGroup more code
      end
  end.

Definition notIterable : jsstring :=
  lit "TypeError: languagePatterns[language] is not iterable".

(** [extractIdentifier].  Under an inherited name [languagePatterns]
    answers with a function (or with the prototype), which the [for ... of]
    cannot iterate. *)
Definition extractIdentifier (code : jsstring) (language : option jsstring)
  : outcome jsstring :=
  let general :=
    match firstGroup generalPatterns code with
    | Some v => Returned v
    | None => Returned (lit "code")
    end in
  match language with
  | None | Some [] => general
  | Some language =>
      match get languagePatterns language with
      | Own patterns =>
          match firstGroup patterns code with
          | Some v => Returned v
          | None => general
          end
      | Native => Thrown notIterable
      | Undefined => general
      end
  end.

Record Validation := { valid : bool; issues : list jsstring }.

Definition dangerousPatterns : list RegExp :=
  [ re "<script[^>]*>.*?<\/script>" "gi";
    re "javascript:" "gi";
    re "on\w+\s*=" "gi" ].

(** [validateCodeInput].  The patterns are written with the [g] flag, but
    each is a fresh object tested once, from the start of the text. *)
Definition validateCodeInput (code : jsstring) : Validation :=
  let issues : list jsstring := [] in
  let issues :=
    match trim code with
    | [] => issues ++ [lit "Code cannot be empty"]
    | _ :: _ => issues
    end in
  let issues :=
    if N.ltb 100000 (N.of_nat (length code))
    then issues ++ [lit "Code is too long (max 100KB)"]
    else issues in
  let issues :=
    fold_left (fun issues pattern =>
      if test pattern code
      then issues ++ [lit "Code contains potentially unsafe content"]
      else issues) dangerousPatterns issues in
  {| valid := Nat.eqb (length issues) 0; issues := issues |}.

Definition mapping : list (string * string) :=
  [ ("javascript", "javascript"); ("typescript", "typescript");
    ("jsx", "javascript"); ("tsx", "typescript"); ("python", "python");
    ("java", "java"); ("csharp", "csharp"); ("cpp", "cpp"); ("c", "c");
    ("go", "go"); ("rust", "rust"); ("php", "php"); ("ruby", "ruby");
    ("kotlin", "kotlin"); ("swift", "swift"); ("dart", "dart");
    ("html", "html"); ("css", "css"); ("sql", "sql"); ("json", "json");
    ("xml", "xml"); ("yaml", "yaml"); ("markdown", "markdown") ]%string.

(** What [getSyntaxHighlightLanguage] returns: a string, or under an
    inherited name the function (or prototype) that [mapping] answers
    with there. *)
Inductive Highlight :=
| Language (name : jsstring)
| NativeValue (key : jsstring).

Definition getSyntaxHighlightLanguage (language : jsstring) : Highlight :=
  match get mapping language with
  | Own name => Language (lit name)
  | Native => NativeValue language
  | Undefined => Language (lit "text")
  end.

End CodeTools.

(* ===================================================================== *)
(** ** The test generator page: the handlers *)
(* ===================================================================== *)

Module TestPage.

Import TestGenerator.

(** [getFramework]: the entry of the lower-cased language, else the
    "Unknown" entry.  Under a name that [frameworkMap] inherits the value
    is a function or the prototype, which has neither [framework] nor
    [testFile]: no framework. *)
Definition unknownFramework : Framework :=
  {| framework := lit "Unknown"; ext := lit "txt";
     testFile := fun _ => lit "test.txt" |}.

Definition getFramework (lang : jsstring) : option Framework :=
  match CodeTools.get frameworkMap (toLowerCase lang) with
  | CodeTools.Own f => Some f
  | CodeTools.Native => None
  | CodeTools.Undefined => Some unknownFramework
  end.

(** The state of the component that the handlers write. *)
Record Page := {
  sourceCode : jsstring;
  generatedTests : jsstring;
  isGenerating : bool;
  activeTab : jsstring;
  detectedLang : jsstring;
  identifier : jsstring
}.

Record state := { outside : world; page : Page }.

Definition lift {A} (m : M world A) : M state A :=
  fun s =>
    let '(r, w) := m (outside s) in
    (r, {| outside := w; page := page s |}).

Definition setPage (f : Page -> Page) : M state unit :=
  modify (fun s => {| outside := outside s; page := f (page s) |}).

Definition setSourceCode (v : jsstring) : M state unit :=
  setPage (fun p => {| sourceCode := v; generatedTests := generatedTests p;
                       isGenerating := isGenerating p; activeTab := activeTab p;
                       detectedLang := detectedLang p; identifier := identifier p |}).

Definition setGeneratedTests (v : jsstring) : M state unit :=
  setPage (fun p => {| sourceCode := sourceCode p; generatedTests := v;
                       isGenerating := isGenerating p; activeTab := activeTab p;
                       detectedLang := detectedLang p; identifier := identifier p |}).

Definition setIsGenerating (v : bool) : M state unit :=
  setPage (fun p => {| sourceCode := sourceCode p; generatedTests := generatedTests p;
                       isGenerating := v; activeTab := activeTab p;
                       detectedLang := detectedLang p; identifier := identifier p |}).

Definition setActiveTab (v : jsstring) : M state unit :=
  setPage (fun p => {| sourceCode := sourceCode p; generatedTests := generatedTests p;
                       isGenerating := isGenerating p; activeTab := v;
                       detectedLang := detectedLang p; identifier := identifier p |}).

Definition setDetectedLang (v : jsstring) : M state unit :=
  setPage (fun p => {| sourceCode := sourceCode p; generatedTests := generatedTests p;
                       isGenerating := isGenerating p; activeTab := activeTab p;
                       detectedLang := v; identifier := identifier p |}).

Definition setIdentifier (v : jsstring) : M state unit :=
  setPage (fun p => {| sourceCode := sourceCode p; generatedTests := generatedTests p;
                       isGenerating := isGenerating p; activeTab := activeTab p;
                       detectedLang := detectedLang p; identifier := v |}).

(** The messages of the two TypeErrors the handler can run into; the
    wording is the engine's. *)
Definition notAFunction : jsstring := lit "testFile is not a function".
Definition undefinedLabel : jsstring :=
  lit "Cannot read properties of undefined (reading 'label')".

(** The bullet of the closing toast, U+2022, between two spaces. *)
Definition bullet : jsstring := [32; 8226; 32]%N.

Definition buildPrompt (quality : TestQuality) (lang framework sourceCode : jsstring)
  : jsstring :=
  lit "You are a senior test engineer.

Generate **" ++ label quality ++ lit "** tests for the following **" ++ lang
  ++ lit "** code using **" ++ framework ++ lit "**.

Focus on:
" ++ join [LF] (List.map (fun f => lit "- " ++ f) (features quality)) ++ lit "

Code:
```" ++ lang ++ lit "
" ++ sourceCode ++ lit "
```

Rules:
- Output ONLY test code
- No markdown, no ``` wrappers
- Include proper imports
- Use descriptive test names
- Cover edge cases, errors, and integration
- Use mocks if needed
- Real assertions only

Generate now.".

Definition systemContent (lang framework : jsstring) : jsstring :=
  lit "You are a test generation expert for " ++ lang ++ lit ". Use "
  ++ framework ++ lit ".".

(** The generate handler.  [sourceCode], [testQuality], [user] and
    [identifier] are the values the callback closes over; what the
    handler sets reaches them only with the next rendering. *)
Definition handleGenerate (sourceCode testQuality : jsstring)
  (user : option jsstring) (identifier : jsstring) : M state unit :=
  valid <- lift (ErrorHandler.validateRequired sourceCode (lit "Source Code")) ;;
  if negb valid then ret tt
  else
    setIsGenerating true ;;
    setGeneratedTests [] ;;
    setDetectedLang (lit "detecting...") ;;
    setIdentifier (lit "unknown") ;;
    tryFinally
      (tryCatch
         (detectionResult <-
            lift (CodeAnalysis.detectLanguage sourceCode CodeAnalysis.defaultConfig) ;;
          let lang := CodeAnalysis.language detectionResult in
          setDetectedLang lang ;;
          match getFramework lang with
          | None => throw notAFunction
          | Some entry =>
              match find (fun q => eqs (value q) testQuality) testQualities with
              | None => throw undefinedLabel
              | Some quality =>
                  let prompt := buildPrompt quality lang (framework entry) sourceCode in
                  result <-
                    tryCatch
                      (result <-
                         lift (AIService.chatCompletion
                                 [GroqService.system
                                    (systemContent lang (framework entry));
                                  GroqService.user prompt]
                                 (Some (3 # 10)) None) ;;
                       ret (stripFences result))
                      (fun _ =>
                         ret (generateFallbackTests identifier lang
                                (framework entry) quality)) ;;
                  setGeneratedTests result ;;
                  setActiveTab (lit "result") ;;
                  match user with
                  | Some id =>
                      tryCatch
                        (created <- lift toISOString ;;
                         lift (insert {| user_id := id;
                                         language := lit "test-" ++ lang;
                                         code := sourceCode;
                                         output := result;
                                         created_at := created |}))
                        (fun _ => ret tt)
                  | None => ret tt
                  end ;;
                  lift (toast {| title := lit "Tests Generated";
                                 description := label quality ++ bullet
                                                ++ framework entry ++ bullet ++ lang;
                                 destructive := false |})
              end
          end)
         (fun message =>
            lift (toast {| title := lit "Error";
                           description := orElse (Some message)
                                            (lit "Failed to generate tests.");
                           destructive := true |})))
      (setIsGenerating false).

(** [handleClear] and [handlePasteExample]. *)
Definition handleClear : M state unit :=
  setSourceCode [] ;;
  setGeneratedTests [] ;;
  setDetectedLang (lit "detecting...") ;;
  setIdentifier (lit "unknown") ;;
  setActiveTab (lit "generate") ;;
  lift (toast {| title := lit "Cleared"; description := lit "All fields reset.";
                 destructive := false |}).

End TestPage.

(* ===================================================================== *)
(** ** The performance monitor *)
(* ===================================================================== *)

Module PerformanceMonitor.

(** A [Map] with string keys: the entries in the order of their first
    insertion, no key twice. *)
Definition Map (V : Type) : Type := list (jsstring * V).

Definition mapGet {V} (m : Map V) (k : jsstring) : option V :=
  option_map snd (find (fun e => eqs (fst e) k) m).

Fixpoint mapSet {V} (m : Map V) (k : jsstring) (v : V) : Map V :=
  match m with
  | [] => [(k, v)]
  | e :: r => if eqs (fst e) k then (k, v) :: r else e :: mapSet r k v
  end.

Definition mapDelete {V} (m : Map V) (k : jsstring) : Map V :=
  filter (fun e => negb (eqs (fst e) k)) m.

(** The two static maps, and [performance.now()]: the reading number
    [ticks] of the clock. *)
Record monitor := {
  timers : Map Q;
  metrics : Map (list Q);
  clock : nat -> Q;
  ticks : nat
}.

Definition performanceNow : M monitor Q :=
  fun s => (Returned (clock s (ticks s)),
            {| timers := timers s; metrics := metrics s; clock := clock s;
               ticks := S (ticks s) |}).

(** The difference of two numbers, rounded to the nearest one. *)
Definition minus (a b : Q) : Q :=
  if Qle_bool b a then Number.round53 (a - b)
  else Qopp (Number.round53 (b - a)).

Definition startTimer (operation : jsstring) : M monitor unit :=
  t <- performanceNow ;;
  modify (fun s => {| timers := mapSet (timers s) operation t;
                      metrics := metrics s; clock := clock s; ticks := ticks s |}).

(** [endTimer]: a start time that is missing, or zero, counts as no
    timer. *)
Definition endTimer (operation : jsstring) : M monitor Q :=
  s <- get ;;
  match mapGet (timers s) operation with
  | None => ret 0
  | Some startTime =>
      if Qeq_bool startTime 0 then ret 0
      else
        t <- performanceNow ;;
        let duration := minus t startTime in
        modify (fun s =>
          let existing := match mapGet (metrics s) operation with
                          | Some l => l
                          | None => []
                          end in
          {| timers := mapDelete (timers s) operation;
             metrics := mapSet (metrics s) operation (existing ++ [duration]);
             clock := clock s; ticks := ticks s |}) ;;
        ret duration
  end.

Definition clearMetrics : M monitor unit :=
  modify (fun s => {| timers := []; metrics := []; clock := clock s;
                      ticks := ticks s |}).

(** [measure] and [measureSync]: the timer is ended whether [fn] returns
    or throws. *)
Definition measure {A} (operation : jsstring) (fn : M monitor A) : M monitor A :=
  startTimer operation ;;
  tryFinally fn (_ <- endTimer operation ;; ret tt).

Definition measureSync {A} (operation : jsstring) (fn : M monitor A) : M monitor A :=
  startTimer operation ;;
  tryFinally fn (_ <- endTimer operation ;; ret tt).

End PerformanceMonitor.

(* ===================================================================== *)
(** * The vocabulary of the properties *)
(* ===================================================================== *)

(** A world at rest: nothing pending on the network, nothing logged. *)
Definition idle : world :=
  {| VITE_SUPABASE_URL := lit "https://project.supabase.co";
     now := lit "2024-01-01T00:00:00.000Z";
     network := []; fetches := []; toasts := []; rows := [] |}.

(** A world whose network answers the next fetch with [a]. *)
Definition answering (w : world) (a : answer) : world :=
  {| VITE_SUPABASE_URL := VITE_SUPABASE_URL w; now := now w;
     network := a :: network w; fetches := fetches w;
     toasts := toasts w; rows := rows w |}.

(** The proxy answers 200 with the text [s] in the field [response]. *)
Definition replies (s : jsstring) : answer :=
  Responded {| ok := true; status := 200; text := [];
               body := JsonObject [(lit "response", s)] |}.

(** The proxy answers 200 with an object that has none of the fields the
    client reads (such as the provider's own [{"choices": ...}]). *)
Definition repliesNothing : answer :=
  Responded {| ok := true; status := 200; text := lit "{}";
               body := JsonObject [] |}.

(** The proxy answers with an error status. *)
Definition refuses (code : N) (s : jsstring) : answer :=
  Responded {| ok := false; status := code; text := s; body := NotJson |}.

(** Two days on which [Math.random] is constant: below the threshold 0.7
    and above it. *)
Definition quietDay : QuickFix.environment :=
  {| QuickFix.toLocaleDateString := lit "1/1/2024";
     QuickFix.random := fun _ => 1 # 10 |}.

Definition noisyDay : QuickFix.environment :=
  {| QuickFix.toLocaleDateString := lit "1/1/2024";
     QuickFix.random := fun _ => 9 # 10 |}.

(** [Math.random() > 0.7] for the [i]-th call. *)
Definition issuesFound (e : QuickFix.environment) (i : nat) : bool :=
  Number.ltb (Number.literal (7 # 10)) (QuickFix.random e i).

(** The language the AI service proposes for [code] in the world [w], if
    it proposes one: a non-empty answer other than "unknown". *)
Definition aiLanguage (code : jsstring) (w : world) : option jsstring :=
  match fst (AIService.detectLanguage code w) with
  | Returned (c :: l) => if eqs (c :: l) (lit "unknown") then None else Some (c :: l)
  | _ => None
  end.

(** No pattern of the rule table matches [code]. *)
Definition noPatternMatches (code : jsstring) : bool :=
  forallb (fun r => Nat.eqb (matchLength (CodeAnalysis.pattern r) code) 0)
    CodeAnalysis.patterns.

Definition usesAI (config : CodeAnalysis.CodeAnalysisConfig) : bool :=
  GroqService.withDefault (CodeAnalysis.useAI config) true.







(** [t] is what is left of [s] after some prefix. *)
Definition suffixOf (t s : jsstring) : Prop := exists pre, s = pre ++ t.

(** A replacement template without [$n] references, all of whose code
    units satisfy [P]. *)
Definition literally (P : char -> Prop) (tpl : list ritem) : Prop :=
  Forall (fun it => match it with RLit l => Forall P l | RCap _ => False end) tpl.

Definition hasBacktick (s : jsstring) : bool := existsb (N.eqb BACKTICK) s.

(** [s] ends with a newline, and with one only. *)
Definition endsWithOneNewline (s : jsstring) : bool :=
  match rev s with
  | a :: before =>
      (N.eqb a LF && match before with b :: _ => negb (N.eqb b LF) | [] => true end)%bool
  | [] => false
  end.



(** The pattern of a literal text. *)
Fixpoint chars (l : jsstring) : regex :=
  match l with
  | [] => REmpty
  | [a] => RChar a
  | a :: t => RSeq (RChar a) (chars t)
  end.

(** The toast of the local markup check. *)
Definition invalidInput : Toast :=
  {| title := lit "Invalid Input";
     description := lit "Please paste real code (JS, Python, etc.), not React/HTML components.";
     destructive := true |}.

Definition toasting (t : Toast) (w : world) : world :=
  {| VITE_SUPABASE_URL := VITE_SUPABASE_URL w; now := now w;
     network := network w; fetches := fetches w;
     toasts := toasts w ++ [t]; rows := rows w |}.

(** The level the explain handler works with. *)
Definition levelOf (explanationLevel : jsstring) : CodeExplanation.Level :=
  match find (fun l => eqs (CodeExplanation.value l) explanationLevel)
          CodeExplanation.explanationLevels with
  | Some l => l
  | None => CodeExplanation.beginner
  end.

(** The chat completion the explain handler asks for. *)
Definition explainCall (sourceCode explanationLevel : jsstring) : M world jsstring :=
  AIService.chatCompletion
    [GroqService.system (CodeExplanation.systemContent (levelOf explanationLevel));
     GroqService.user (CodeExplanation.buildPrompt (levelOf explanationLevel) sourceCode)]
    None None.

(** The toast that ends a run of the explain handler that shows a result. *)
Definition explanationReady (explanationLevel : jsstring) : Toast :=
  {| title := lit "Done!";
     description := CodeExplanation.label (levelOf explanationLevel)
                    ++ lit " explanation ready.";
     destructive := false |}.

(** The toast for an answer that holds the sentinel. *)
Definition invalidCode : Toast :=
  {| title := lit "Invalid Code";
     description := lit "This looks like React/JSX. Please paste real code to explain.";
     destructive := true |}.

(** The row the explain handler writes for a signed-in user. *)
Definition explainRow (id sourceCode result : jsstring) (detectedLang : option jsstring)
  (created : jsstring) : Row :=
  {| user_id := id;
     language := lit "explain-" ++ orElse detectedLang (lit "unknown");
     code := sourceCode; output := result; created_at := created |}.

(** The comments the keyword table can give. *)
Definition tableComments : list jsstring :=
  List.map (fun p => lit (snd p)) CodeExplanation.map.

(** A page at rest. *)
Definition blankPage : CodeExplanation.Page :=
  {| CodeExplanation.explanation := []; CodeExplanation.activeTab := lit "explain";
     CodeExplanation.isExplaining := false |}.

(** *** The vocabulary of the normalization proofs *)

(** A greedy star over one character class, written as a recursion on
    the input: the longest run is tried first, then the shorter ones. *)
Fixpoint gstar (P : char -> bool) (k : continuation) (pv : option char)
  (cp : list (nat * (jsstring * jsstring))) (s : jsstring) : option mstate :=
  match s with
  | b :: t =>
      if P b then
        match gstar P k (Some b) cp t with
        | Some z => Some z
        | None => k {| prev := pv; rest := s; caps := cp |}
        end
      else k {| prev := pv; rest := s; caps := cp |}
  | [] => k {| prev := pv; rest := s; caps := cp |}
  end.

(** The code unit before the position that lies [pre] behind one whose
    predecessor is [pv]. *)
Definition lastOf (pre : jsstring) (pv : option char) : option char :=
  match rev pre with
  | c :: _ => Some c
  | [] => pv
  end.

(** A global replace by a fixed text [rep], for a pattern whose match at
    a position is known: [m s] is what is left of [s] behind the match. *)
Fixpoint scan (fuel : nat) (m : jsstring -> option jsstring) (rep s : jsstring)
  : jsstring :=
  match fuel with
  | O => s
  | S fuel' =>
      match m s with
      | Some r =>
          if Nat.eqb (length r) (length s)
          then match s with
               | [] => rep
               | c :: t => rep ++ c :: scan fuel' m rep t
               end
          else rep ++ scan fuel' m rep r
      | None =>
          match s with
          | [] => []
          | c :: t => c :: scan fuel' m rep t
          end
      end
  end.

(** The text of a replacement template that has no [$n] in it. *)
Definition literalOf (tpl : list ritem) : jsstring :=
  flat_map (fun it => match it with RLit l => l | RCap _ => [] end) tpl.

Definition noRefs (tpl : list ritem) : bool :=
  forallb (fun it => match it with RLit _ => true | RCap _ => false end) tpl.

(** The two patterns that strip the fences, the one for the line breaks
    and the one for the blank lines. *)
Definition fenceRe : RegExp := re "```[\w]*\n?" "g".
Definition ticksRe : RegExp := re "```" "g".
Definition breaksRe : RegExp := re "[\r\n]+" "g".
Definition blankRe : RegExp := re "(\n\s*){3,}" "g".

Definition dropLF (s : jsstring) : jsstring :=
  match s with
  | c :: t => if N.eqb 10 c then t else s
  | [] => []
  end.

(** What is left behind a match of [fenceRe] at the start of [s]: the
    three backticks, the word characters and one newline are gone. *)
Definition fenceAt (s : jsstring) : option jsstring :=
  if startsWith (lit "```") s
  then Some (dropLF (dropWhile isWord (skipn 3 s)))
  else None.

Definition ticksAt (s : jsstring) : option jsstring :=
  if startsWith (lit "```") s then Some (skipn 3 s) else None.

(** [s] contains a fence marker. *)
Definition fenced (s : jsstring) : bool := includes (lit "```") s.

(** A line break, as [[\r\n]] sees it. *)
Definition isBreak (c : char) : bool := (N.eqb 13 c || N.eqb 10 c)%bool.

(** What is left behind a match of [breaksRe] at the start of [s]. *)
Definition breaksAt (s : jsstring) : option jsstring :=
  match s with
  | c :: t => if isBreak c then Some (dropWhile isBreak t) else None
  | [] => None
  end.

(** Every line break of [s] is one newline on its own. *)
Fixpoint singleBreaks (s : jsstring) : bool :=
  match s with
  | [] => true
  | c :: t =>
      ((if isBreak c
        then N.eqb 10 c && negb (match t with d :: _ => isBreak d | [] => false end)
        else true) && singleBreaks t)%bool
  end.

(** [s] has a blank line: two newlines in a row. *)
Definition hasBlankLine (s : jsstring) : bool := includes [LF; LF] s.

Definition noCR (s : jsstring) : Prop := Forall (fun c => c <> CR) s.

Fixpoint countLF (s : jsstring) : nat :=
  match s with
  | [] => 0
  | c :: t => if N.eqb 10 c then S (countLF t) else countLF t
  end.

Definition startsLF (s : jsstring) : bool :=
  match s with
  | c :: _ => N.eqb 10 c
  | [] => false
  end.

(** What is left behind a match of [blankRe] at the start of [s]: a
    newline starts a run of white space that holds three newlines or
    more, and the whole run is taken. *)
Definition blankAt (s : jsstring) : option jsstring :=
  if (startsLF s && Nat.leb 3 (countLF (takeWhile isSpace s)))%bool
  then Some (dropWhile isSpace s)
  else None.

(** [blankRe] matches nowhere in [s]. *)
Definition blankFree (s : jsstring) : Prop :=
  forall t, suffixOf t s -> blankAt t = None.

(** The group that [blankRe] repeats: a newline and the white space
    behind it. *)
Definition blankBody : regex :=
  RGroup 1 (RSeq (RChar 10%N) (RQuant 0 None true (RClass false [CSpace]))).

(** What is left behind [min] or more repetitions of [blankBody] at the
    start of [s]. *)
Definition blankSpec (min : nat) (s : jsstring) : option jsstring :=
  match min with
  | O => Some (if startsLF s then dropWhile isSpace s else s)
  | S _ =>
      if (startsLF s && Nat.leb min (countLF (takeWhile isSpace s)))%bool
      then Some (dropWhile isSpace s)
      else None
  end.

(** White space other than the newline. *)
Definition isBlank (c : char) : bool := (isSpace c && negb (N.eqb 10 c))%bool.

(** A matcher only moves forward: whatever it hands to its continuation
    is a suffix of what it was given. *)
Definition forward (m : continuation -> mstate -> option mstate) : Prop :=
  forall c x z, m c x = Some z ->
    exists y, c y = Some z /\ suffixOf (rest y) (rest x).

(** The pattern of the markup check. *)
Definition markupRe : RegExp := re "<Card|className|ref=|React\.|tsx|jsx|<\w+" "".

(** A code unit other than the backtick. *)
Definition free (c : char) : Prop := c <> BACKTICK.

(* ===================================================================== *)
(** * What a pattern matches *)
(* ===================================================================== *)

(** The matcher of [RegExp] searches; what it searches for is said here
    without a search.  [reps R inner min max x z]: between [min] and
    [max] repetitions of [R] lead from [x] to [z]; each repetition starts
    with the captures of the quantified groups cleared, and a repetition
    that is not required and consumes nothing does not count. *)
Inductive reps (R : mstate -> mstate -> Prop) (inner : list nat)
  : nat -> option nat -> mstate -> mstate -> Prop :=
| reps_stop (min : nat) (max : option nat) (x : mstate) :
    min = 0%nat \/ max = Some 0%nat -> reps R inner min max x x
| reps_step (min : nat) (max : option nat) (x y z : mstate) :
    max <> Some 0%nat ->
    R (clearCaps inner x) y ->
    (min = 0%nat -> length (rest y) <> length (rest x)) ->
    reps R inner (Nat.pred min) (option_map Nat.pred max) y z ->
    reps R inner min max x z.

(** [derives fl r x z]: the pattern [r] matches from the state [x] to the
    state [z]. *)
Fixpoint derives (fl : flags) (r : regex) (x z : mstate) : Prop :=
  match r with
  | REmpty => z = x
  | RChar a =>
      exists b t, rest x = b :: t /\ N.eqb (canon fl a) (canon fl b) = true
                  /\ z = advance x b t
  | RDot =>
      exists b t, rest x = b :: t /\ isLineTerminator b = false
                  /\ z = advance x b t
  | RClass invert items =>
      exists b t, rest x = b :: t /\ classMatches fl invert items b = true
                  /\ z = advance x b t
  | RBol =>
      z = x /\ match prev x with
               | None => True
               | Some p => (multiline fl && isLineTerminator p)%bool = true
               end
  | REol =>
      z = x /\ match rest x with
               | [] => True
               | b :: _ => (multiline fl && isLineTerminator b)%bool = true
               end
  | RWordB =>
      z = x /\ xorb (isWordOpt (prev x)) (isWordOpt (hd_error (rest x))) = true
  | RSeq a b => exists y, derives fl a x y /\ derives fl b y z
  | RAlt a b => derives fl a x z \/ derives fl b x z
  | RQuant min max _ a => reps (derives fl a) (groups a) min max x z
  | RGroup i a => exists y, derives fl a x y /\ z = setCap i (rest x) (rest y) y
  end.

(** A matcher finds only what [R] allows, and finds something whenever
    [R] allows something that the continuation accepts. *)
Definition sound (R : mstate -> mstate -> Prop)
  (m : continuation -> mstate -> option mstate) : Prop :=
  forall c x z, m c x = Some z -> exists y, R x y /\ c y = Some z.

Definition complete (R : mstate -> mstate -> Prop)
  (m : continuation -> mstate -> option mstate) : Prop :=
  forall c x y, R x y -> c y <> None -> m c x <> None.

(** The state in which a match is tried behind [pre]. *)
Definition startAt (pre s : jsstring) : mstate :=
  {| prev := lastOf pre None; rest := s; caps := [] |}.

(** The pattern matches somewhere in [s]. *)
Definition matchesIn (re : RegExp) (s : jsstring) : Prop :=
  exists pre suf y, s = pre ++ suf
    /\ derives (flag re) (pattern re) (startAt pre suf) y.

(** One code unit that satisfies [Q] is consumed. *)
Definition step (Q : char -> Prop) (x y : mstate) : Prop :=
  exists b t, rest x = b :: t /\ Q b /\ y = advance x b t.

(** The state after [run] has been consumed from [x], with [t] left. *)
Definition after (x : mstate) (run t : jsstring) : mstate :=
  {| prev := lastOf run (prev x); rest := t; caps := caps x |}.

(** [n] is within the upper bound of a quantifier. *)
Definition within (max : option nat) (n : nat) : Prop :=
  match max with
  | Some k => (n <= k)%nat
  | None => True
  end.

(** The shape [validateEmail] asks for: a local part, an at sign, a
    domain, a dot and a last part, none of them empty, and no white space
    and no other at sign anywhere. *)
Definition plain (c : char) : Prop := isSpace c = false /\ c <> 64%N.

Definition wellFormedEmail (email : jsstring) : Prop :=
  exists loc domain tld,
    email = loc ++ [64%N] ++ domain ++ [46%N] ++ tld
    /\ loc <> [] /\ domain <> [] /\ tld <> []
    /\ Forall plain loc /\ Forall plain domain /\ Forall plain tld.

(** The world after the toast of a failed validation. *)
Definition refused (message : jsstring) (w : world) : world :=
  toasting {| title := lit "Validation Error"; description := message;
              destructive := true |} w.

(** The pattern of [validateEmail]. *)
Definition emailRe : RegExp := re "^[^\s@]+@[^\s@]+\.[^\s@]+$" "".

(** Every capture of the group [i] in the state [x] satisfies [P], which
    speaks of the input left at the start and at the end of the capture. *)
Definition capsAll (P : jsstring -> jsstring -> Prop) (i : nat) (x : mstate) : Prop :=
  Forall (fun p => fst p = i -> P (fst (snd p)) (snd (snd p))) (caps x).

(** Every group [i] of the pattern [r] has a body that satisfies [F]. *)
Fixpoint bodies (F : regex -> Prop) (i : nat) (r : regex) : Prop :=
  match r with
  | RSeq a b | RAlt a b => bodies F i a /\ bodies F i b
  | RQuant _ _ _ a => bodies F i a
  | RGroup j a => (j = i -> F a) /\ bodies F i a
  | _ => True
  end.

(** [v] occurs in [s]. *)
Definition occursIn (v s : jsstring) : Prop := exists pre post, s = pre ++ v ++ post.

(** The code units an identifier starts with and goes on with, as the
    patterns of [extractIdentifier] have them: letters, the underscore and
    the dollar sign, then also digits (and for Ruby the question and the
    exclamation mark). *)
Definition idStart (c : char) : bool :=
  (isLower c || isUpper c || N.eqb c 95 || N.eqb c 36)%bool.

Definition idPart (c : char) : bool := (idStart c || isDigit c)%bool.

Definition rubyPart (c : char) : bool := (idPart c || N.eqb c 63 || N.eqb c 33)%bool.

Definition partFor (language : option jsstring) : char -> bool :=
  match language with
  | Some l => if eqs l (lit "ruby") then rubyPart else idPart
  | None => idPart
  end.

(** A class followed by a starred class: the body of the one group of
    each pattern of [extractIdentifier]. *)
Definition identBody (fl : flags) (part : char -> bool) (a : regex) : Prop :=
  exists A B,
    a = RSeq (RClass false A) (RQuant 0 None true (RClass false B))
    /\ (forall c, classMatches fl false A c = true -> idStart c = true)
    /\ (forall c, classMatches fl false B c = true -> part c = true).

(** What such a group captures in [code]: the input at its start begins
    with an identifier, and the input at its end is what follows it. *)
Definition identAt (part : char -> bool) (code s e : jsstring) : Prop :=
  exists c run, s = c :: run ++ e /\ idStart c = true
    /\ forallb part run = true /\ suffixOf s code.

Definition plainFlags : flags :=
  {| global := false; ignoreCase := false; multiline := false |}.

(** [v] reads as an identifier. *)
Definition identLike (part : char -> bool) (v : jsstring) : Prop :=
  exists c run, v = c :: run /\ idStart c = true /\ forallb part run = true.

(** The patterns of [extractIdentifier] carry no flag, and their one
    group is an identifier. *)
Definition identPattern (part : char -> bool) (p : RegExp) : Prop :=
  flag p = plainFlags /\ bodies (identBody plainFlags part) 1 (pattern p).

(** The pattern of a literal text [l] followed by [r]. *)
Definition lits (l : jsstring) (r : regex) : regex :=
  fold_right (fun a r => RSeq (RChar a) r) r l.

(** [u] reads as the text [l] when the case of the letters a..z is
    ignored. *)
Definition reads (l : string) (u : jsstring) : Prop :=
  List.map upperAscii u = List.map upperAscii (lit l).

(** The three shapes [validateCodeInput] of codeAnalysis looks for: a
    script element on one line, the scheme [javascript:], and an
    assignment to a name that begins with "on". *)
Definition hasScriptTag (code : jsstring) : Prop :=
  exists pre opening attrs body closing post,
    code = pre ++ opening ++ attrs ++ [62%N] ++ body ++ closing ++ post
    /\ reads "<script" opening
    /\ Forall (fun c => c <> 62%N) attrs
    /\ Forall (fun c => isLineTerminator c = false) body
    /\ reads "</script>" closing.

Definition hasJsUrl (code : jsstring) : Prop :=
  exists pre u post, code = pre ++ u ++ post /\ reads "javascript:" u.

Definition hasHandler (code : jsstring) : Prop :=
  exists pre o w sp post,
    code = pre ++ o ++ w ++ sp ++ [61%N] ++ post
    /\ reads "on" o /\ w <> []
    /\ Forall (fun c => isWord c = true) w
    /\ Forall (fun c => isSpace c = true) sp.

Definition scriptRe : RegExp := re "<script[^>]*>.*?<\/script>" "gi".
Definition jsUrlRe : RegExp := re "javascript:" "gi".
Definition handlerRe : RegExp := re "on\w+\s*=" "gi".

(** The flags [gi]. *)
Definition iFlags : flags :=
  {| global := true; ignoreCase := true; multiline := false |}.

(** The newline, as a test. *)
Definition isLF (c : char) : bool := N.eqb 10 c.

(** What is left behind a run of [k] or more code units that satisfy
    [P], at the start of [s]: the whole run is taken. *)
Definition runAt (P : char -> bool) (k : nat) (s : jsstring) : option jsstring :=
  if Nat.leb k (length (takeWhile P s)) then Some (dropWhile P s) else None.

(** No run of [k] code units that satisfy [P] stands in [s]. *)
Definition noRun (P : char -> bool) (k : nat) (s : jsstring) : Prop :=
  forall t, suffixOf t s -> (length (takeWhile P t) < k)%nat.

(** The pattern that collapses blank lines in [cleanCodeResponse]. *)
Definition newlinesRe : RegExp := re "\n{3,}" "g".

(** [s] without one slash at its end. *)
Definition withoutSlash (s : jsstring) : jsstring :=
  match rev s with
  | c :: r => if N.eqb 47 c then rev r else s
  | [] => s
  end.

(** The text the completion client reads out of the next answer of the
    network, where it reads one: the answer is ok and its body is an
    object. *)
Definition answerText (w : world) : option jsstring :=
  match network w with
  | Responded r :: _ =>
      if ok r then
        match body r with
        | JsonObject data =>
            Some (nullish (property "response" data)
                    (nullish (property "generatedCode" data)
                       (nullish (property "content" data) [])))
        | _ => None
        end
      else None
  | _ => None
  end.

Definition generateCodeFailed : jsstring :=
  lit "Failed to generate code. Please try again with a more specific prompt.".

(** The detection the test generator page asks for, and the completion it
    asks for afterwards. *)
Definition detection (sourceCode : jsstring)
  : M world CodeAnalysis.LanguageDetectionResult :=
  CodeAnalysis.detectLanguage sourceCode CodeAnalysis.defaultConfig.

Definition testCall (quality : TestGenerator.TestQuality)
  (lang framework sourceCode : jsstring) : M world jsstring :=
  AIService.chatCompletion
    [GroqService.system (TestPage.systemContent lang framework);
     GroqService.user (TestPage.buildPrompt quality lang framework sourceCode)]
    (Some (3 # 10)) None.

(** The toast that ends a run of the generate handler that shows tests. *)
Definition testsReady (quality : TestGenerator.TestQuality)
  (framework lang : jsstring) : Toast :=
  {| title := lit "Tests Generated";
     description := TestGenerator.label quality ++ TestPage.bullet
                    ++ framework ++ TestPage.bullet ++ lang;
     destructive := false |}.

(** The world with one more row in the history. *)
Definition inserting (r : Row) (w : world) : world :=
  {| VITE_SUPABASE_URL := VITE_SUPABASE_URL w; now := now w;
     network := network w; fetches := fetches w;
     toasts := toasts w; rows := rows w ++ [r] |}.

(** The row the generate handler saves. *)
Definition testRow (id sourceCode result lang created : jsstring) : Row :=
  {| user_id := id; language := lit "test-" ++ lang; code := sourceCode;
     output := result; created_at := created |}.

(** A page of the test generator before anything was typed. *)
Definition emptyTestPage : TestPage.Page :=
  {| TestPage.sourceCode := []; TestPage.generatedTests := [];
     TestPage.isGenerating := false; TestPage.activeTab := lit "generate";
     TestPage.detectedLang := lit "detecting...";
     TestPage.identifier := lit "unknown" |}.

(** The second toast of the explain handler for blank code. *)
Definition noCode : Toast :=
  {| title := lit "No Code"; description := lit "Paste code first.";
     destructive := true |}.

(** The toast of [validateRequired] for the field [fieldName]. *)
Definition required (fieldName : jsstring) : Toast :=
  {| title := lit "Validation Error";
     description := fieldName ++ lit " is required"; destructive := true |}.

(** *** The clean-up of [AIService.explainCode] *)

(** The patterns of the clean-up that delete, and the one that drops
    the white space in front of a newline. *)
Definition specialsRe : RegExp := re "[#*_`~]" "g".
Definition tagRe : RegExp := re "<[^>]*>?" "gm".
Definition trailRe : RegExp := re "\s+\n" "g".

(** The code units of markdown and markup: [# * _ ` ~] and [<]. *)
Definition isSpecial (c : char) : bool :=
  existsb (N.eqb c) [35; 42; 95; 96; 126]%N.

Definition isLt (c : char) : bool := N.eqb 60 c.

(** Behind white space: what is left behind the last newline of the run
    of white space at the start of [t], where the run has one. *)
Fixpoint back (t : jsstring) : option jsstring :=
  match t with
  | c :: t' =>
      if isSpace c then
        match back t' with
        | Some r => Some r
        | None => if N.eqb 10 c then Some t' else None
        end
      else None
  | [] => None
  end.

(** What is left behind a match of [trailRe] at the start of [s]. *)
Definition trailAt (s : jsstring) : option jsstring :=
  match s with
  | c :: t => if isSpace c then back t else None
  | [] => None
  end.

(** No newline in [s] stands directly behind white space: no line ends
    in white space and no line is empty. *)
Definition tidy (s : jsstring) : Prop :=
  forall pre a suf, s = pre ++ a :: LF :: suf -> isSpace a = false.

(** *** The performance monitor *)

(** The monitor right after [startTimer], and the durations it holds
    for an operation. *)
Definition started (operation : jsstring) (s : PerformanceMonitor.monitor)
  : PerformanceMonitor.monitor :=
  snd (PerformanceMonitor.startTimer operation s).

Definition recorded (operation : jsstring) (s : PerformanceMonitor.monitor)
  : list Q :=
  match PerformanceMonitor.mapGet (PerformanceMonitor.metrics s) operation with
  | Some l => l
  | None => []
  end.

(** [fn] leaves the monitor alone when it runs from [x]: it may read the
    clock, and no more. *)
Definition untouched {A} (fn : M PerformanceMonitor.monitor A)
  (x : PerformanceMonitor.monitor) : Prop :=
  PerformanceMonitor.timers (snd (fn x)) = PerformanceMonitor.timers x
  /\ PerformanceMonitor.metrics (snd (fn x)) = PerformanceMonitor.metrics x
  /\ PerformanceMonitor.clock (snd (fn x)) = PerformanceMonitor.clock x.

(** A monitor with nothing in it, whose clock reads 5, 10, 15, ... *)
Definition freshMonitor : PerformanceMonitor.monitor :=
  {| PerformanceMonitor.timers := []; PerformanceMonitor.metrics := [];
     PerformanceMonitor.clock := fun n => inject_Z (5 * Z.of_nat (S n));
     PerformanceMonitor.ticks := 0 |}.

(* ===================================================================== *)
(** * Properties of the effects *)
(* ===================================================================== *)

Lemma bind_ret_fst {S A B : Type} (m : M S A) (f : A -> B) (s : S) :
  fst (bind m (fun a => ret (f a)) s)
  = match fst (m s) with
    | Returned a => Returned (f a)
    | Thrown e => Thrown e
    end.
Proof.
  unfold bind, ret. destruct (m s) as [[a|e] s']; reflexivity.
Qed.

Lemma tryCatch_throw_fst {S A : Type} (m : M S A) (message : jsstring) (s : S) :
  fst (tryCatch m (fun _ => throw message) s)
  = match fst (m s) with
    | Returned a => Returned a
    | Thrown _ => Thrown message
    end.
Proof.
  unfold tryCatch, throw. destruct (m s) as [[a|e] s']; reflexivity.
Qed.

(* ===================================================================== *)
(** * Properties of the matcher *)
(* ===================================================================== *)

Section Matcher.

Lemma suffixOf_refl (s : jsstring) : suffixOf s s.
Proof. exists []. reflexivity. Qed.

Lemma suffixOf_trans (a b c : jsstring) :
  suffixOf a b -> suffixOf b c -> suffixOf a c.
Proof.
  intros [p Hp] [q Hq]. exists (q ++ p). rewrite Hq, Hp, app_assoc. reflexivity.
Qed.

Lemma suffixOf_cons (c : char) (t : jsstring) : suffixOf t (c :: t).
Proof. exists [c]. reflexivity. Qed.

Lemma suffixOf_Forall (P : char -> Prop) (t s : jsstring) :
  suffixOf t s -> Forall P s -> Forall P t.
Proof.
  intros [p Hp] H. subst s. apply Forall_app in H. apply H.
Qed.

Lemma suffixOf_length (t s : jsstring) : suffixOf t s -> (length t <= length s)%nat.
Proof. intros [p Hp]. subst s. rewrite length_app. lia. Qed.

Lemma repeatMatcher_forward (m : continuation -> mstate -> option mstate)
  (inner : list nat) (greedy : bool) :
  forward m ->
  forall fuel min max, forward (repeatMatcher m inner fuel min max greedy).
Proof.
  intros Hm. induction fuel as [|fuel IH]; intros min max c x z H.
  - discriminate H.
  - cbn [repeatMatcher] in H.
    set (d := fun y : mstate =>
      if (Nat.eqb min 0 && Nat.eqb (length (rest y)) (length (rest x)))%bool
      then None
      else repeatMatcher m inner fuel (Nat.pred min) (option_map Nat.pred max)
             greedy c y) in H.
    assert (Hd : forall y, d y = Some z ->
              exists y', c y' = Some z /\ suffixOf (rest y') (rest y)).
    { intros y Hy. unfold d in Hy.
      destruct (Nat.eqb min 0 && Nat.eqb (length (rest y)) (length (rest x)))%bool;
        [discriminate Hy|].
      apply IH in Hy. exact Hy. }
    assert (Hbody : m d (clearCaps inner x) = Some z ->
              exists y, c y = Some z /\ suffixOf (rest y) (rest x)).
    { intros Hb. apply Hm in Hb. destruct Hb as (y & Hy & Hs).
      apply Hd in Hy. destruct Hy as (y' & Hy' & Hs').
      exists y'. split; [exact Hy'|].
      eapply suffixOf_trans; [exact Hs'|exact Hs]. }
    assert (Hstop : c x = Some z ->
              exists y, c y = Some z /\ suffixOf (rest y) (rest x)).
    { intros Hc. exists x. split; [exact Hc|apply suffixOf_refl]. }
    destruct max as [[|k]|].
    + apply Hstop, H.
    + destruct (negb (Nat.eqb min 0)); [apply Hbody, H|].
      destruct greedy.
      * destruct (m d (clearCaps inner x)) eqn:E; [apply Hbody; congruence|apply Hstop, H].
      * destruct (c x) eqn:E; [apply Hstop; congruence|apply Hbody, H].
    + destruct (negb (Nat.eqb min 0)); [apply Hbody, H|].
      destruct greedy.
      * destruct (m d (clearCaps inner x)) eqn:E; [apply Hbody; congruence|apply Hstop, H].
      * destruct (c x) eqn:E; [apply Hstop; congruence|apply Hbody, H].
Qed.

Lemma exec_forward (fl : flags) (r : regex) : forward (exec fl r).
Proof.
  induction r as [ | a | | inv items | | | | a IHa b IHb | a IHa b IHb
                 | min max greedy a IHa | i a IHa ];
    intros c x z H; cbn [exec] in H.
  - exists x. split; [exact H|apply suffixOf_refl].
  - destruct (rest x) as [|b t] eqn:E; [discriminate H|].
    destruct (N.eqb (canon fl a) (canon fl b)); [|discriminate H].
    eexists. split; [exact H|]. cbn. apply suffixOf_cons.
  - destruct (rest x) as [|b t] eqn:E; [discriminate H|].
    destruct (isLineTerminator b); [discriminate H|].
    eexists. split; [exact H|]. cbn. apply suffixOf_cons.
  - destruct (rest x) as [|b t] eqn:E; [discriminate H|].
    destruct (classMatches fl inv items b); [|discriminate H].
    eexists. split; [exact H|]. cbn. apply suffixOf_cons.
  - exists x. split; [|apply suffixOf_refl].
    destruct (prev x) as [p|]; [|exact H].
    destruct (multiline fl && isLineTerminator p)%bool; [exact H|discriminate H].
  - exists x. split; [|apply suffixOf_refl].
    destruct (rest x) as [|b t]; [exact H|].
    destruct (multiline fl && isLineTerminator b)%bool; [exact H|discriminate H].
  - exists x. split; [|apply suffixOf_refl].
    destruct (xorb (isWordOpt (prev x)) (isWordOpt (hd_error (rest x))));
      [exact H|discriminate H].
  - apply IHa in H. destruct H as (y & Hy & Hs).
    apply IHb in Hy. destruct Hy as (y' & Hy' & Hs').
    exists y'. split; [exact Hy'|eapply suffixOf_trans; eauto].
  - destruct (exec fl a c x) eqn:E.
    + apply IHa. congruence.
    + apply IHb. exact H.
  - eapply repeatMatcher_forward; [exact IHa|exact H].
  - apply IHa in H. destruct H as (y & Hy & Hs).
    eexists. split; [exact Hy|exact Hs].
Qed.

Lemma matchAt_suffix (re : RegExp) (p : option char) (s : jsstring) (y : mstate) :
  matchAt re p s = Some y -> suffixOf (rest y) s.
Proof.
  unfold matchAt. intros H. apply exec_forward in H.
  destruct H as (y' & Hy' & Hs). unfold accept in Hy'.
  injection Hy' as ->. exact Hs.
Qed.

Lemma search_split (re : RegExp) (s : jsstring) :
  forall p sk st y, search re p s = Some (sk, st, y) ->
    s = sk ++ st /\ suffixOf (rest y) st.
Proof.
  induction s as [|c t IH]; intros p sk st y H; cbn [search] in H.
  - destruct (matchAt re p []) eqn:E; [|discriminate H].
    injection H as <- <- <-. split; [reflexivity|].
    eapply matchAt_suffix, E.
  - destruct (matchAt re p (c :: t)) eqn:E.
    + injection H as <- <- <-. split; [reflexivity|].
      eapply matchAt_suffix, E.
    + destruct (search re (Some c) t) as [[[sk' st'] y']|] eqn:E'; [|discriminate H].
      injection H as <- <- <-.
      apply IH in E'. destruct E' as [-> Hs]. split; [reflexivity|exact Hs].
Qed.

(** A replacement that inserts only code units that satisfy [P] keeps
    [P] on the whole string. *)
Section Preservation.

Variable P : char -> Prop.
Variable tpl : list ritem.
Hypothesis Htpl : literally P tpl.

Lemma expand_literally (y : mstate) : Forall P (expand tpl y).
Proof.
  unfold expand. clear -Htpl. induction tpl as [|it rest IH]; cbn [flat_map].
  - constructor.
  - inversion Htpl as [|? ? Hit Hrest]; subst.
    apply Forall_app. split; [|apply IH, Hrest].
    destruct it; [exact Hit|contradiction].
Qed.

Lemma replaceLoop_Forall (re : RegExp) :
  forall fuel p s, Forall P s -> Forall P (replaceLoop fuel re tpl p s).
Proof.
  induction fuel as [|fuel IH]; intros p s Hs; cbn [replaceLoop].
  - exact Hs.
  - destruct (matchAt re p s) as [y|] eqn:E.
    + pose proof (suffixOf_Forall P _ _ (matchAt_suffix _ _ _ _ E) Hs) as Hy.
      destruct (Nat.eqb (length (rest y)) (length s)).
      * destruct s as [|c t]; [apply expand_literally|].
        apply Forall_app. split; [apply expand_literally|].
        inversion Hs; subst. constructor; [assumption|]. apply IH. assumption.
      * apply Forall_app. split; [apply expand_literally|]. apply IH, Hy.
    + destruct s as [|c t]; [constructor|].
      inversion Hs; subst. constructor; [assumption|]. apply IH. assumption.
Qed.

Lemma replace_Forall (re : RegExp) (s : jsstring) :
  Forall P s -> Forall P (replace re tpl s).
Proof.
  intros Hs. unfold replace. destruct (global (flag re)).
  - apply replaceLoop_Forall, Hs.
  - destruct (search re None s) as [[[sk st] y]|] eqn:E; [|exact Hs].
    apply search_split in E. destruct E as [-> Hy].
    apply Forall_app in Hs. destruct Hs as [Hsk Hst].
    apply Forall_app. split; [exact Hsk|].
    apply Forall_app. split; [apply expand_literally|].
    eapply suffixOf_Forall; eauto.
Qed.

End Preservation.

End Matcher.

(* ===================================================================== *)
(** * Properties of the string operations *)
(* ===================================================================== *)

Section Strings.

Lemma eqs_eq (a b : jsstring) : eqs a b = true <-> a = b.
Proof.
  revert b. induction a as [|x a IH]; intros [|y b]; cbn [eqs]; split;
    try discriminate; try reflexivity.
  - intros H. apply andb_prop in H. destruct H as [H1 H2].
    apply N.eqb_eq in H1. apply IH in H2. congruence.
  - intros H. injection H as -> ->. rewrite N.eqb_refl. apply IH. reflexivity.
Qed.

Lemma startsWith_app (p t : jsstring) : startsWith p (p ++ t) = true.
Proof.
  induction p as [|x p IH]; cbn [startsWith app]; [reflexivity|].
  rewrite N.eqb_refl. exact IH.
Qed.

Lemma startsWith_spec (p s : jsstring) :
  startsWith p s = true -> exists t, s = p ++ t.
Proof.
  revert s. induction p as [|x p IH]; intros s H.
  - exists s. reflexivity.
  - destruct s as [|y s]; [discriminate H|]. cbn [startsWith] in H.
    apply andb_prop in H. destruct H as [H1 H2].
    apply N.eqb_eq in H1. apply IH in H2. destruct H2 as [t ->].
    exists t. subst y. reflexivity.
Qed.

Lemma includes_app (p pre suf : jsstring) : includes p (pre ++ p ++ suf) = true.
Proof.
  induction pre as [|c pre IH].
  - cbn [app]. destruct (p ++ suf) eqn:E; cbn [includes]; rewrite <- E;
      rewrite startsWith_app; reflexivity.
  - cbn [app includes]. rewrite IH. apply orb_true_r.
Qed.

Lemma includes_spec (p s : jsstring) :
  includes p s = true -> exists pre suf, s = pre ++ p ++ suf.
Proof.
  induction s as [|c s IH]; cbn [includes]; intros H.
  - rewrite orb_false_r in H. apply startsWith_spec in H. destruct H as [t Ht].
    exists [], t. exact Ht.
  - apply orb_prop in H. destruct H as [H|H].
    + apply startsWith_spec in H. destruct H as [t Ht]. exists [], t. exact Ht.
    + apply IH in H. destruct H as (pre & suf & ->). exists (c :: pre), suf. reflexivity.
Qed.




End Strings.

(* ===================================================================== *)
(** * Properties *)
(* ===================================================================== *)

(** ** The completion client *)

Section CompletionClient.

Import GroqService.

Variables (messages : list ChatMessage) (options : GroqOptions).

Lemma executeWithGroq_fetches_once (w : world) :
  length (fetches (snd (executeWithGroq messages options w)))
  = S (length (fetches w))
  /\ network (snd (executeWithGroq messages options w)) = tl (network w).
Proof.
  unfold executeWithGroq, tryCatch, bind, get, fetch.
  destruct (network w) as [|[e|r] rest]; cbn.
  - rewrite length_app; cbn; split; [lia | reflexivity].
  - rewrite length_app; cbn; split; [lia | reflexivity].
  - destruct (ok r); cbn.
    + destruct (body r); cbn; rewrite length_app; cbn; split; lia || reflexivity.
    + destruct (body r); cbn; rewrite length_app; cbn; split; lia || reflexivity.
Qed.

Lemma executeWithGroq_not_ok (w : world) (r : Response) (rest : list answer) :
  network w = Responded r :: rest ->
  ok r = false ->
  fst (executeWithGroq messages options w)
  = Thrown (lit "Groq proxy error: " ++ decimal (status r) ++ lit " - " ++ text r).
Proof.
  intros Hn Hok.
  unfold executeWithGroq, tryCatch, bind, get, fetch.
  rewrite Hn; cbn. rewrite Hok; cbn.
  destruct (body r); reflexivity.
Qed.

Lemma executeWithGroq_ok (w : world) (r : Response) (rest : list answer)
  (data : list (jsstring * jsstring)) :
  network w = Responded r :: rest ->
  ok r = true ->
  body r = JsonObject data ->
  fst (executeWithGroq messages options w)
  = Returned (nullish (property "response" data)
                (nullish (property "generatedCode" data)
                   (nullish (property "content" data) []))).
Proof.
  intros Hn Hok Hb.
  unfold executeWithGroq, tryCatch, bind, get, fetch.
  rewrite Hn; cbn. rewrite Hok; cbn. rewrite Hb. reflexivity.
Qed.

End CompletionClient.

(** C2, as stated, fails: an ok response whose JSON body has no usable
    text field does not make the client fail; it returns the empty
    string. *)
Lemma executeWithGroq_empty_body_returns :
  fst (GroqService.executeWithGroq [] GroqService.noOptions
         (answering idle repliesNothing)) = Returned []
  /\ forall e, fst (GroqService.executeWithGroq [] GroqService.noOptions
                      (answering idle repliesNothing)) <> Thrown e.
Proof.
  split; [reflexivity | intros e H; discriminate H].
Qed.

(** C2, amended: on every response that is not ok the client throws an
    error whose message carries the HTTP status and the body text; on an
    ok response whose JSON object has none of the fields [response],
    [generatedCode], [content] it returns the empty string; either way it
    has made exactly one fetch and taken exactly one answer of the
    network. *)
Theorem executeWithGroq_failure_semantics
  (messages : list ChatMessage) (options : GroqService.GroqOptions)
  (w : world) (r : Response) (rest : list answer) :
  network w = Responded r :: rest ->
  let run := GroqService.executeWithGroq messages options w in
  (ok r = false ->
   fst run = Thrown (lit "Groq proxy error: " ++ decimal (status r)
                     ++ lit " - " ++ text r))
  /\ (ok r = true ->
      forall data, body r = JsonObject data ->
      property "response" data = None ->
      property "generatedCode" data = None ->
      property "content" data = None ->
      fst run = Returned [])
  /\ length (fetches (snd run)) = S (length (fetches w))
  /\ network (snd run) = rest.
Proof.
  intros Hn run. subst run. repeat split.
  - intros Hok. eapply executeWithGroq_not_ok; eauto.
  - intros Hok data Hb H1 H2 H3.
    erewrite executeWithGroq_ok by eauto.
    rewrite H1, H2, H3. reflexivity.
  - apply executeWithGroq_fetches_once.
  - destruct (executeWithGroq_fetches_once messages options w) as [_ H].
    rewrite H, Hn. reflexivity.
Qed.

Lemma executeWithGroq_failure_semantics_witness :
  fst (GroqService.executeWithGroq [] GroqService.noOptions
         (answering idle (refuses 503 (lit "upstream down"))))
  = Thrown (lit "Groq proxy error: 503 - upstream down")
  /\ length (fetches (snd (GroqService.executeWithGroq [] GroqService.noOptions
         (answering idle (refuses 503 (lit "upstream down")))))) = 1%nat.
Proof.
  pose proof (@executeWithGroq_failure_semantics [] GroqService.noOptions
                (answering idle (refuses 503 (lit "upstream down")))
                _ [] eq_refl) as H.
  cbv zeta in H. destruct H as (H1 & _ & H3 & _).
  split; [exact (H1 eq_refl) | exact H3].
Defined.

(** ** The placeholder flag *)

Section Placeholder.

Import AIApiCaller.

Lemma callAIFunction_cases (options : AIApiCallOptions) (w : world) :
  let call := dispatch (handlerType options) (body options)
                (orElse (language (body options)) (lit "javascript")) in
  exists out w', callAIFunction options w = (Returned out, w') /\
    match fst (call w) with
    | Returned text => isPlaceholder out = false /\ content out = text
    | Thrown message =>
        isPlaceholder out = true
        /\ content out = lit "Error: " ++ message ++ [LF; LF] ++ fallbackContent options
    end.
Proof.
  intros call. unfold callAIFunction, tryCatch, bind. fold call.
  destruct (call w) as [[text|message] w1]; cbn.
  - do 2 eexists. split; [reflexivity|]. cbn. auto.
  - do 2 eexists. split; [reflexivity|]. cbn. auto.
Qed.

Lemma callCodeOptimization_cases (functionName : jsstring) (body : Body)
  (fallbackCode fallbackAnalysis : jsstring) (w : world) :
  let call := GroqService.optimizeCode (orElse (sourceCode body) [])
                (orElse (language body) (lit "javascript")) in
  exists res w',
    callCodeOptimization functionName body fallbackCode fallbackAnalysis w
    = (Returned res, w') /\
    match fst (call w) with
    | Returned code =>
        isPlaceholder (optimizedCode res) = false
        /\ content (optimizedCode res) = code
        /\ isPlaceholder (analysisReport res) = false
        /\ content (analysisReport res)
           = lit "Code optimization analysis is included in the optimized code comments."
    | Thrown _ =>
        isPlaceholder (optimizedCode res) = true
        /\ content (optimizedCode res) = fallbackCode
        /\ isPlaceholder (analysisReport res) = true
        /\ content (analysisReport res) = fallbackAnalysis
    end.
Proof.
  intros call. unfold callCodeOptimization, tryCatch, bind. fold call.
  destruct (call w) as [[code|message] w1]; cbn.
  - do 2 eexists. split; [reflexivity|]. cbn. auto.
  - do 2 eexists. split; [reflexivity|]. cbn. auto.
Qed.

(** C8: every result of [callAIFunction] and of [callCodeOptimization]
    is returned, never thrown, and its [isPlaceholder] is true exactly
    when the call to the provider did not complete and the content was
    built from the fallback handed in; it is false exactly when the call
    completed (the content is then the provider's text, or for the
    analysis report the fixed sentence that goes with it). *)
Theorem isPlaceholder_iff_fallback
  (options : AIApiCallOptions)
  (functionName : jsstring) (body' : Body) (fallbackCode fallbackAnalysis : jsstring)
  (w : world) :
  let call := dispatch (handlerType options) (body options)
                (orElse (language (body options)) (lit "javascript")) in
  let optimize := GroqService.optimizeCode (orElse (sourceCode body') [])
                    (orElse (language body') (lit "javascript")) in
  (exists out w', callAIFunction options w = (Returned out, w') /\
     (isPlaceholder out = true <->
      exists message, fst (call w) = Thrown message /\
        content out = lit "Error: " ++ message ++ [LF; LF] ++ fallbackContent options) /\
     (isPlaceholder out = false <->
      exists text, fst (call w) = Returned text /\ content out = text))
  /\
  (exists res w',
     callCodeOptimization functionName body' fallbackCode fallbackAnalysis w
     = (Returned res, w') /\
     (isPlaceholder (optimizedCode res) = true <->
      (exists message, fst (optimize w) = Thrown message) /\
      content (optimizedCode res) = fallbackCode) /\
     (isPlaceholder (analysisReport res) = true <->
      (exists message, fst (optimize w) = Thrown message) /\
      content (analysisReport res) = fallbackAnalysis) /\
     (isPlaceholder (optimizedCode res) = false <->
      exists code, fst (optimize w) = Returned code /\
        content (optimizedCode res) = code) /\
     isPlaceholder (analysisReport res) = isPlaceholder (optimizedCode res)).
Proof.
  intros call optimize. split.
  - destruct (callAIFunction_cases options w) as (out & w' & Hrun & Hcase).
    fold call in Hcase.
    exists out, w'. split; [exact Hrun|].
    destruct (fst (call w)) as [text|message].
    + destruct Hcase as [Hp Hc]. split; split.
      * rewrite Hp; discriminate.
      * intros (m & Hm & _); discriminate Hm.
      * intros _. exists text. auto.
      * intros _. exact Hp.
    + destruct Hcase as [Hp Hc]. split; split.
      * intros _. exists message. auto.
      * intros _. exact Hp.
      * rewrite Hp; discriminate.
      * intros (t & Ht & _); discriminate Ht.
  - destruct (callCodeOptimization_cases functionName body' fallbackCode
                fallbackAnalysis w) as (res & w' & Hrun & Hcase).
    fold optimize in Hcase.
    exists res, w'. split; [exact Hrun|].
    destruct (fst (optimize w)) as [code|message];
      destruct Hcase as (H1 & H2 & H3 & H4);
      rewrite H1, H3;
      repeat split; intros;
      repeat match goal with
             | H : exists _, _ |- _ => destruct H
             | H : _ /\ _ |- _ => destruct H
             end;
      try discriminate; try congruence; eauto.
Qed.

End Placeholder.

(** ** The fallback synthesizers of quickFixAITools *)

Section Fallbacks.

Import QuickFix.

Lemma section_draw (vuln : jsstring) (a b : Q) :
  Number.ltb (Number.literal (7 # 10)) a = Number.ltb (Number.literal (7 # 10)) b ->
  section vuln a = section vuln b.
Proof.
  intros H. unfold section. rewrite H. reflexivity.
Qed.

Lemma sections_agree (e1 e2 : environment) (types : list jsstring) :
  forall k,
    (forall i, (i < length types)%nat ->
               issuesFound e1 (k + i) = issuesFound e2 (k + i)) ->
    sections e1 k types = sections e2 k types.
Proof.
  induction types as [|vuln rest IH]; intros k H; cbn [sections].
  - reflexivity.
  - f_equal.
    + apply section_draw. specialize (H 0%nat). rewrite Nat.add_0_r in H.
      apply H. cbn. lia.
    + apply IH. intros i Hi. replace (S k + i)%nat with (k + S i)%nat by lia.
      apply H. cbn. lia.
Qed.

(** C5, as stated, fails: with the same vulnerability types the security
    audit fallback gives different reports when [Math.random] draws
    differently. *)
Lemma generateSecurityAuditFallback_not_deterministic :
  generateSecurityAuditFallback quietDay [lit "xss"]
  <> generateSecurityAuditFallback noisyDay [lit "xss"].
Proof.
  intros H.
  apply (f_equal (includes (lit "No Issues Detected"))) in H.
  vm_compute in H. discriminate H.
Qed.

(** C5, amended: the debug and refactor fallback is determined by the
    analysis types alone (not even by the source); the security audit
    fallback is determined by the vulnerability types together with the
    date of the day and, for each type in turn, whether [Math.random]
    drew above 0.7.  Both are total and touch no network. *)
Theorem fallbacks_determined_by
  (source1 source2 : jsstring) (analysisTypes vulnerabilityTypes : list jsstring)
  (e1 e2 : environment) :
  toLocaleDateString e1 = toLocaleDateString e2 ->
  (forall i, (i < length vulnerabilityTypes)%nat ->
             issuesFound e1 i = issuesFound e2 i) ->
  generateDebugRefactorFallback source1 analysisTypes
  = generateDebugRefactorFallback source2 analysisTypes
  /\ generateSecurityAuditFallback e1 vulnerabilityTypes
     = generateSecurityAuditFallback e2 vulnerabilityTypes.
Proof.
  intros Hd Hr. split; [reflexivity|].
  unfold generateSecurityAuditFallback.
  rewrite Hd, (sections_agree e1 e2 vulnerabilityTypes 0 Hr).
  reflexivity.
Qed.

Lemma fallbacks_determined_by_witness :
  generateDebugRefactorFallback (lit "let x = 1") [lit "bugs"]
  = generateDebugRefactorFallback (lit "x = None") [lit "bugs"]
  /\ generateSecurityAuditFallback quietDay [lit "xss"; lit "csrf"]
     = generateSecurityAuditFallback
         {| toLocaleDateString := lit "1/1/2024"; random := fun _ => 3 # 10 |}
         [lit "xss"; lit "csrf"].
Proof.
  apply (@fallbacks_determined_by (lit "let x = 1") (lit "x = None") [lit "bugs"]
           [lit "xss"; lit "csrf"] quietDay
           {| toLocaleDateString := lit "1/1/2024"; random := fun _ => 3 # 10 |}).
  - reflexivity.
  - intros i _. reflexivity.
Defined.

End Fallbacks.

(** ** Language detection *)

Section Detection.

Import CodeAnalysis.

Lemma detectLanguage_unfold (code : jsstring) (config : CodeAnalysisConfig) (w : world) :
  trim code <> [] ->
  fst (detectLanguage code config w)
  = Returned
      (match (if usesAI config then aiLanguage code w else None) with
       | Some l => {| language := l; confidence := 90; fallback := None |}
       | None =>
           detectByPatterns code
             (GroqService.withDefault (minConfidence config) 0)
             (GroqService.withDefault (fallbackToText config) true)
       end).
Proof.
  intros Hne. unfold detectLanguage, usesAI, aiLanguage.
  destruct (trim code) as [|c t]; [congruence|].
  destruct (GroqService.withDefault (useAI config) true).
  - unfold bind, tryCatch, ret.
    destruct (AIService.detectLanguage code w) as [[[|a l]|e] w1]; cbn [fst].
    + reflexivity.
    + destruct (eqs (a :: l) (lit "unknown")); reflexivity.
    + reflexivity.
  - reflexivity.
Qed.

Lemma score_fold_nil (code : jsstring) (rules : list Rule) :
  forallb (fun r => Nat.eqb (matchLength (pattern r) code) 0) rules = true ->
  fold_left (fun scores r =>
    let matches := matchLength (pattern r) code in
    if Nat.eqb matches 0 then scores
    else addScore scores (lit (ruleLanguage r)) (matches * weight r))
    rules [] = [].
Proof.
  induction rules as [|r rest IH]; cbn [forallb fold_left]; intros H.
  - reflexivity.
  - apply andb_prop in H. destruct H as [Hr Hrest].
    cbv zeta. rewrite Hr. apply IH, Hrest.
Qed.

Lemma confidenceOf_zero (n : nat) : confidenceOf 0 n = 0%Z.
Proof. reflexivity. Qed.

Lemma detectByPatterns_no_match (code : jsstring) (minC : Q) (toText : bool) :
  noPatternMatches code = true ->
  detectByPatterns code minC toText
  = if Number.ltb 0 minC
    then {| language := fallbackLanguage toText; confidence := 0;
            fallback := Some true |}
    else {| language := lit "unknown"; confidence := 0; fallback := None |}.
Proof.
  intros H. unfold detectByPatterns.
  replace (score code) with (@nil (jsstring * nat))
    by (symmetry; exact (score_fold_nil code patterns H)).
  cbn [sortDesc fold_right].
  rewrite confidenceOf_zero. reflexivity.
Qed.

(** C3, as stated, fails: the same text is detected as two languages
    when the AI service, which is asked first, answers differently. *)
Lemma detectLanguage_not_deterministic :
  fst (detectLanguage (lit "x = 1") defaultConfig
         (answering idle (replies (lit "python"))))
  <> fst (detectLanguage (lit "x = 1") defaultConfig
            (answering idle (replies (lit "ruby")))).
Proof.
  vm_compute. intros H. discriminate H.
Qed.

(** C3, amended: the result of [detectLanguage] is determined by the
    text, the configuration and the language the AI service proposes;
    with [useAI] off, or when the service proposes nothing both times,
    two calls on the same text give the same result. *)
Theorem detectLanguage_determined_by
  (code : jsstring) (config : CodeAnalysisConfig) (w1 w2 : world) :
  usesAI config = false \/ aiLanguage code w1 = aiLanguage code w2 ->
  fst (detectLanguage code config w1) = fst (detectLanguage code config w2).
Proof.
  intros H.
  destruct (trim code) as [|c t] eqn:Ht.
  - unfold detectLanguage. rewrite Ht. reflexivity.
  - assert (Hne : trim code <> []) by (rewrite Ht; discriminate).
    rewrite !detectLanguage_unfold by exact Hne.
    destruct H as [H|H]; rewrite H; reflexivity.
Qed.

Lemma detectLanguage_determined_by_witness :
  fst (detectLanguage (lit "function add(a,b){return a+b}")
         {| useAI := Some false; minConfidence := None; fallbackToText := None |}
         (answering idle (replies (lit "python"))))
  = fst (detectLanguage (lit "function add(a,b){return a+b}")
           {| useAI := Some false; minConfidence := None; fallbackToText := None |}
           idle).
Proof.
  apply detectLanguage_determined_by. left. reflexivity.
Defined.

(** C4, as stated, fails: for a text that no pattern matches, and with
    the AI service out of reach, the default configuration yields the
    language "unknown", not "text". *)
Lemma detectLanguage_no_match_is_unknown :
  noPatternMatches (lit "x") = true
  /\ fst (detectLanguage (lit "x") defaultConfig idle)
     = Returned {| language := lit "unknown"; confidence := 0; fallback := None |}
  /\ fst (detectLanguage (lit "x") defaultConfig idle)
     <> Returned {| language := lit "text"; confidence := 0; fallback := None |}.
Proof.
  split; [vm_compute; reflexivity|].
  split; [vm_compute; reflexivity|].
  vm_compute. intros H. discriminate H.
Qed.

(** C4, amended: for every text that is not blank and that no pattern of
    the rule table matches, when the AI service is off or proposes no
    language, [detectLanguage] returns "unknown" with confidence 0 if
    [minConfidence] is 0 or less (the default), and the fallback language
    ("text" unless [fallbackToText] is off) with confidence 0, flagged as
    fallback, if [minConfidence] is positive. *)
Theorem detectLanguage_no_match
  (code : jsstring) (config : CodeAnalysisConfig) (w : world) :
  trim code <> [] ->
  noPatternMatches code = true ->
  usesAI config = false \/ aiLanguage code w = None ->
  fst (detectLanguage code config w)
  = Returned
      (if Number.ltb 0 (GroqService.withDefault (minConfidence config) 0)
       then {| language :=
                 fallbackLanguage (GroqService.withDefault (fallbackToText config) true);
               confidence := 0; fallback := Some true |}
       else {| language := lit "unknown"; confidence := 0; fallback := None |}).
Proof.
  intros Hne Hno Hai.
  rewrite detectLanguage_unfold by exact Hne.
  assert (Hnone : (if usesAI config then aiLanguage code w else None) = None).
  { destruct Hai as [H|H]; rewrite H; [reflexivity|].
    destruct (usesAI config); reflexivity. }
  rewrite Hnone. f_equal. apply detectByPatterns_no_match, Hno.
Qed.

Lemma detectLanguage_no_match_witness :
  fst (detectLanguage (lit "x")
         {| useAI := None; minConfidence := Some (1 # 2); fallbackToText := None |}
         (answering idle (replies (lit "unknown"))))
  = Returned {| language := lit "text"; confidence := 0; fallback := Some true |}.
Proof.
  apply (@detectLanguage_no_match (lit "x")
           {| useAI := None; minConfidence := Some (1 # 2); fallbackToText := None |}
           (answering idle (replies (lit "unknown")))).
  - vm_compute. discriminate.
  - vm_compute. reflexivity.
  - right. vm_compute. reflexivity.
Defined.

End Detection.

(** ** The fallback tests *)

Section FallbackTests.

Import TestGenerator.



End FallbackTests.

(** ** The cleaning of generated code *)

Section CleanCode.

Import GroqService.

Lemma dropWhile_suffix (p : char -> bool) (s : jsstring) : suffixOf (dropWhile p s) s.
Proof.
  induction s as [|c t IH]; cbn [dropWhile].
  - apply suffixOf_refl.
  - destruct (p c); [|apply suffixOf_refl].
    eapply suffixOf_trans; [exact IH|apply suffixOf_cons].
Qed.

Lemma trim_Forall (P : char -> Prop) (s : jsstring) : Forall P s -> Forall P (trim s).
Proof.
  intros H. unfold trim, trimEnd, trimStart.
  apply Forall_rev.
  eapply suffixOf_Forall; [apply dropWhile_suffix|].
  apply Forall_rev.
  eapply suffixOf_Forall; [apply dropWhile_suffix|exact H].
Qed.

Lemma dropWhile_head (p : char -> bool) (s : jsstring) :
  match dropWhile p s with
  | c :: _ => p c = false
  | [] => True
  end.
Proof.
  induction s as [|c t IH]; cbn [dropWhile]; [exact I|].
  destruct (p c) eqn:E; [exact IH|exact E].
Qed.

(** The global replacement of the backtick deletes every backtick. *)
Lemma replaceLoop_backtick :
  forall s fuel p, (length s < fuel)%nat ->
    replaceLoop fuel (re "`" "g") [] p s
    = filter (fun c => negb (N.eqb BACKTICK c)) s.
Proof.
  induction s as [|c t IH]; intros fuel p Hf;
    (destruct fuel as [|fuel]; [cbn in Hf; lia|]).
  - reflexivity.
  - cbn [replaceLoop filter]. unfold matchAt.
    change (pattern (re "`" "g")) with (RChar BACKTICK).
    change (flag (re "`" "g"))
      with {| global := true; ignoreCase := false; multiline := false |}.
    cbn [exec rest canon ignoreCase].
    destruct (N.eqb BACKTICK c) eqn:E; cbn [negb].
    + unfold accept, advance. cbn [rest prev expand flat_map app].
      replace (Nat.eqb (length t) (length (c :: t))) with false
        by (symmetry; apply Nat.eqb_neq; cbn; lia).
      apply IH. cbn in Hf. lia.
    + f_equal. apply IH. cbn in Hf. lia.
Qed.

Lemma replace_backtick_free (s : jsstring) :
  Forall free (replace (re "`" "g") [] s).
Proof.
  unfold replace. change (global (flag (re "`" "g"))) with true. cbv iota.
  rewrite replaceLoop_backtick by lia.
  apply Forall_forall. intros c Hc. apply filter_In in Hc.
  destruct Hc as [_ Hc]. apply negb_true_iff, N.eqb_neq in Hc.
  unfold free. congruence.
Qed.

Lemma fold_replace_Forall (P : char -> Prop) (patterns : list RegExp) :
  forall s, Forall P s ->
    Forall P (fold_left (fun cleaned pattern => replace pattern [] cleaned) patterns s).
Proof.
  induction patterns as [|r rest IH]; intros s Hs; cbn [fold_left].
  - exact Hs.
  - apply IH. apply replace_Forall; [constructor|exact Hs].
Qed.

Lemma cleanCodeResponse_free (code language : jsstring) :
  Forall free (cleanCodeResponse code language).
Proof.
  unfold cleanCodeResponse. apply Forall_app. split.
  - apply trim_Forall.
    apply replace_Forall.
    { constructor; [|constructor]. repeat constructor; unfold free; discriminate. }
    apply replace_Forall; [constructor|].
    apply fold_replace_Forall.
    apply replace_backtick_free.
  - repeat constructor. unfold free. discriminate.
Qed.

Lemma free_hasBacktick (s : jsstring) : Forall free s -> hasBacktick s = false.
Proof.
  intros H. unfold hasBacktick.
  destruct (existsb (N.eqb BACKTICK) s) eqn:E; [|reflexivity].
  apply existsb_exists in E. destruct E as (c & Hc & Hb).
  apply N.eqb_eq in Hb. rewrite Forall_forall in H. specialize (H c Hc).
  unfold free in H. congruence.
Qed.

Lemma trim_one_newline (s : jsstring) : endsWithOneNewline (trim s ++ [LF]) = true.
Proof.
  unfold endsWithOneNewline. rewrite rev_app_distr. cbn [rev app].
  rewrite N.eqb_refl. cbn [andb].
  unfold trim, trimEnd. rewrite rev_involutive.
  pose proof (dropWhile_head isSpace (rev (trimStart s))) as H.
  destruct (dropWhile isSpace (rev (trimStart s))) as [|b before]; [reflexivity|].
  destruct (N.eqb b LF) eqn:E; [|reflexivity].
  apply N.eqb_eq in E. subst b. discriminate H.
Qed.

(** C10: whatever the input, [cleanCodeResponse] returns a string without
    a backtick that ends with exactly one newline; so the code that
    [generateCode] and [generateTests] return, when they return, has no
    backtick either. *)
Theorem cleanCodeResponse_no_backtick (code language : jsstring) (w : world) :
  hasBacktick (cleanCodeResponse code language) = false
  /\ endsWithOneNewline (cleanCodeResponse code language) = true
  /\ match fst (generateCode code language w) with
     | Returned out => hasBacktick out = false
     | Thrown _ => True
     end
  /\ match fst (generateTests code language w) with
     | Returned out => hasBacktick out = false
     | Thrown _ => True
     end.
Proof.
  split; [apply free_hasBacktick, cleanCodeResponse_free|].
  split; [apply trim_one_newline|].
  split.
  - unfold generateCode.
    rewrite tryCatch_throw_fst, bind_ret_fst.
    destruct (fst (executeWithGroq _ _ w)) as [result|e]; [|exact I].
    apply free_hasBacktick, cleanCodeResponse_free.
  - unfold generateTests.
    rewrite bind_ret_fst.
    destruct (fst (executeWithGroq _ _ w)) as [result|e]; [|exact I].
    apply free_hasBacktick, cleanCodeResponse_free.
Qed.

End CleanCode.

(** ** The local markup check of the explain handler *)

Section MarkupCheck.

Import CodeExplanation.







(** One required iteration of an unbounded repetition. *)
Lemma repeatMatcher_required (m : continuation -> mstate -> option mstate)
  (inner : list nat) (fuel k : nat) (greedy : bool) (c : continuation) (x : mstate) :
  repeatMatcher m inner (S fuel) (S k) None greedy c x
  = m (fun y => repeatMatcher m inner fuel k None greedy c y) (clearCaps inner x).
Proof. reflexivity. Qed.





Lemma markupRe_flags : ignoreCase (flag markupRe) = false.
Proof. reflexivity. Qed.








End MarkupCheck.

(** ** The keyword fallback of the explain handler *)

Section ExplainFallback.

Import CodeExplanation.

(** The client leaves the clock, the toasts and the rows alone. *)
Lemma executeWithGroq_frame (messages : list ChatMessage)
  (options : GroqService.GroqOptions) (w : world) :
  let w' := snd (GroqService.executeWithGroq messages options w) in
  now w' = now w /\ toasts w' = toasts w /\ rows w' = rows w.
Proof.
  unfold GroqService.executeWithGroq, tryCatch, bind, get, fetch.
  destruct (network w) as [|[e|r] rest]; cbn; auto.
  destruct (ok r); destruct (body r); cbn; auto.
Qed.

Lemma commentFor_cases (first : jsstring) :
  In (commentFor first) tableComments
  \/ commentFor first = nativeObject
  \/ commentFor first = lit "Do something".
Proof.
  unfold commentFor, tableComments.
  destruct (find (fun p => eqs (lit (fst p)) first) map) as [[k c]|] eqn:E.
  - left. apply find_some in E. destruct E as [E _].
    apply (in_map (fun p => lit (snd p))) in E. exact E.
  - destruct (eqs first (lit "constructor")); auto.
Qed.

(** Every line that is not blank gets a comment line in front of it;
    a blank line is left as it is. *)
Lemma commentLine_cases (line : jsstring) :
  (trim line = [] /\ commentLine line = line)
  \/ (trim line <> [] /\
      exists comment,
        commentLine line = lit "// " ++ comment ++ [LF] ++ line
        /\ (In comment tableComments \/ comment = nativeObject
            \/ comment = lit "Do something")).
Proof.
  unfold commentLine. destruct (trim line) as [|c t] eqn:E.
  - left. auto.
  - right. split; [discriminate|].
    eexists. split; [reflexivity|]. apply commentFor_cases.
Qed.

Lemma handleExplain_after_checks
  (sourceCode explanationLevel : jsstring) (user detectedLang : option jsstring)
  (s : state) (raw : jsstring) :
  trim sourceCode <> [] ->
  looksLikeMarkup (trim sourceCode) = false ->
  fst (explainCall sourceCode explanationLevel (outside s)) = Returned raw ->
  includes (lit "ERROR: JSX") (cleanOutput raw) = false ->
  let w1 := snd (explainCall sourceCode explanationLevel (outside s)) in
  let result := if needsFallback (cleanOutput raw) sourceCode
                then keywordComments sourceCode else cleanOutput raw in
  let w2 := match user with
            | Some id =>
                {| VITE_SUPABASE_URL := VITE_SUPABASE_URL w1; now := now w1;
                   network := network w1; fetches := fetches w1;
                   toasts := toasts w1;
                   rows := rows w1 ++ [explainRow id sourceCode result detectedLang (now w1)] |}
            | None => w1
            end in
  handleExplain sourceCode explanationLevel user detectedLang s
  = (Returned tt,
     {| outside := toasting (explanationReady explanationLevel) w2;
        page := {| explanation := result; activeTab := lit "result";
                   isExplaining := false |} |}).
Proof.
  intros Hne Hm Hraw Hs w1 result w2.
  unfold handleExplain, bind, lift, ErrorHandler.validateRequired.
  destruct (trim sourceCode) as [|c t] eqn:Ht; [congruence|].
  unfold ret. cbn [negb fst snd]. rewrite Hm.
  unfold tryFinally, tryCatch, bind, lift, setIsExplaining, setExplanation,
    setActiveTab, setPage, modify, ret.
  cbn [outside page].
  change (AIService.chatCompletion _ None None (outside s))
    with (explainCall sourceCode explanationLevel (outside s)).
  destruct (explainCall sourceCode explanationLevel (outside s)) as [r w1'] eqn:E.
  cbn [fst snd] in Hraw, w1. subst r. subst w1.
  cbn [outside page]. rewrite Hs.
  fold result.
  destruct user as [id|]; reflexivity.
Qed.

(** C9, as stated, fails twice.  An answer that holds the sentinel
    "ERROR: JSX" has no [//] in it, yet the handler does not substitute
    anything: it raises the toast "Invalid Code" and leaves the page as
    it was.  And in the substituted text a line of white space, which is
    not empty, gets no comment. *)
Lemma handleExplain_sentinel_is_not_replaced :
  includes (lit "//") (cleanOutput (lit "ERROR: JSX detected.")) = false
  /\ needsFallback (cleanOutput (lit "ERROR: JSX detected.")) (lit "total = price * qty")
     = true
  /\ snd (handleExplain (lit "total = price * qty") (lit "beginner") None None
            {| outside := answering idle (replies (lit "ERROR: JSX detected."));
               page := blankPage |})
     = {| outside :=
            toasting invalidCode
              (snd (explainCall (lit "total = price * qty") (lit "beginner")
                      (answering idle (replies (lit "ERROR: JSX detected.")))));
          page := blankPage |}
  /\ keywordComments (lit "a" ++ [LF; SP; LF] ++ lit "b")
     = lit "// Do something" ++ [LF] ++ lit "a" ++ [LF; SP; LF]
       ++ lit "// Do something" ++ [LF] ++ lit "b".
Proof.
  repeat split; vm_compute; reflexivity.
Qed.

(** C9, amended: when the source passes the local checks, the model
    answers, and the cleaned answer does not hold the sentinel
    "ERROR: JSX" but has no [//] in it or is shorter than 0.6 times the
    source, the handler drops the answer and shows the source with a
    comment line in front of every line that is not blank (the comment of
    the keyword table for the first word, else "Do something"; blank
    lines are kept as they are).  The run ends like one that shows the
    model's answer: the tab "result", the toast "Done!", the same row in
    the history; nothing marks the text as a placeholder. *)
Theorem handleExplain_keyword_fallback
  (sourceCode explanationLevel : jsstring) (user detectedLang : option jsstring)
  (s : state) (raw : jsstring) :
  trim sourceCode <> [] ->
  looksLikeMarkup (trim sourceCode) = false ->
  fst (explainCall sourceCode explanationLevel (outside s)) = Returned raw ->
  includes (lit "ERROR: JSX") (cleanOutput raw) = false ->
  needsFallback (cleanOutput raw) sourceCode = true ->
  let run := handleExplain sourceCode explanationLevel user detectedLang s in
  fst run = Returned tt
  /\ page (snd run)
     = {| explanation := keywordComments sourceCode; activeTab := lit "result";
          isExplaining := false |}
  /\ toasts (outside (snd run))
     = toasts (outside s) ++ [explanationReady explanationLevel]
  /\ rows (outside (snd run))
     = rows (outside s)
       ++ match user with
          | Some id => [explainRow id sourceCode (keywordComments sourceCode)
                          detectedLang (now (outside s))]
          | None => []
          end
  /\ keywordComments sourceCode
     = join [LF] (List.map commentLine (split LF sourceCode))
  /\ Forall (fun line =>
       (trim line = [] /\ commentLine line = line)
       \/ (trim line <> [] /\
           exists comment,
             commentLine line = lit "// " ++ comment ++ [LF] ++ line
             /\ (In comment tableComments \/ comment = nativeObject
                 \/ comment = lit "Do something")))
       (split LF sourceCode).
Proof.
  intros Hne Hm Hraw Hs Hf run. subst run.
  rewrite (handleExplain_after_checks sourceCode explanationLevel user
             detectedLang s raw Hne Hm Hraw Hs).
  rewrite Hf. cbn [fst snd page outside].
  destruct (executeWithGroq_frame
              [GroqService.system (systemContent (levelOf explanationLevel));
               GroqService.user (buildPrompt (levelOf explanationLevel) sourceCode)]
              {| GroqService.opt_model := None;
                 GroqService.opt_temperature := Some (7 # 10);
                 GroqService.opt_maxTokens := Some 2000%N;
                 GroqService.opt_topP := None;
                 GroqService.opt_stream := None |}
              (outside s)) as (Hnow & Htoasts & Hrows).
  change (snd (GroqService.executeWithGroq _ _ (outside s)))
    with (snd (explainCall sourceCode explanationLevel (outside s)))
    in Hnow, Htoasts, Hrows.
  split; [reflexivity|]. split; [reflexivity|].
  split.
  { destruct user; cbn [toasting toasts]; rewrite Htoasts; reflexivity. }
  split.
  { destruct user; cbn [toasting rows]; rewrite Hrows.
    - rewrite Hnow. reflexivity.
    - rewrite app_nil_r. reflexivity. }
  split; [reflexivity|].
  apply Forall_forall. intros line _. apply commentLine_cases.
Qed.

Lemma handleExplain_keyword_fallback_witness :
  page (snd (handleExplain (lit "let total = 0") (lit "expert") (Some (lit "u1")) None
               {| outside := answering idle (replies (lit "ok"));
                  page := blankPage |}))
  = {| explanation := lit "// Create a variable" ++ [LF] ++ lit "let total = 0";
       activeTab := lit "result"; isExplaining := false |}.
Proof.
  destruct (handleExplain_keyword_fallback (lit "let total = 0") (lit "expert")
              (Some (lit "u1")) None
              {| outside := answering idle (replies (lit "ok")); page := blankPage |}
              (lit "ok"))
    as (_ & H & _).
  - vm_compute. discriminate.
  - vm_compute. reflexivity.
  - vm_compute. reflexivity.
  - vm_compute. reflexivity.
  - vm_compute. reflexivity.
  - rewrite H. vm_compute. reflexivity.
Defined.

End ExplainFallback.

(* ===================================================================== *)
(** * The matcher on the patterns of the normalization *)
(* ===================================================================== *)

Section Star.

Lemma filter_all {A : Type} (l : list A) : filter (fun _ => true) l = l.
Proof.
  induction l as [|a l IH]; cbn [filter]; [reflexivity|]. rewrite IH. reflexivity.
Qed.

Lemma clearCaps_nil (x : mstate) : clearCaps [] x = x.
Proof.
  unfold clearCaps. cbn [existsb negb]. rewrite filter_all. destruct x. reflexivity.
Qed.

(** The repetition of a class, greedy and unbounded, is [gstar]. *)
Lemma repeat_class_star (fl : flags) (invert : bool) (items : list citem)
  (k : continuation) :
  forall s fuel pv cp, (length s < fuel)%nat ->
    repeatMatcher (exec fl (RClass invert items)) [] fuel 0 None true k
      {| prev := pv; rest := s; caps := cp |}
    = gstar (classMatches fl invert items) k pv cp s.
Proof.
  induction s as [|b t IH]; intros fuel pv cp Hf;
    (destruct fuel as [|fuel]; [cbn in Hf; lia|]).
  - cbn [repeatMatcher Nat.eqb negb andb gstar]. rewrite clearCaps_nil.
    reflexivity.
  - cbn [repeatMatcher Nat.eqb negb gstar]. rewrite clearCaps_nil.
    cbn [exec rest].
    destruct (classMatches fl invert items b); [|reflexivity].
    unfold advance. cbn [rest caps andb length].
    replace (Nat.eqb (length t) (S (length t))) with false
      by (symmetry; apply Nat.eqb_neq; lia).
    cbn [option_map Nat.pred].
    rewrite IH by (cbn in Hf; lia). reflexivity.
Qed.

(** What follows the star is first tried behind the longest run. *)
Lemma gstar_longest (P : char -> bool) (k : continuation) (z : mstate) :
  forall s pv cp,
    k {| prev := lastOf (takeWhile P s) pv; rest := dropWhile P s; caps := cp |}
    = Some z ->
    gstar P k pv cp s = Some z.
Proof.
  induction s as [|b t IH]; intros pv cp H; cbn [gstar].
  - exact H.
  - cbn [takeWhile dropWhile] in H. destruct (P b) eqn:E.
    + rewrite (IH (Some b) cp); [reflexivity|].
      replace (lastOf (takeWhile P t) (Some b))
        with (lastOf (b :: takeWhile P t) pv); [exact H|].
      unfold lastOf. cbn [rev].
      destruct (rev (takeWhile P t)); reflexivity.
    + exact H.
Qed.

(** Whatever the star returns, what follows it returned behind some run. *)
Lemma gstar_some (P : char -> bool) (k : continuation) (z : mstate) :
  forall s pv cp, gstar P k pv cp s = Some z ->
    exists pre v pv', s = pre ++ v /\ forallb P pre = true
      /\ k {| prev := pv'; rest := v; caps := cp |} = Some z.
Proof.
  induction s as [|b t IH]; intros pv cp H; cbn [gstar] in H.
  - exists [], [], pv. auto.
  - destruct (P b) eqn:E.
    + destruct (gstar P k (Some b) cp t) as [z'|] eqn:G.
      * injection H as ->. apply IH in G.
        destruct G as (pre & v & pv' & -> & Hp & Hk).
        exists (b :: pre), v, pv'. cbn [forallb app]. rewrite E, Hp. auto.
      * exists [], (b :: t), pv. auto.
    + exists [], (b :: t), pv. auto.
Qed.

(** The star fails only if what follows it fails behind every run. *)
Lemma gstar_none (P : char -> bool) (k : continuation) :
  forall s pv cp, gstar P k pv cp s = None ->
    forall pre v, s = pre ++ v -> forallb P pre = true ->
      k {| prev := lastOf pre pv; rest := v; caps := cp |} = None.
Proof.
  induction s as [|b t IH]; intros pv cp H pre v Hs Hp; cbn [gstar] in H.
  - destruct pre; [|discriminate Hs]. cbn [app] in Hs. subst v. exact H.
  - destruct pre as [|c pre].
    + cbn [app] in Hs. subst v. unfold lastOf. cbn [rev].
      destruct (P b); [|exact H].
      destruct (gstar P k (Some b) cp t); [discriminate H|exact H].
    + cbn [app] in Hs. injection Hs as <- ->. cbn [forallb] in Hp.
      apply andb_prop in Hp. destruct Hp as [Hb Hp]. rewrite Hb in H.
      destruct (gstar P k (Some b) cp (pre ++ v)) eqn:G; [discriminate H|].
      specialize (IH (Some b) cp G pre v eq_refl Hp).
      replace (lastOf (b :: pre) pv) with (lastOf pre (Some b)); [exact IH|].
      unfold lastOf. cbn [rev]. destruct (rev pre); reflexivity.
Qed.

(** A global replace by a fixed text is a [scan]. *)
Lemma replaceLoop_scan (re : RegExp) (tpl : list ritem) (m : jsstring -> option jsstring) :
  noRefs tpl = true ->
  (forall p s, option_map rest (matchAt re p s) = m s) ->
  forall fuel p s, replaceLoop fuel re tpl p s = scan fuel m (literalOf tpl) s.
Proof.
  intros Ht Hm.
  assert (He : forall y, expand tpl y = literalOf tpl).
  { intros y. unfold expand, literalOf. clear Hm.
    induction tpl as [|it rest IH]; [reflexivity|].
    cbn [noRefs forallb] in Ht. apply andb_prop in Ht. destruct Ht as [Hi Hr].
    cbn [flat_map]. rewrite (IH Hr). destruct it; [reflexivity|discriminate Hi]. }
  induction fuel as [|fuel IH]; intros p s; cbn [replaceLoop scan]; [reflexivity|].
  rewrite <- (Hm p s).
  destruct (matchAt re p s) as [y|]; cbn [option_map].
  - rewrite He. destruct (Nat.eqb (length (rest y)) (length s)).
    + destruct s as [|c t]; [reflexivity|]. rewrite IH. reflexivity.
    + rewrite IH. reflexivity.
  - destruct s as [|c t]; [reflexivity|]. rewrite IH. reflexivity.
Qed.

(** Where the pattern matches nowhere, the replace changes nothing. *)
Lemma scan_nowhere (m : jsstring -> option jsstring) (rep : jsstring) :
  forall fuel s, (forall t, suffixOf t s -> m t = None) -> scan fuel m rep s = s.
Proof.
  induction fuel as [|fuel IH]; intros s H; cbn [scan]; [reflexivity|].
  rewrite (H s (suffixOf_refl s)).
  destruct s as [|c t]; [reflexivity|].
  rewrite IH; [reflexivity|].
  intros u Hu. apply H. eapply suffixOf_trans; [exact Hu|apply suffixOf_cons].
Qed.

End Star.

(** ** Stripping the fence markers *)

Section Fences.

Lemma dropWhile_ext (P Q : char -> bool) (s : jsstring) :
  (forall c, P c = Q c) -> dropWhile P s = dropWhile Q s.
Proof.
  intros H. induction s as [|c t IH]; cbn [dropWhile]; [reflexivity|].
  rewrite H, IH. reflexivity.
Qed.

Lemma takeWhile_ext (P Q : char -> bool) (s : jsstring) :
  (forall c, P c = Q c) -> takeWhile P s = takeWhile Q s.
Proof.
  intros H. induction s as [|c t IH]; cbn [takeWhile]; [reflexivity|].
  rewrite H, IH. reflexivity.
Qed.

Lemma dropWhile_length (P : char -> bool) (s : jsstring) :
  (length (dropWhile P s) <= length s)%nat.
Proof. apply suffixOf_length, dropWhile_suffix. Qed.

Lemma classMatches_word (fl : flags) (c : char) :
  classMatches fl false [CWord] c = isWord c.
Proof.
  unfold classMatches. cbn [existsb citemMatches]. rewrite orb_false_r.
  destruct (isWord c); reflexivity.
Qed.

Lemma exec_RChar_plain (fl : flags) (a : char) (c : continuation) (x : mstate) :
  ignoreCase fl = false ->
  exec fl (RChar a) c x
  = match rest x with
    | b :: t => if N.eqb a b then c (advance x b t) else None
    | [] => None
    end.
Proof.
  intros Hi. cbn [exec]. unfold canon. rewrite Hi. reflexivity.
Qed.

Lemma repeatMatcher_step (m : continuation -> mstate -> option mstate)
  (inner : list nat) (fuel min : nat) (max : option nat) (greedy : bool)
  (c : continuation) (x : mstate) :
  repeatMatcher m inner (S fuel) min max greedy c x
  = match max with
    | Some O => c x
    | _ =>
        let d := fun y : mstate =>
          if (Nat.eqb min 0 && Nat.eqb (length (rest y)) (length (rest x)))%bool
          then None
          else repeatMatcher m inner fuel (Nat.pred min)
                 (option_map Nat.pred max) greedy c y in
        let xr := clearCaps inner x in
        if negb (Nat.eqb min 0) then m d xr
        else if greedy then
          match m d xr with
          | Some z => Some z
          | None => c x
          end
        else
          match c x with
          | Some z => Some z
          | None => m d xr
          end
    end.
Proof. reflexivity. Qed.

(** [\n?] at the end of a pattern: it takes a newline if there is one. *)
Lemma exec_optional_newline (fl : flags) (pv : option char) (s : jsstring)
  (cp : list (nat * (jsstring * jsstring))) :
  ignoreCase fl = false ->
  option_map rest
    (exec fl (RQuant 0 (Some 1%nat) true (RChar 10%N)) accept
       {| prev := pv; rest := s; caps := cp |})
  = Some (dropLF s).
Proof.
  intros Hi.
  change (exec fl (RQuant 0 (Some 1%nat) true (RChar 10%N)) accept
            {| prev := pv; rest := s; caps := cp |})
    with (repeatMatcher (exec fl (RChar 10%N)) [] (0 + length s + 1) 0
            (Some 1%nat) true accept {| prev := pv; rest := s; caps := cp |}).
  replace (0 + length s + 1)%nat with (S (length s)) by lia.
  rewrite repeatMatcher_step. cbv zeta. rewrite clearCaps_nil.
  change (negb (Nat.eqb 0 0)) with false. cbv iota.
  rewrite exec_RChar_plain by exact Hi.
  destruct s as [|b t]; [reflexivity|].
  change (rest {| prev := pv; rest := b :: t; caps := cp |}) with (b :: t).
  cbv iota. cbn [dropLF].
  destruct (N.eqb 10 b); [|reflexivity].
  unfold advance.
  change (rest {| prev := Some b; rest := t;
                  caps := caps {| prev := pv; rest := b :: t; caps := cp |} |})
    with t.
  change (Nat.eqb 0 0) with true. cbn [andb length].
  replace (Nat.eqb (length t) (S (length t))) with false
    by (symmetry; apply Nat.eqb_neq; lia).
  cbv iota. cbn [option_map Nat.pred].
  rewrite repeatMatcher_step. reflexivity.
Qed.

Lemma fenceRe_pattern :
  pattern fenceRe
  = RSeq (RChar BACKTICK) (RSeq (RChar BACKTICK) (RSeq (RChar BACKTICK)
      (RSeq (RQuant 0 None true (RClass false [CWord]))
            (RQuant 0 (Some 1%nat) true (RChar 10%N))))).
Proof. vm_compute. reflexivity. Qed.

Lemma ticksRe_pattern :
  pattern ticksRe = RSeq (RChar BACKTICK) (RSeq (RChar BACKTICK) (RChar BACKTICK)).
Proof. vm_compute. reflexivity. Qed.

(** Behind the three backticks: the word characters, then the newline. *)
Lemma fence_tail (fl : flags) (pv : option char) (s : jsstring)
  (cp : list (nat * (jsstring * jsstring))) :
  ignoreCase fl = false ->
  option_map rest
    (exec fl (RSeq (RQuant 0 None true (RClass false [CWord]))
                   (RQuant 0 (Some 1%nat) true (RChar 10%N))) accept
       {| prev := pv; rest := s; caps := cp |})
  = Some (dropLF (dropWhile isWord s)).
Proof.
  intros Hi.
  change (exec fl (RSeq (RQuant 0 None true (RClass false [CWord]))
                        (RQuant 0 (Some 1%nat) true (RChar 10%N))) accept
            {| prev := pv; rest := s; caps := cp |})
    with (repeatMatcher (exec fl (RClass false [CWord])) []
            (0 + length s + 1) 0 None true
            (exec fl (RQuant 0 (Some 1%nat) true (RChar 10%N)) accept)
            {| prev := pv; rest := s; caps := cp |}).
  rewrite repeat_class_star by lia.
  pose proof (exec_optional_newline fl
                (lastOf (takeWhile (classMatches fl false [CWord]) s) pv)
                (dropWhile (classMatches fl false [CWord]) s) cp Hi) as H.
  destruct (exec fl (RQuant 0 (Some 1%nat) true (RChar 10%N)) accept
              {| prev := lastOf (takeWhile (classMatches fl false [CWord]) s) pv;
                 rest := dropWhile (classMatches fl false [CWord]) s;
                 caps := cp |}) as [z|] eqn:E; [|discriminate H].
  rewrite (gstar_longest _ _ z s pv cp E).
  rewrite H. rewrite (dropWhile_ext _ isWord s (classMatches_word fl)).
  reflexivity.
Qed.

Lemma fenceRe_matchAt (p : option char) (s : jsstring) :
  option_map rest (matchAt fenceRe p s) = fenceAt s.
Proof.
  unfold matchAt, fenceAt. rewrite fenceRe_pattern.
  set (fl := flag fenceRe).
  assert (Hi : ignoreCase fl = false) by reflexivity.
  set (tail := RSeq (RQuant 0 None true (RClass false [CWord]))
                    (RQuant 0 (Some 1%nat) true (RChar 10%N))).
  change (exec fl (RSeq (RChar BACKTICK) (RSeq (RChar BACKTICK)
            (RSeq (RChar BACKTICK) tail))) accept {| prev := p; rest := s; caps := [] |})
    with (exec fl (RChar BACKTICK)
            (exec fl (RChar BACKTICK) (exec fl (RChar BACKTICK) (exec fl tail accept)))
            {| prev := p; rest := s; caps := [] |}).
  change (lit "```") with [BACKTICK; BACKTICK; BACKTICK].
  rewrite exec_RChar_plain by exact Hi. cbn [rest].
  destruct s as [|a s]; [reflexivity|]. cbn [startsWith].
  destruct (N.eqb BACKTICK a); [|reflexivity].
  rewrite exec_RChar_plain by exact Hi. unfold advance at 1. cbn [rest].
  destruct s as [|b s]; [reflexivity|]. cbn [startsWith andb].
  destruct (N.eqb BACKTICK b); [|reflexivity].
  rewrite exec_RChar_plain by exact Hi. unfold advance at 1. cbn [rest].
  destruct s as [|c s]; [reflexivity|]. cbn [startsWith andb].
  destruct (N.eqb BACKTICK c); [|reflexivity].
  unfold advance. cbn [caps skipn].
  apply fence_tail. exact Hi.
Qed.

Lemma ticksRe_matchAt (p : option char) (s : jsstring) :
  option_map rest (matchAt ticksRe p s) = ticksAt s.
Proof.
  unfold matchAt, ticksAt. rewrite ticksRe_pattern.
  set (fl := flag ticksRe).
  assert (Hi : ignoreCase fl = false) by reflexivity.
  change (exec fl (RSeq (RChar BACKTICK) (RSeq (RChar BACKTICK) (RChar BACKTICK)))
            accept {| prev := p; rest := s; caps := [] |})
    with (exec fl (RChar BACKTICK)
            (exec fl (RChar BACKTICK) (exec fl (RChar BACKTICK) accept))
            {| prev := p; rest := s; caps := [] |}).
  change (lit "```") with [BACKTICK; BACKTICK; BACKTICK].
  rewrite exec_RChar_plain by exact Hi. cbn [rest].
  destruct s as [|a s]; [reflexivity|]. cbn [startsWith].
  destruct (N.eqb BACKTICK a); [|reflexivity].
  rewrite exec_RChar_plain by exact Hi. unfold advance at 1. cbn [rest].
  destruct s as [|b s]; [reflexivity|]. cbn [startsWith andb].
  destruct (N.eqb BACKTICK b); [|reflexivity].
  rewrite exec_RChar_plain by exact Hi. unfold advance at 1. cbn [rest].
  destruct s as [|c s]; [reflexivity|]. cbn [startsWith andb].
  destruct (N.eqb BACKTICK c); reflexivity.
Qed.

Lemma replace_fenceRe (s : jsstring) :
  replace fenceRe [] s = scan (S (length s)) fenceAt [] s.
Proof.
  unfold replace. change (global (flag fenceRe)) with true. cbv iota.
  apply (replaceLoop_scan fenceRe [] fenceAt eq_refl fenceRe_matchAt).
Qed.

Lemma replace_ticksRe (s : jsstring) :
  replace ticksRe [] s = scan (S (length s)) ticksAt [] s.
Proof.
  unfold replace. change (global (flag ticksRe)) with true. cbv iota.
  apply (replaceLoop_scan ticksRe [] ticksAt eq_refl ticksRe_matchAt).
Qed.

Lemma fenceAt_shorter (s r : jsstring) :
  fenceAt s = Some r -> (length r < length s)%nat.
Proof.
  unfold fenceAt. destruct (startsWith (lit "```") s) eqn:E; [|discriminate].
  intros H. injection H as <-.
  apply startsWith_spec in E. destruct E as [t ->].
  change (skipn 3 (lit "```" ++ t)) with t.
  assert (length (dropLF (dropWhile isWord t)) <= length t)%nat.
  { pose proof (dropWhile_length isWord t) as H.
    destruct (dropWhile isWord t) as [|c u]; cbn [dropLF]; [cbn; lia|].
    destruct (N.eqb 10 c); cbn in *; lia. }
  rewrite length_app. cbn [length lit]. cbn. lia.
Qed.

Lemma startsWith_shorter (p q s : jsstring) :
  startsWith (p ++ q) s = true -> startsWith p s = true.
Proof.
  revert s. induction p as [|x p IH]; intros s H; [reflexivity|].
  destruct s as [|y s]; [discriminate H|]. cbn [app startsWith] in *.
  apply andb_prop in H. destruct H as [H1 H2]. rewrite H1. apply IH, H2.
Qed.

(** The first of the loop's output is the first of its input where no
    fence starts. *)
Lemma scan_fence_one (fuel : nat) (u : jsstring) :
  startsWith [BACKTICK] u = false ->
  startsWith [BACKTICK] (scan fuel fenceAt [] u) = false.
Proof.
  intros H. destruct fuel as [|fuel]; [exact H|]. cbn [scan].
  unfold fenceAt.
  destruct (startsWith (lit "```") u) eqn:E.
  { apply (startsWith_shorter [BACKTICK] [BACKTICK; BACKTICK]) in E. congruence. }
  destruct u as [|d u]; [reflexivity|]. exact H.
Qed.

Lemma scan_fence_two (fuel : nat) (t : jsstring) :
  startsWith [BACKTICK; BACKTICK] t = false ->
  startsWith [BACKTICK; BACKTICK] (scan fuel fenceAt [] t) = false.
Proof.
  intros H. destruct fuel as [|fuel]; [exact H|]. cbn [scan].
  unfold fenceAt.
  destruct (startsWith (lit "```") t) eqn:E.
  { apply (startsWith_shorter [BACKTICK; BACKTICK] [BACKTICK]) in E. congruence. }
  destruct t as [|c t]; [reflexivity|].
  cbn [startsWith] in *.
  destruct (N.eqb BACKTICK c); [|reflexivity]. cbn [andb] in *.
  apply (scan_fence_one fuel t). exact H.
Qed.

(** The first replacement leaves no fence marker. *)
Lemma scan_fence_clean :
  forall fuel s, (length s < fuel)%nat -> fenced (scan fuel fenceAt [] s) = false.
Proof.
  unfold fenced.
  induction fuel as [|fuel IH]; intros s Hf; [lia|]. cbn [scan].
  destruct (fenceAt s) as [r|] eqn:E.
  - pose proof (fenceAt_shorter s r E) as Hr.
    replace (Nat.eqb (length r) (length s)) with false
      by (symmetry; apply Nat.eqb_neq; lia).
    cbn [app]. apply IH. lia.
  - destruct s as [|c t]; [reflexivity|].
    cbn [includes]. rewrite (IH t) by (cbn in Hf; lia). rewrite orb_false_r.
    unfold fenceAt in E.
    destruct (startsWith (lit "```") (c :: t)) eqn:S3; [discriminate E|].
    change (lit "```") with [BACKTICK; BACKTICK; BACKTICK] in *.
    cbn [startsWith] in *.
    destruct (N.eqb BACKTICK c); [|reflexivity]. cbn [andb] in *.
    apply (scan_fence_two fuel t). exact S3.
Qed.

Lemma includes_suffix (p t s : jsstring) :
  includes p s = false -> suffixOf t s -> startsWith p t = false.
Proof.
  intros H [pre ->]. induction pre as [|c pre IH].
  - cbn [app] in H. destruct t; cbn [includes] in H;
      apply orb_false_elim in H; apply H.
  - cbn [app includes] in H. apply orb_false_elim in H. apply IH, H.
Qed.

(** Without a fence marker both fence replacements change nothing. *)
Lemma unfenced_fixed (s : jsstring) :
  fenced s = false -> replace fenceRe [] s = s /\ replace ticksRe [] s = s.
Proof.
  intros H. rewrite replace_fenceRe, replace_ticksRe. split.
  - apply scan_nowhere. intros t Ht. unfold fenceAt.
    rewrite (includes_suffix _ _ _ H Ht). reflexivity.
  - apply scan_nowhere. intros t Ht. unfold ticksAt.
    rewrite (includes_suffix _ _ _ H Ht). reflexivity.
Qed.

Lemma trim_decompose (s : jsstring) : exists pre suf, s = pre ++ trim s ++ suf.
Proof.
  unfold trim, trimEnd, trimStart.
  destruct (dropWhile_suffix isSpace s) as [pre Hpre].
  destruct (dropWhile_suffix isSpace (rev (dropWhile isSpace s))) as [q Hq].
  exists pre, (rev q).
  rewrite <- rev_app_distr, <- Hq, rev_involutive. exact Hpre.
Qed.

Lemma includes_inside (p pre m suf : jsstring) :
  includes p m = true -> includes p (pre ++ m ++ suf) = true.
Proof.
  intros H. apply includes_spec in H. destruct H as (a & b & ->).
  replace (pre ++ (a ++ p ++ b) ++ suf) with ((pre ++ a) ++ p ++ (b ++ suf))
    by (rewrite <- !app_assoc; reflexivity).
  apply includes_app.
Qed.

Lemma trim_unfenced (s : jsstring) : fenced s = false -> fenced (trim s) = false.
Proof.
  unfold fenced. intros H.
  destruct (includes (lit "```") (trim s)) eqn:E; [|reflexivity].
  destruct (trim_decompose s) as (pre & suf & Hs).
  rewrite Hs in H. rewrite (includes_inside _ pre _ suf E) in H. discriminate H.
Qed.

Lemma dropWhile_fixed (P : char -> bool) (s : jsstring) :
  match s with c :: _ => P c = false | [] => True end -> dropWhile P s = s.
Proof.
  destruct s as [|c t]; [reflexivity|]. cbn [dropWhile]. intros ->. reflexivity.
Qed.

Lemma trimEnd_head (s : jsstring) :
  match s with c :: _ => isSpace c = false | [] => True end ->
  match trimEnd s with c :: _ => isSpace c = false | [] => True end.
Proof.
  intros H. unfold trimEnd.
  destruct (dropWhile_suffix isSpace (rev s)) as [q Hq].
  apply (f_equal (@rev char)) in Hq. rewrite rev_involutive, rev_app_distr in Hq.
  destruct (rev (dropWhile isSpace (rev s))) as [|c u]; [exact I|].
  rewrite Hq in H. exact H.
Qed.

(** Trimming twice is trimming once. *)
Lemma trim_trim (s : jsstring) : trim (trim s) = trim s.
Proof.
  unfold trim at 1. unfold trimStart.
  rewrite (dropWhile_fixed isSpace (trim s)).
  - unfold trim, trimEnd. rewrite rev_involutive.
    rewrite (dropWhile_fixed isSpace (dropWhile isSpace (rev (trimStart s))));
      [reflexivity|].
    apply dropWhile_head.
  - unfold trim. apply trimEnd_head. apply dropWhile_head.
Qed.

(** The normalization of the test generator is idempotent. *)
Lemma stripFences_idempotent (x : jsstring) :
  TestGenerator.stripFences (TestGenerator.stripFences x) = TestGenerator.stripFences x.
Proof.
  unfold TestGenerator.stripFences. fold fenceRe ticksRe.
  assert (H1 : fenced (replace fenceRe [] x) = false).
  { rewrite replace_fenceRe. apply scan_fence_clean. lia. }
  destruct (unfenced_fixed _ H1) as [_ H2]. rewrite H2.
  pose proof (trim_unfenced _ H1) as H3.
  destruct (unfenced_fixed _ H3) as [H4 H5]. rewrite H4, H5.
  apply trim_trim.
Qed.

End Fences.

(** ** Collapsing the line breaks *)

Section Breaks.

Lemma classMatches_break (fl : flags) (c : char) :
  ignoreCase fl = false ->
  classMatches fl false [CChar 13%N; CChar 10%N] c = isBreak c.
Proof.
  intros Hi. unfold classMatches, isBreak. cbn [existsb citemMatches].
  unfold canon. rewrite Hi. rewrite orb_false_r.
  destruct (N.eqb 13 c || N.eqb 10 c)%bool; reflexivity.
Qed.

Lemma exec_RClass_step (fl : flags) (invert : bool) (items : list citem)
  (c : continuation) (x : mstate) :
  exec fl (RClass invert items) c x
  = match rest x with
    | b :: t => if classMatches fl invert items b then c (advance x b t) else None
    | [] => None
    end.
Proof. reflexivity. Qed.

Lemma breaksRe_pattern :
  pattern breaksRe = RQuant 1 None true (RClass false [CChar 13%N; CChar 10%N]).
Proof. vm_compute. reflexivity. Qed.

Lemma breaksRe_matchAt (p : option char) (s : jsstring) :
  option_map rest (matchAt breaksRe p s) = breaksAt s.
Proof.
  unfold matchAt, breaksAt. rewrite breaksRe_pattern.
  set (fl := flag breaksRe).
  assert (Hi : ignoreCase fl = false) by reflexivity.
  change (exec fl (RQuant 1 None true (RClass false [CChar 13%N; CChar 10%N])) accept
            {| prev := p; rest := s; caps := [] |})
    with (repeatMatcher (exec fl (RClass false [CChar 13%N; CChar 10%N])) []
            (1 + length s + 1) 1 None true accept
            {| prev := p; rest := s; caps := [] |}).
  replace (1 + length s + 1)%nat with (S (S (length s))) by lia.
  rewrite repeatMatcher_required. rewrite clearCaps_nil.
  rewrite exec_RClass_step. cbn [rest].
  destruct s as [|b t]; [reflexivity|].
  rewrite (classMatches_break fl b Hi).
  destruct (isBreak b); [|reflexivity].
  unfold advance. cbn [caps].
  rewrite repeat_class_star by (cbn; lia).
  rewrite (gstar_longest _ accept
             {| prev := lastOf (takeWhile (classMatches fl false
                                  [CChar 13%N; CChar 10%N]) t) (Some b);
                rest := dropWhile (classMatches fl false
                                  [CChar 13%N; CChar 10%N]) t;
                caps := [] |}); [|reflexivity].
  cbn [option_map rest].
  rewrite (dropWhile_ext _ isBreak t (fun c => classMatches_break fl c Hi)).
  reflexivity.
Qed.

Lemma replace_breaksRe (s : jsstring) :
  replace breaksRe [RLit [LF]] s = scan (S (length s)) breaksAt [LF] s.
Proof.
  unfold replace. change (global (flag breaksRe)) with true. cbv iota.
  apply (replaceLoop_scan breaksRe [RLit [LF]] breaksAt eq_refl breaksRe_matchAt).
Qed.

(** Where every line break is a single newline the replacement by a
    newline changes nothing. *)
Lemma scan_breaks_fixed :
  forall fuel s, singleBreaks s = true -> scan fuel breaksAt [LF] s = s.
Proof.
  induction fuel as [|fuel IH]; intros s H; [reflexivity|].
  destruct s as [|c t]; [reflexivity|].
  cbn [scan breaksAt]. cbn [singleBreaks] in H.
  apply andb_prop in H. destruct H as [Hc Ht].
  destruct (isBreak c).
  - apply andb_prop in Hc. destruct Hc as [Hlf Hnext].
    assert (Hd : dropWhile isBreak t = t).
    { apply dropWhile_fixed. destruct t as [|d u]; [exact I|].
      apply negb_true_iff in Hnext. exact Hnext. }
    rewrite Hd.
    replace (Nat.eqb (length t) (length (c :: t))) with false
      by (symmetry; apply Nat.eqb_neq; cbn; lia).
    apply N.eqb_eq in Hlf. subst c.
    cbn [app]. rewrite (IH t Ht). reflexivity.
  - rewrite (IH t Ht). reflexivity.
Qed.

Lemma singleBreaks_intro (s : jsstring) :
  noCR s -> hasBlankLine s = false -> singleBreaks s = true.
Proof.
  unfold hasBlankLine. induction s as [|c t IH]; intros Hcr Hbl; [reflexivity|].
  inversion Hcr as [|? ? Hc Ht]; subst.
  cbn [includes] in Hbl. apply orb_false_elim in Hbl. destruct Hbl as [Hhd Htl].
  cbn [singleBreaks]. rewrite (IH Ht Htl), andb_true_r.
  unfold isBreak.
  destruct (N.eqb 13 c) eqn:E13.
  { apply N.eqb_eq in E13. subst c. exfalso. apply Hc. reflexivity. }
  cbn [orb]. destruct (N.eqb 10 c) eqn:E10; [|reflexivity].
  cbn [andb]. apply N.eqb_eq in E10. subst c.
  destruct t as [|d u]; [reflexivity|].
  inversion Ht as [|? ? Hd _]; subst.
  destruct (N.eqb 13 d) eqn:D13.
  { apply N.eqb_eq in D13. subst d. exfalso. apply Hd. reflexivity. }
  cbn [orb]. destruct (N.eqb 10 d) eqn:D10; [|reflexivity].
  apply N.eqb_eq in D10. subst d. discriminate Hhd.
Qed.

(** The replacement takes every carriage return away. *)
Lemma scan_breaks_noCR :
  forall fuel s, (length s < fuel)%nat -> noCR (scan fuel breaksAt [LF] s).
Proof.
  unfold noCR.
  induction fuel as [|fuel IH]; intros s Hf; [lia|].
  destruct s as [|c t]; [constructor|].
  cbn [scan breaksAt]. destruct (isBreak c) eqn:E.
  - pose proof (dropWhile_length isBreak t) as Hl.
    replace (Nat.eqb (length (dropWhile isBreak t)) (length (c :: t))) with false
      by (symmetry; apply Nat.eqb_neq; cbn; lia).
    cbn [app]. constructor; [discriminate|].
    apply IH. cbn in Hf. lia.
  - constructor.
    + intros ->. discriminate E.
    + apply IH. cbn in Hf. lia.
Qed.

(** A replacement that puts in a text without backticks makes no fence
    marker. *)
Section NoNewFence.

Variables (m : jsstring -> option jsstring) (rep : jsstring).
Hypothesis rep_nonempty : rep <> [].
Hypothesis rep_free : Forall (fun c => c <> BACKTICK) rep.
Hypothesis m_forward : forall s r, m s = Some r -> suffixOf r s.

Lemma startsWith_rep (bs X : jsstring) :
  startsWith (BACKTICK :: bs) (rep ++ X) = false.
Proof.
  destruct rep as [|a rep']; [congruence|].
  inversion rep_free as [|? ? Ha _]; subst.
  cbn [app startsWith].
  destruct (N.eqb BACKTICK a) eqn:E; [|reflexivity].
  apply N.eqb_eq in E. congruence.
Qed.

Lemma includes_rep (X : jsstring) :
  includes (lit "```") (rep ++ X) = includes (lit "```") X.
Proof.
  clear rep_nonempty. induction rep as [|a rep' IH]; [reflexivity|].
  inversion rep_free as [|? ? Ha Hrest]; subst.
  cbn [app includes]. rewrite (IH Hrest).
  change (lit "```") with [BACKTICK; BACKTICK; BACKTICK]. cbn [startsWith].
  destruct (N.eqb BACKTICK a) eqn:E; [|reflexivity].
  apply N.eqb_eq in E. congruence.
Qed.

Lemma scan_backticks (bs : jsstring) :
  Forall (fun c => c = BACKTICK) bs ->
  forall fuel s, startsWith bs (scan fuel m rep s) = true -> startsWith bs s = true.
Proof.
  induction 1 as [|b bs Hb _ IH]; intros fuel s H; [reflexivity|]. subst b.
  destruct fuel as [|fuel]; [exact H|]. cbn [scan] in H.
  destruct (m s) as [r|].
  - destruct (Nat.eqb (length r) (length s)).
    + destruct s as [|c t].
      * rewrite <- (app_nil_r rep) in H. rewrite startsWith_rep in H. discriminate H.
      * rewrite startsWith_rep in H. discriminate H.
    + rewrite startsWith_rep in H. discriminate H.
  - destruct s as [|c t]; [discriminate H|].
    cbn [startsWith] in *. apply andb_prop in H. destruct H as [H1 H2].
    rewrite H1. apply (IH fuel t H2).
Qed.

Lemma includes_suffix_closed (p t s : jsstring) :
  includes p s = false -> suffixOf t s -> includes p t = false.
Proof.
  intros H [pre ->]. induction pre as [|c pre IH]; [exact H|].
  cbn [app includes] in H. apply orb_false_elim in H. apply IH, H.
Qed.

Lemma scan_unfenced :
  forall fuel s, fenced s = false -> fenced (scan fuel m rep s) = false.
Proof.
  unfold fenced.
  assert (Hcons : forall fuel c t,
            (forall s, includes (lit "```") s = false ->
                       includes (lit "```") (scan fuel m rep s) = false) ->
            includes (lit "```") (c :: t) = false ->
            includes (lit "```") (c :: scan fuel m rep t) = false).
  { intros fuel c t IH H. cbn [includes] in *.
    apply orb_false_elim in H. destruct H as [Hhd Htl].
    rewrite (IH t Htl), orb_false_r.
    destruct (startsWith (lit "```") (c :: scan fuel m rep t)) eqn:E; [|reflexivity].
    change (lit "```") with [BACKTICK; BACKTICK; BACKTICK] in *.
    cbn [startsWith] in E, Hhd. apply andb_prop in E. destruct E as [E1 E2].
    rewrite E1 in Hhd. cbn [andb] in Hhd.
    apply (scan_backticks [BACKTICK; BACKTICK]) in E2;
      [|repeat constructor].
    cbn [startsWith] in E2. congruence. }
  induction fuel as [|fuel IH]; intros s H; [exact H|]. cbn [scan].
  destruct (m s) as [r|] eqn:E.
  - destruct (Nat.eqb (length r) (length s)).
    + destruct s as [|c t].
      * rewrite <- (app_nil_r rep), includes_rep. reflexivity.
      * rewrite includes_rep. apply Hcons; assumption.
    + rewrite includes_rep. apply IH.
      eapply includes_suffix_closed; [exact H|]. apply m_forward, E.
  - destruct s as [|c t]; [reflexivity|]. apply Hcons; assumption.
Qed.

End NoNewFence.

Lemma breaksAt_forward (s r : jsstring) : breaksAt s = Some r -> suffixOf r s.
Proof.
  destruct s as [|c t]; [discriminate|]. cbn [breaksAt].
  destruct (isBreak c); [|discriminate]. intros H. injection H as <-.
  eapply suffixOf_trans; [apply dropWhile_suffix|apply suffixOf_cons].
Qed.

Lemma scan_breaks_unfenced (fuel : nat) (s : jsstring) :
  fenced s = false -> fenced (scan fuel breaksAt [LF] s) = false.
Proof.
  apply scan_unfenced.
  - discriminate.
  - repeat constructor; discriminate.
  - exact breaksAt_forward.
Qed.

End Breaks.

(** ** Collapsing the blank lines *)

Section Blank.

(** Arithmetic on lengths, whatever name the type of code units goes by. *)
Ltac lengths := unfold jsstring, char in *; cbn [length rest setCap] in *; lia.

Lemma classMatches_space (fl : flags) (c : char) :
  classMatches fl false [CSpace] c = isSpace c.
Proof.
  unfold classMatches. cbn [existsb citemMatches]. rewrite orb_false_r.
  destruct (isSpace c); reflexivity.
Qed.

Lemma gstar_ext (P Q : char -> bool) (k : continuation) :
  (forall c, P c = Q c) ->
  forall s pv cp, gstar P k pv cp s = gstar Q k pv cp s.
Proof.
  intros H. induction s as [|b t IH]; intros pv cp; cbn [gstar]; [reflexivity|].
  rewrite H, IH. reflexivity.
Qed.

Lemma takeWhile_dropWhile (P : char -> bool) (s : jsstring) :
  s = takeWhile P s ++ dropWhile P s.
Proof.
  induction s as [|c t IH]; cbn [takeWhile dropWhile]; [reflexivity|].
  destruct (P c); [|reflexivity]. cbn [app]. f_equal. exact IH.
Qed.

Lemma takeWhile_all (P : char -> bool) (s : jsstring) :
  forallb P (takeWhile P s) = true.
Proof.
  induction s as [|c t IH]; cbn [takeWhile]; [reflexivity|].
  destruct (P c) eqn:E; [|reflexivity]. cbn [forallb]. rewrite E. exact IH.
Qed.

Lemma takeWhile_app_all (P : char -> bool) (pre v : jsstring) :
  forallb P pre = true -> takeWhile P (pre ++ v) = pre ++ takeWhile P v.
Proof.
  induction pre as [|c pre IH]; intros H; [reflexivity|].
  cbn [forallb] in H. apply andb_prop in H. destruct H as [Hc Hp].
  cbn [app takeWhile]. rewrite Hc, (IH Hp). reflexivity.
Qed.

Lemma dropWhile_app_all (P : char -> bool) (pre v : jsstring) :
  forallb P pre = true -> dropWhile P (pre ++ v) = dropWhile P v.
Proof.
  induction pre as [|c pre IH]; intros H; [reflexivity|].
  cbn [forallb] in H. apply andb_prop in H. destruct H as [Hc Hp].
  cbn [app dropWhile]. rewrite Hc. apply IH, Hp.
Qed.

Lemma countLF_app (a b : jsstring) : countLF (a ++ b) = (countLF a + countLF b)%nat.
Proof.
  induction a as [|c a IH]; [reflexivity|]. cbn [app countLF].
  destruct (N.eqb 10 c); rewrite IH; reflexivity.
Qed.

Lemma startsLF_dropped (s : jsstring) : startsLF (dropWhile isSpace s) = false.
Proof.
  pose proof (dropWhile_head isSpace s) as H.
  destruct (dropWhile isSpace s) as [|c u]; [reflexivity|]. cbn [startsLF].
  destruct (N.eqb 10 c) eqn:E; [|reflexivity].
  apply N.eqb_eq in E. subst c. discriminate H.
Qed.

(** In a run of white space that holds a newline, the part from the
    first newline on holds all the newlines of the run. *)
Lemma first_newline (t : jsstring) :
  (1 <= countLF (takeWhile isSpace t))%nat ->
  exists pre v, t = pre ++ v /\ forallb isSpace pre = true
    /\ startsLF v = true
    /\ countLF (takeWhile isSpace v) = countLF (takeWhile isSpace t).
Proof.
  induction t as [|c t IH]; cbn [takeWhile countLF]; [lia|].
  destruct (isSpace c) eqn:Es; [|cbn [countLF]; lia].
  cbn [countLF]. destruct (N.eqb 10 c) eqn:El.
  - intros _. exists [], (c :: t). cbn [app forallb startsLF takeWhile countLF].
    rewrite El, Es. cbn [countLF]. rewrite El. auto.
  - intros H. destruct (IH H) as (pre & v & -> & Hp & Hv & Hc).
    exists (c :: pre), v. cbn [app forallb]. rewrite Es, Hp. auto.
Qed.

Lemma blankBody_exec (fl : flags) (c : continuation) (x : mstate) :
  ignoreCase fl = false ->
  exec fl blankBody c x
  = match rest x with
    | b :: t =>
        if N.eqb 10 b
        then gstar isSpace (fun y => c (setCap 1 (rest x) (rest y) y))
               (Some b) (caps x) t
        else None
    | [] => None
    end.
Proof.
  intros Hi.
  change (exec fl blankBody c x)
    with (exec fl (RChar 10%N)
            (exec fl (RQuant 0 None true (RClass false [CSpace]))
               (fun y => c (setCap 1 (rest x) (rest y) y))) x).
  rewrite exec_RChar_plain by exact Hi.
  destruct (rest x) as [|b t]; [reflexivity|].
  destruct (N.eqb 10 b); [|reflexivity].
  change (exec fl (RQuant 0 None true (RClass false [CSpace]))
            (fun y => c (setCap 1 (b :: t) (rest y) y)) (advance x b t))
    with (repeatMatcher (exec fl (RClass false [CSpace])) []
            (0 + length t + 1) 0 None true
            (fun y => c (setCap 1 (b :: t) (rest y) y))
            {| prev := Some b; rest := t; caps := caps x |}).
  rewrite repeat_class_star by lia.
  apply gstar_ext. apply classMatches_space.
Qed.

(** The repetitions of [blankBody], with [min] of them required. *)
Lemma blank_repeat (fl : flags) :
  ignoreCase fl = false ->
  forall fuel min x, (min + length (rest x) < fuel)%nat ->
    option_map rest
      (repeatMatcher (exec fl blankBody) [1%nat] fuel min None true accept x)
    = blankSpec min (rest x).
Proof.
  intros Hi. induction fuel as [|fuel IH]; intros min x Hf; [lia|].
  rewrite repeatMatcher_step. cbv zeta.
  set (xr := clearCaps [1%nat] x).
  rewrite blankBody_exec by exact Hi.
  change (rest xr) with (rest x).
  destruct (rest x) as [|b t] eqn:Hs.
  - (* nothing left *)
    destruct min as [|m']; cbn [Nat.eqb negb blankSpec startsLF andb];
      unfold accept; cbn [option_map]; rewrite ?Hs; reflexivity.
  - destruct (N.eqb 10 b) eqn:Eb.
    2:{ destruct min as [|m']; cbn [Nat.eqb negb blankSpec startsLF andb];
          unfold accept; cbn [option_map]; rewrite ?Eb, ?Hs; reflexivity. }
    assert (Hb : isSpace b = true).
    { apply N.eqb_eq in Eb. subst b. reflexivity. }
    assert (HE : dropWhile isSpace (b :: t) = dropWhile isSpace t).
    { cbn [dropWhile]. rewrite Hb. reflexivity. }
    assert (HW : countLF (takeWhile isSpace (b :: t))
                 = S (countLF (takeWhile isSpace t))).
    { cbn [takeWhile]. rewrite Hb. cbn [countLF]. rewrite Eb. reflexivity. }
    destruct min as [|m'].
    + (* no repetition is required *)
      cbn [Nat.eqb negb andb blankSpec startsLF]. rewrite Eb, HE.
      set (k := fun y : mstate =>
        (fun y0 : mstate =>
           if Nat.eqb (length (rest y0)) (length (b :: t)) then None
           else repeatMatcher (exec fl blankBody) [1%nat] fuel (Nat.pred 0)
                  (option_map Nat.pred None) true accept y0)
          (setCap 1 (b :: t) (rest y) y)).
      assert (Hk : exists z,
                k {| prev := lastOf (takeWhile isSpace t) (Some b);
                     rest := dropWhile isSpace t; caps := caps xr |} = Some z
                /\ rest z = dropWhile isSpace t).
      { unfold k. cbn [setCap rest].
        pose proof (dropWhile_length isSpace t) as Hl.
        replace (Nat.eqb (length (dropWhile isSpace t)) (length (b :: t)))
          with false by (symmetry; apply Nat.eqb_neq; lengths).
        cbn [Nat.pred option_map].
        set (y0 := setCap 1 (b :: t) (dropWhile isSpace t)
                     {| prev := lastOf (takeWhile isSpace t) (Some b);
                        rest := dropWhile isSpace t; caps := caps xr |}).
        assert (Hy0 : (0 + length (rest y0) < fuel)%nat) by (subst y0; lengths).
        pose proof (IH 0%nat y0 Hy0) as Ho.
        destruct (repeatMatcher (exec fl blankBody) [1%nat] fuel 0 None true accept y0)
          as [z|]; [|discriminate Ho].
        exists z. split; [reflexivity|].
        subst y0. cbn [option_map rest setCap blankSpec] in Ho.
        rewrite startsLF_dropped in Ho. injection Ho as Ho. exact Ho. }
      destruct Hk as (z & Hz & Hrest).
      change (gstar isSpace _ (Some b) (caps xr) t)
        with (gstar isSpace k (Some b) (caps xr) t).
      rewrite (gstar_longest isSpace k z t (Some b) (caps xr) Hz).
      cbn [option_map]. rewrite Hrest. reflexivity.
    + (* one more repetition is required *)
      cbn [Nat.eqb negb andb blankSpec startsLF Nat.pred option_map].
      rewrite Eb, HE, HW. cbn [andb].
      set (k := fun y : mstate =>
        repeatMatcher (exec fl blankBody) [1%nat] fuel m' None true accept
          (setCap 1 (b :: t) (rest y) y)).
      assert (Hk : forall pv v, (length v <= length t)%nat ->
                option_map rest (k {| prev := pv; rest := v; caps := caps xr |})
                = blankSpec m' v).
      { intros pv v Hv. unfold k.
        rewrite IH by lengths.
        reflexivity. }
      destruct m' as [|m''].
      * (* the required repetitions end here *)
        pose proof (Hk (lastOf (takeWhile isSpace t) (Some b))
                      (dropWhile isSpace t) (dropWhile_length isSpace t)) as H0.
        cbn [blankSpec] in H0. rewrite startsLF_dropped in H0.
        destruct (k {| prev := lastOf (takeWhile isSpace t) (Some b);
                       rest := dropWhile isSpace t; caps := caps xr |})
          as [z|] eqn:Hz; [|discriminate H0].
        rewrite (gstar_longest isSpace k z t (Some b) (caps xr) Hz).
        exact H0.
      * destruct (gstar isSpace k (Some b) (caps xr) t) as [z|] eqn:G.
        -- apply gstar_some in G.
           destruct G as (pre & v & pv' & Ht & Hp & Hz).
           pose proof (Hk pv' v ltac:(rewrite Ht, length_app; lengths)) as Hv.
           rewrite Hz in Hv. cbn [option_map blankSpec] in Hv.
           destruct (startsLF v && Nat.leb (S m'') (countLF (takeWhile isSpace v)))%bool
             eqn:Ec; [|discriminate Hv].
           apply andb_prop in Ec. destruct Ec as [_ Ec]. apply Nat.leb_le in Ec.
           assert (Hc : (S m'' <= countLF (takeWhile isSpace t))%nat).
           { rewrite Ht, (takeWhile_app_all isSpace pre v Hp), countLF_app. lia. }
           replace (Nat.leb (S (S m'')) (S (countLF (takeWhile isSpace t))))
             with true by (symmetry; apply Nat.leb_le; lia).
           cbn [option_map]. rewrite Hv.
           rewrite Ht, (dropWhile_app_all isSpace pre v Hp). reflexivity.
        -- destruct (Nat.leb (S (S m'')) (S (countLF (takeWhile isSpace t))))
             eqn:Ec; [|reflexivity].
           exfalso. apply Nat.leb_le in Ec.
           destruct (first_newline t ltac:(lia)) as (pre & v & Ht & Hp & Hv & Hc).
           pose proof (gstar_none isSpace k t (Some b) (caps xr) G pre v Ht Hp) as Hn.
           pose proof (Hk (lastOf pre (Some b)) v
                         ltac:(rewrite Ht, length_app; lengths)) as Hkv.
           rewrite Hn in Hkv. cbn [option_map blankSpec] in Hkv.
           rewrite Hv, Hc in Hkv. cbn [andb] in Hkv.
           replace (Nat.leb (S m'') (countLF (takeWhile isSpace t)))
             with true in Hkv by (symmetry; apply Nat.leb_le; lia).
           discriminate Hkv.
Qed.

Lemma blankRe_pattern : pattern blankRe = RQuant 3 None true blankBody.
Proof. vm_compute. reflexivity. Qed.

Lemma blankRe_matchAt (p : option char) (s : jsstring) :
  option_map rest (matchAt blankRe p s) = blankAt s.
Proof.
  unfold matchAt, blankAt. rewrite blankRe_pattern.
  change (exec (flag blankRe) (RQuant 3 None true blankBody) accept
            {| prev := p; rest := s; caps := [] |})
    with (repeatMatcher (exec (flag blankRe) blankBody) [1%nat]
            (3 + length s + 1) 3 None true accept
            {| prev := p; rest := s; caps := [] |}).
  rewrite (blank_repeat (flag blankRe) eq_refl) by (cbn [rest]; lia).
  reflexivity.
Qed.

Lemma replace_blankRe (s : jsstring) :
  replace blankRe [RLit [LF; LF]] s = scan (S (length s)) blankAt [LF; LF] s.
Proof.
  unfold replace. change (global (flag blankRe)) with true. cbv iota.
  apply (replaceLoop_scan blankRe [RLit [LF; LF]] blankAt eq_refl blankRe_matchAt).
Qed.

End Blank.

(** ** The normalization of the explain handler *)

Section Normalize.

Import CodeExplanation.

Ltac lengths := unfold jsstring, char in *; cbn [length] in *; lia.

Lemma blankAt_forward (s r : jsstring) : blankAt s = Some r -> suffixOf r s.
Proof.
  unfold blankAt.
  destruct (startsLF s && Nat.leb 3 (countLF (takeWhile isSpace s)))%bool;
    [|discriminate].
  intros H. injection H as <-. apply dropWhile_suffix.
Qed.

Lemma blankAt_shorter (s r : jsstring) :
  blankAt s = Some r -> (length r < length s)%nat.
Proof.
  unfold blankAt.
  destruct (startsLF s && Nat.leb 3 (countLF (takeWhile isSpace s)))%bool eqn:E;
    [|discriminate].
  intros H. injection H as <-.
  apply andb_prop in E. destruct E as [E _].
  destruct s as [|c t]; [discriminate E|]. cbn [startsLF] in E.
  apply N.eqb_eq in E. subst c.
  change (dropWhile isSpace (10%N :: t)) with (dropWhile isSpace t).
  pose proof (dropWhile_length isSpace t). lengths.
Qed.

Lemma blankAt_some (s r : jsstring) :
  blankAt s = Some r ->
  match r with c :: _ => isSpace c = false | [] => True end
  /\ (3 <= countLF (takeWhile isSpace s))%nat.
Proof.
  unfold blankAt.
  destruct (startsLF s && Nat.leb 3 (countLF (takeWhile isSpace s)))%bool eqn:E;
    [|discriminate].
  intros H. injection H as <-.
  apply andb_prop in E. destruct E as [_ E]. apply Nat.leb_le in E.
  split; [apply dropWhile_head|exact E].
Qed.

Lemma scan_blank_unfenced (fuel : nat) (s : jsstring) :
  fenced s = false -> fenced (scan fuel blankAt [LF; LF] s) = false.
Proof.
  apply scan_unfenced.
  - discriminate.
  - repeat constructor; discriminate.
  - exact blankAt_forward.
Qed.

(** Behind a code unit that is not white space the loop starts with it. *)
Lemma scan_blank_head (fuel : nat) (r : jsstring) :
  match r with c :: _ => isSpace c = false | [] => True end ->
  match scan fuel blankAt [LF; LF] r with
  | c :: _ => isSpace c = false
  | [] => True
  end.
Proof.
  intros H. destruct fuel as [|fuel]; [exact H|].
  destruct r as [|d r]; [exact I|]. cbn [scan].
  unfold blankAt. cbn [startsLF].
  destruct (N.eqb 10 d) eqn:E.
  { apply N.eqb_eq in E. subst d. discriminate H. }
  cbn [andb]. exact H.
Qed.

Lemma takeWhile_stop (P : char -> bool) (s : jsstring) :
  match s with c :: _ => P c = false | [] => True end -> takeWhile P s = [].
Proof.
  destruct s as [|c t]; [reflexivity|]. cbn [takeWhile]. intros ->. reflexivity.
Qed.

Lemma takeWhile_newline (X : jsstring) :
  takeWhile isSpace (LF :: X) = LF :: takeWhile isSpace X.
Proof. reflexivity. Qed.

Lemma countLF_newline (X : jsstring) : countLF (LF :: X) = S (countLF X).
Proof. reflexivity. Qed.

(** The loop does not add newlines to the white space it starts with. *)
Lemma scan_blank_count :
  forall fuel t, (length t < fuel)%nat ->
    (countLF (takeWhile isSpace (scan fuel blankAt [LF; LF] t))
     <= countLF (takeWhile isSpace t))%nat.
Proof.
  induction fuel as [|fuel IH]; intros t Hf; [lia|].
  destruct t as [|d t]; [cbn; lia|]. cbn [scan].
  destruct (blankAt (d :: t)) as [r|] eqn:E.
  - pose proof (blankAt_shorter _ _ E) as Hl.
    replace (Nat.eqb (length r) (length (d :: t))) with false
      by (symmetry; apply Nat.eqb_neq; lengths).
    destruct (blankAt_some _ _ E) as [Hr C].
    cbn [app]. rewrite !takeWhile_newline, !countLF_newline.
    rewrite (takeWhile_stop isSpace _ (scan_blank_head fuel r Hr)).
    cbn [countLF]. lia.
  - cbn [takeWhile]. destruct (isSpace d); [|cbn; lia].
    cbn [countLF]. specialize (IH t ltac:(lengths)).
    destruct (N.eqb 10 d); lia.
Qed.

Lemma blankFree_nil : blankFree [].
Proof.
  intros t [pre H]. destruct pre; [|discriminate H].
  cbn [app] in H. subst t. reflexivity.
Qed.

Lemma blankFree_cons (c : char) (s : jsstring) :
  blankAt (c :: s) = None -> blankFree s -> blankFree (c :: s).
Proof.
  intros Hc Hs t [pre H]. destruct pre as [|d pre].
  - cbn [app] in H. subst t. exact Hc.
  - cbn [app] in H. injection H as _ ->. apply Hs. exists pre. reflexivity.
Qed.

Lemma blankFree_suffix (t s : jsstring) : suffixOf t s -> blankFree s -> blankFree t.
Proof.
  intros Ht Hs u Hu. apply Hs. eapply suffixOf_trans; eauto.
Qed.

Lemma blankAt_few (s : jsstring) :
  (countLF (takeWhile isSpace s) < 3)%nat -> blankAt s = None.
Proof.
  intros H. unfold blankAt.
  replace (Nat.leb 3 (countLF (takeWhile isSpace s))) with false
    by (symmetry; apply Nat.leb_gt; exact H).
  rewrite andb_false_r. reflexivity.
Qed.

(** In what the replacement returns the pattern matches nowhere. *)
Lemma scan_blank_free :
  forall fuel s, (length s < fuel)%nat -> blankFree (scan fuel blankAt [LF; LF] s).
Proof.
  induction fuel as [|fuel IH]; intros s Hf; [lia|].
  destruct s as [|c t]; [apply blankFree_nil|]. cbn [scan].
  destruct (blankAt (c :: t)) as [r|] eqn:E.
  - pose proof (blankAt_shorter _ _ E) as Hl.
    replace (Nat.eqb (length r) (length (c :: t))) with false
      by (symmetry; apply Nat.eqb_neq; lengths).
    destruct (blankAt_some _ _ E) as [Hr _].
    pose proof (takeWhile_stop isSpace _ (scan_blank_head fuel r Hr)) as Hw.
    cbn [app].
    apply blankFree_cons; [|apply blankFree_cons; [|apply IH; lengths]].
    + apply blankAt_few. rewrite !takeWhile_newline, !countLF_newline, Hw.
      cbn [countLF]. lia.
    + apply blankAt_few. rewrite !takeWhile_newline, !countLF_newline, Hw.
      cbn [countLF]. lia.
  - apply blankFree_cons; [|apply IH; lengths].
    destruct (N.eqb 10 c) eqn:Ec.
    + assert (C : (countLF (takeWhile isSpace (c :: t)) < 3)%nat).
      { unfold blankAt in E. cbn [startsLF] in E. rewrite Ec in E.
        cbn [andb] in E.
        destruct (Nat.leb 3 (countLF (takeWhile isSpace (c :: t)))) eqn:C;
          [discriminate E|].
        apply Nat.leb_gt in C. exact C. }
      assert (Hs : isSpace c = true).
      { apply N.eqb_eq in Ec. subst c. reflexivity. }
      apply blankAt_few.
      cbn [takeWhile] in *. rewrite Hs in *. cbn [countLF] in *. rewrite Ec in *.
      pose proof (scan_blank_count fuel t ltac:(lengths)) as Hc. lia.
    + unfold blankAt. cbn [startsLF]. rewrite Ec. reflexivity.
Qed.

Lemma takeWhile_app_stop (P : char -> bool) (t w : jsstring) (c : char) :
  In c t -> P c = false -> takeWhile P (t ++ w) = takeWhile P t.
Proof.
  induction t as [|d t IH]; intros Hin Hc; [contradiction|].
  cbn [app takeWhile]. destruct (P d) eqn:E; [|reflexivity].
  f_equal. apply IH; [|exact Hc].
  destruct Hin as [->|Hin]; [congruence|exact Hin].
Qed.

(** Trimming brings no match of the pattern. *)
Lemma trim_blankFree (s : jsstring) : blankFree s -> blankFree (trim s).
Proof.
  intros H. unfold trim.
  assert (Hu : blankFree (trimStart s))
    by (eapply blankFree_suffix; [apply dropWhile_suffix|exact H]).
  set (u := trimStart s) in *. clearbody u. clear H s.
  unfold trimEnd.
  destruct (dropWhile_suffix isSpace (rev u)) as [q Hq].
  pose proof (dropWhile_head isSpace (rev u)) as Hh.
  set (v := dropWhile isSpace (rev u)) in *. clearbody v.
  assert (Hu' : u = rev v ++ rev q).
  { rewrite <- rev_app_distr, <- Hq, rev_involutive. reflexivity. }
  intros t [pre Ht].
  destruct t as [|a t']; [reflexivity|].
  assert (Hsuf : suffixOf ((a :: t') ++ rev q) u).
  { exists pre. rewrite Hu', Ht, <- app_assoc. reflexivity. }
  pose proof (Hu _ Hsuf) as Hb.
  (* the last code unit of [t] is not white space *)
  destruct v as [|l v'].
  { cbn [rev] in Ht. destruct pre; discriminate Ht. }
  assert (Hin : In l (a :: t')).
  { assert (Hrev : rev (rev (l :: v')) = rev (a :: t') ++ rev pre)
      by (rewrite Ht, rev_app_distr; reflexivity).
    rewrite rev_involutive in Hrev.
    destruct (rev (a :: t')) as [|x xs] eqn:Er.
    - apply (f_equal (@length char)) in Er. rewrite length_rev in Er. discriminate Er.
    - cbn [app] in Hrev. injection Hrev as -> _.
      apply in_rev. rewrite Er. left. reflexivity. }
  unfold blankAt in *.
  rewrite (takeWhile_app_stop isSpace (a :: t') (rev q) l Hin Hh) in Hb.
  cbn [app startsLF] in Hb. cbn [startsLF].
  destruct (N.eqb 10 a && Nat.leb 3 (countLF (takeWhile isSpace (a :: t'))))%bool;
    [discriminate Hb|reflexivity].
Qed.

Lemma cleanOutput_steps (x : jsstring) :
  cleanOutput x
  = trim (replace blankRe [RLit [LF; LF]]
            (replace breaksRe [RLit [LF]]
               (replace ticksRe [] (replace fenceRe [] x)))).
Proof. reflexivity. Qed.

(** What a normalized text is like. *)
Lemma cleanOutput_shape (x : jsstring) :
  fenced (cleanOutput x) = false
  /\ noCR (cleanOutput x)
  /\ blankFree (cleanOutput x)
  /\ trim (cleanOutput x) = cleanOutput x.
Proof.
  rewrite cleanOutput_steps.
  assert (H1 : fenced (replace fenceRe [] x) = false).
  { rewrite replace_fenceRe. apply scan_fence_clean. lia. }
  destruct (unfenced_fixed _ H1) as [_ H2]. rewrite H2.
  set (a := replace fenceRe [] x) in *. clearbody a.
  assert (H3 : fenced (replace breaksRe [RLit [LF]] a) = false).
  { rewrite replace_breaksRe. apply scan_breaks_unfenced, H1. }
  assert (H4 : noCR (replace breaksRe [RLit [LF]] a)).
  { rewrite replace_breaksRe. apply scan_breaks_noCR. lia. }
  set (b := replace breaksRe [RLit [LF]] a) in *. clearbody b.
  assert (H5 : fenced (replace blankRe [RLit [LF; LF]] b) = false).
  { rewrite replace_blankRe. apply scan_blank_unfenced, H3. }
  assert (H6 : noCR (replace blankRe [RLit [LF; LF]] b)).
  { apply replace_Forall; [|exact H4].
    repeat constructor; discriminate. }
  assert (H7 : blankFree (replace blankRe [RLit [LF; LF]] b)).
  { rewrite replace_blankRe. apply scan_blank_free. lia. }
  set (c := replace blankRe [RLit [LF; LF]] b) in *. clearbody c.
  split; [apply trim_unfenced, H5|].
  split; [apply trim_Forall, H6|].
  split; [apply trim_blankFree, H7|].
  apply trim_trim.
Qed.

(** A normalized text without a blank line is a fixed point. *)
Lemma cleanOutput_fixed (x : jsstring) :
  hasBlankLine (cleanOutput x) = false ->
  cleanOutput (cleanOutput x) = cleanOutput x.
Proof.
  intros Hb.
  destruct (cleanOutput_shape x) as (Hf & Hcr & Hfree & Ht).
  set (y := cleanOutput x) in *. clearbody y.
  rewrite cleanOutput_steps.
  destruct (unfenced_fixed y Hf) as [E1 E2]. rewrite E1, E2.
  rewrite replace_breaksRe.
  rewrite (scan_breaks_fixed _ y (singleBreaks_intro y Hcr Hb)).
  rewrite replace_blankRe.
  rewrite (scan_nowhere blankAt [LF; LF] _ y Hfree).
  exact Ht.
Qed.

End Normalize.

(** ** A second normalization of a text with a blank line is shorter *)

Section Shrinks.

Import CodeExplanation.

Ltac lengths := unfold jsstring, char in *; cbn [length app] in *; lia.

Lemma countLF_length (s : jsstring) : (countLF s <= length s)%nat.
Proof.
  induction s as [|c t IH]; cbn [countLF length]; [lia|].
  destruct (N.eqb 10 c); lia.
Qed.

Lemma blankAt_three (s r : jsstring) :
  blankAt s = Some r -> (length r + 3 <= length s)%nat.
Proof.
  intros E. unfold blankAt in E.
  destruct (startsLF s && Nat.leb 3 (countLF (takeWhile isSpace s)))%bool eqn:C;
    [|discriminate E].
  injection E as <-. apply andb_prop in C. destruct C as [_ C].
  apply Nat.leb_le in C.
  pose proof (countLF_length (takeWhile isSpace s)) as Hc.
  pose proof (f_equal (@length char) (takeWhile_dropWhile isSpace s)) as Hl.
  rewrite length_app in Hl. lengths.
Qed.

Lemma trim_length (s : jsstring) : (length (trim s) <= length s)%nat.
Proof.
  unfold trim, trimEnd, trimStart. rewrite length_rev.
  pose proof (dropWhile_length isSpace (rev (dropWhile isSpace s))) as H1.
  rewrite length_rev in H1.
  pose proof (dropWhile_length isSpace s) as H2. lengths.
Qed.

Lemma scan_breaks_length :
  forall fuel s, (length s < fuel)%nat ->
    (length (scan fuel breaksAt [LF] s) <= length s)%nat.
Proof.
  induction fuel as [|fuel IH]; intros s Hf; [lia|].
  destruct s as [|c t]; [cbn; lia|].
  cbn [scan breaksAt]. destruct (isBreak c).
  - pose proof (dropWhile_length isBreak t) as Hl.
    replace (Nat.eqb (length (dropWhile isBreak t)) (length (c :: t))) with false
      by (symmetry; apply Nat.eqb_neq; lengths).
    pose proof (IH (dropWhile isBreak t) ltac:(lengths)) as Hi. lengths.
  - pose proof (IH t ltac:(lengths)) as Hi. lengths.
Qed.

(** Two newlines in a row are one match of [breaksRe], and one newline
    comes back for them. *)
Lemma scan_breaks_shrinks :
  forall fuel s, (length s < fuel)%nat -> hasBlankLine s = true ->
    (length (scan fuel breaksAt [LF] s) < length s)%nat.
Proof.
  unfold hasBlankLine.
  induction fuel as [|fuel IH]; intros s Hf Hb; [lia|].
  destruct s as [|c t]; [discriminate Hb|].
  cbn [includes] in Hb. cbn [scan breaksAt].
  destruct (isBreak c) eqn:Ec.
  - pose proof (dropWhile_length isBreak t) as Hl.
    replace (Nat.eqb (length (dropWhile isBreak t)) (length (c :: t))) with false
      by (symmetry; apply Nat.eqb_neq; lengths).
    destruct t as [|d u].
    { cbn in Hb. rewrite andb_false_r in Hb. discriminate Hb. }
    destruct (isBreak d) eqn:Ed.
    + cbn [dropWhile] in *. rewrite Ed in *.
      pose proof (dropWhile_length isBreak u) as Hu.
      pose proof (scan_breaks_length fuel (dropWhile isBreak u) ltac:(lengths)) as Hi.
      lengths.
    + assert (Hs : startsWith [LF; LF] (c :: d :: u) = false).
      { cbn [startsWith]. unfold isBreak in Ed.
        apply orb_false_elim in Ed. destruct Ed as [_ Ed].
        change LF with 10%N. rewrite Ed, andb_false_l, andb_false_r. reflexivity. }
      rewrite Hs in Hb. cbn [orb] in Hb.
      cbn [dropWhile]. rewrite Ed.
      pose proof (IH (d :: u) ltac:(lengths) Hb) as Hi. lengths.
  - assert (Hs : startsWith [LF; LF] (c :: t) = false).
    { cbn [startsWith]. unfold isBreak in Ec.
      apply orb_false_elim in Ec. destruct Ec as [_ Ec].
      change LF with 10%N. rewrite Ec. reflexivity. }
    rewrite Hs in Hb. cbn [orb] in Hb.
    pose proof (IH t ltac:(lengths) Hb) as Hi. lengths.
Qed.

Lemma scan_blank_length :
  forall fuel s, (length s < fuel)%nat ->
    (length (scan fuel blankAt [LF; LF] s) <= length s)%nat.
Proof.
  induction fuel as [|fuel IH]; intros s Hf; [lia|].
  destruct s as [|c t]; [cbn; lia|]. cbn [scan].
  destruct (blankAt (c :: t)) as [r|] eqn:E.
  - pose proof (blankAt_three _ _ E) as Hl.
    replace (Nat.eqb (length r) (length (c :: t))) with false
      by (symmetry; apply Nat.eqb_neq; lengths).
    pose proof (IH r ltac:(lengths)) as Hi. lengths.
  - pose proof (IH t ltac:(lengths)) as Hi. lengths.
Qed.

(** A normalized text that has a blank line is not a fixed point. *)
Lemma cleanOutput_moves (x : jsstring) :
  hasBlankLine (cleanOutput x) = true ->
  cleanOutput (cleanOutput x) <> cleanOutput x.
Proof.
  intros Hb.
  destruct (cleanOutput_shape x) as (Hf & _).
  set (y := cleanOutput x) in *. clearbody y.
  rewrite cleanOutput_steps.
  destruct (unfenced_fixed y Hf) as [E1 E2]. rewrite E1, E2.
  rewrite replace_breaksRe, replace_blankRe.
  intros Heq. apply (f_equal (@length char)) in Heq.
  pose proof (scan_breaks_shrinks (S (length y)) y ltac:(lia) Hb) as H1.
  set (b := scan (S (length y)) breaksAt [LF] y) in *.
  pose proof (scan_blank_length (S (length b)) b ltac:(lia)) as H2.
  pose proof (trim_length (scan (S (length b)) blankAt [LF; LF] b)) as H3.
  lengths.
Qed.

(** The normalization of the explanation page repeats on its own result
    exactly where that result has no blank line. *)
Lemma cleanOutput_fixed_iff (x : jsstring) :
  cleanOutput (cleanOutput x) = cleanOutput x
  <-> hasBlankLine (cleanOutput x) = false.
Proof.
  split.
  - intros H. destruct (hasBlankLine (cleanOutput x)) eqn:E; [|reflexivity].
    exfalso. exact (cleanOutput_moves x E H).
  - apply cleanOutput_fixed.
Qed.

End Shrinks.

(** ** The normalization applied twice *)

Section Idempotence.

Import CodeExplanation.

(** An answer in a fence: the fence and the doubled line break go, and a
    second normalization finds nothing left to do. *)
Example cleanOutput_fenced_answer :
  cleanOutput (lit "```js" ++ [LF] ++ lit "// adds" ++ [CR; LF; LF]
               ++ lit "function add(a, b) { return a + b }" ++ [LF]
               ++ lit "```" ++ [LF])
  = lit "// adds" ++ [LF] ++ lit "function add(a, b) { return a + b }"
  /\ cleanOutput (lit "// adds" ++ [LF] ++ lit "function add(a, b) { return a + b }")
     = lit "// adds" ++ [LF] ++ lit "function add(a, b) { return a + b }".
Proof. vm_compute. split; reflexivity. Qed.

Example stripFences_fenced_answer :
  TestGenerator.stripFences
    (lit "```js" ++ [LF] ++ lit "test('adds', () => {})" ++ [LF; LF; LF]
     ++ lit "test('subtracts', () => {})" ++ [LF] ++ lit "```")
  = lit "test('adds', () => {})" ++ [LF; LF; LF] ++ lit "test('subtracts', () => {})".
Proof. vm_compute. reflexivity. Qed.

(** C1, as stated, fails for the normalization of the explanation page:
    three newlines with a space between them are no run of line breaks,
    so the blank-line step turns them into two newlines; normalized again,
    these two newlines are a run of line breaks and become one. *)
Lemma cleanOutput_not_idempotent :
  cleanOutput (lit "a" ++ [LF; SP; LF; SP; LF] ++ lit "b")
  = lit "a" ++ [LF; LF] ++ lit "b"
  /\ cleanOutput (lit "a" ++ [LF; LF] ++ lit "b") = lit "a" ++ [LF] ++ lit "b"
  /\ cleanOutput (cleanOutput (lit "a" ++ [LF; SP; LF; SP; LF] ++ lit "b"))
     <> cleanOutput (lit "a" ++ [LF; SP; LF; SP; LF] ++ lit "b").
Proof.
  vm_compute. split; [reflexivity|]. split; [reflexivity|].
  intros H. discriminate H.
Qed.

(** C1, amended: for every text [x], the normalization of the test
    generator (fence markers stripped, ends trimmed) applied twice gives
    what it gives applied once; the normalization of the explanation page
    (fence markers stripped, line breaks collapsed, blank lines collapsed,
    ends trimmed) applied twice gives what it gives applied once exactly
    when its result has no blank line, that is no two newlines in a row. *)
Theorem normalize_twice (x : jsstring) :
  TestGenerator.stripFences (TestGenerator.stripFences x)
  = TestGenerator.stripFences x
  /\ (cleanOutput (cleanOutput x) = cleanOutput x
      <-> hasBlankLine (cleanOutput x) = false).
Proof.
  split.
  - apply stripFences_idempotent.
  - apply cleanOutput_fixed_iff.
Qed.

End Idempotence.

(* ===================================================================== *)
(** * The matcher finds what the pattern matches *)
(* ===================================================================== *)

Section Semantics.

Lemma reps_forward (R : mstate -> mstate -> Prop) (inner : list nat) :
  (forall x y, R x y -> suffixOf (rest y) (rest x)) ->
  forall min max x z, reps R inner min max x z -> suffixOf (rest z) (rest x).
Proof.
  intros HR min max x z H. induction H as [min max x _|min max x y z _ Hxy _ _ IH].
  - apply suffixOf_refl.
  - eapply suffixOf_trans; [exact IH|]. apply HR in Hxy. exact Hxy.
Qed.

Lemma derives_forward (fl : flags) (r : regex) :
  forall x z, derives fl r x z -> suffixOf (rest z) (rest x).
Proof.
  induction r as [ | a | | inv items | | | | a IHa b IHb | a IHa b IHb
                 | min max greedy a IHa | i a IHa ];
    intros x z H; cbn [derives] in H.
  - subst z. apply suffixOf_refl.
  - destruct H as (b & t & E & _ & ->). cbn. rewrite E. apply suffixOf_cons.
  - destruct H as (b & t & E & _ & ->). cbn. rewrite E. apply suffixOf_cons.
  - destruct H as (b & t & E & _ & ->). cbn. rewrite E. apply suffixOf_cons.
  - destruct H as [-> _]. apply suffixOf_refl.
  - destruct H as [-> _]. apply suffixOf_refl.
  - destruct H as [-> _]. apply suffixOf_refl.
  - destruct H as (y & Ha & Hb).
    eapply suffixOf_trans; [apply IHb, Hb|apply IHa, Ha].
  - destruct H as [H|H]; [apply IHa, H|apply IHb, H].
  - eapply reps_forward; [|exact H]. intros x' y' Hxy.
    apply IHa in Hxy. exact Hxy.
  - destruct H as (y & Ha & ->). cbn. apply IHa, Ha.
Qed.

Lemma repeatMatcher_sound (R : mstate -> mstate -> Prop)
  (m : continuation -> mstate -> option mstate) (inner : list nat) (greedy : bool) :
  sound R m ->
  forall fuel min max, sound (reps R inner min max)
                         (repeatMatcher m inner fuel min max greedy).
Proof.
  intros Hm. induction fuel as [|fuel IH]; intros min max c x z H.
  - discriminate H.
  - cbn [repeatMatcher] in H.
    set (d := fun y : mstate =>
      if (Nat.eqb min 0 && Nat.eqb (length (rest y)) (length (rest x)))%bool
      then None
      else repeatMatcher m inner fuel (Nat.pred min) (option_map Nat.pred max)
             greedy c y) in H.
    assert (Hbody : max <> Some 0%nat -> m d (clearCaps inner x) = Some z ->
              exists y, reps R inner min max x y /\ c y = Some z).
    { intros Hmax Hb. apply Hm in Hb. destruct Hb as (y & Hy & Hd).
      unfold d in Hd.
      destruct (Nat.eqb min 0 && Nat.eqb (length (rest y)) (length (rest x)))%bool
        eqn:E; [discriminate Hd|].
      apply IH in Hd. destruct Hd as (y' & Hy' & Hc).
      exists y'. split; [|exact Hc].
      eapply reps_step; [exact Hmax|exact Hy| |exact Hy'].
      intros -> Hl. cbn [Nat.eqb andb] in E. rewrite Hl, Nat.eqb_refl in E.
      discriminate E. }
    assert (Hstop : min = 0%nat \/ max = Some 0%nat -> c x = Some z ->
              exists y, reps R inner min max x y /\ c y = Some z).
    { intros Hmin Hc. exists x. split; [apply reps_stop, Hmin|exact Hc]. }
    destruct max as [[|k]|].
    + apply Hstop; [right; reflexivity|exact H].
    + destruct (Nat.eqb min 0) eqn:Emin; cbn [negb] in H.
      * apply Nat.eqb_eq in Emin. destruct greedy.
        -- destruct (m d (clearCaps inner x)) eqn:E.
           ++ apply Hbody; [discriminate|congruence].
           ++ apply Hstop; [left; exact Emin|exact H].
        -- destruct (c x) eqn:E.
           ++ apply Hstop; [left; exact Emin|congruence].
           ++ apply Hbody; [discriminate|exact H].
      * apply Hbody; [discriminate|exact H].
    + destruct (Nat.eqb min 0) eqn:Emin; cbn [negb] in H.
      * apply Nat.eqb_eq in Emin. destruct greedy.
        -- destruct (m d (clearCaps inner x)) eqn:E.
           ++ apply Hbody; [discriminate|congruence].
           ++ apply Hstop; [left; exact Emin|exact H].
        -- destruct (c x) eqn:E.
           ++ apply Hstop; [left; exact Emin|congruence].
           ++ apply Hbody; [discriminate|exact H].
      * apply Hbody; [discriminate|exact H].
Qed.

(** Whatever the matcher returns, the pattern matches up to a state that
    the continuation accepted. *)
Lemma exec_sound (fl : flags) (r : regex) : sound (derives fl r) (exec fl r).
Proof.
  induction r as [ | a | | inv items | | | | a IHa b IHb | a IHa b IHb
                 | min max greedy a IHa | i a IHa ];
    intros c x z H; cbn [exec] in H; cbn [derives].
  - exists x. split; [reflexivity|exact H].
  - destruct (rest x) as [|b t] eqn:E; [discriminate H|].
    destruct (N.eqb (canon fl a) (canon fl b)) eqn:Eb; [|discriminate H].
    exists (advance x b t). split; [|exact H]. exists b, t. auto.
  - destruct (rest x) as [|b t] eqn:E; [discriminate H|].
    destruct (isLineTerminator b) eqn:Eb; [discriminate H|].
    exists (advance x b t). split; [|exact H]. exists b, t. auto.
  - destruct (rest x) as [|b t] eqn:E; [discriminate H|].
    destruct (classMatches fl inv items b) eqn:Eb; [|discriminate H].
    exists (advance x b t). split; [|exact H]. exists b, t. auto.
  - exists x. destruct (prev x) as [p|]; [|auto].
    destruct (multiline fl && isLineTerminator p)%bool; [auto|discriminate H].
  - exists x. destruct (rest x) as [|b t]; [auto|].
    destruct (multiline fl && isLineTerminator b)%bool; [auto|discriminate H].
  - exists x.
    destruct (xorb (isWordOpt (prev x)) (isWordOpt (hd_error (rest x))));
      [auto|discriminate H].
  - apply IHa in H. destruct H as (y & Hy & H).
    apply IHb in H. destruct H as (y' & Hy' & H).
    exists y'. split; [exists y; auto|exact H].
  - destruct (exec fl a c x) eqn:E.
    + injection H as ->. apply IHa in E. destruct E as (y & Hy & Hc).
      exists y. auto.
    + apply IHb in H. destruct H as (y & Hy & Hc). exists y. auto.
  - eapply repeatMatcher_sound; [exact IHa|exact H].
  - apply IHa in H. destruct H as (y & Hy & H).
    exists (setCap i (rest x) (rest y) y). split; [exists y; auto|exact H].
Qed.

Lemma repeatMatcher_complete (R : mstate -> mstate -> Prop)
  (m : continuation -> mstate -> option mstate) (inner : list nat) (greedy : bool)
  (c : continuation) :
  complete R m ->
  (forall x y, R x y -> suffixOf (rest y) (rest x)) ->
  forall min max x z, reps R inner min max x z -> c z <> None ->
    forall fuel, (min + length (rest x) < fuel)%nat ->
      repeatMatcher m inner fuel min max greedy c x <> None.
Proof.
  intros Hm HR min max x z H Hc.
  induction H as [min max x Hstop|min max x y z Hmax Hxy Hprog Hit IH];
    intros fuel Hf; (destruct fuel as [|fuel]; [lia|]); cbn [repeatMatcher].
  - destruct max as [[|k]|]; [exact Hc| |].
    + destruct Hstop as [->|Hk]; [|discriminate Hk]. cbn [Nat.eqb negb].
      destruct greedy.
      * destruct (m _ (clearCaps inner x)); [discriminate|exact Hc].
      * destruct (c x); [discriminate|contradiction].
    + destruct Hstop as [->|Hk]; [|discriminate Hk]. cbn [Nat.eqb negb].
      destruct greedy.
      * destruct (m _ (clearCaps inner x)); [discriminate|exact Hc].
      * destruct (c x); [discriminate|contradiction].
  - specialize (IH Hc).
    set (d := fun y : mstate =>
      if (Nat.eqb min 0 && Nat.eqb (length (rest y)) (length (rest x)))%bool
      then None
      else repeatMatcher m inner fuel (Nat.pred min) (option_map Nat.pred max)
             greedy c y).
    assert (Hd : d y <> None).
    { unfold d. pose proof (suffixOf_length _ _ (HR _ _ Hxy)) as Hl.
      cbn [clearCaps rest] in Hl.
      destruct (Nat.eqb min 0) eqn:Emin; cbn [andb].
      - apply Nat.eqb_eq in Emin. specialize (Hprog Emin).
        replace (Nat.eqb (length (rest y)) (length (rest x))) with false
          by (symmetry; apply Nat.eqb_neq; exact Hprog).
        apply IH. subst min. cbn [Nat.pred]. lia.
      - apply Nat.eqb_neq in Emin. apply IH. lia. }
    pose proof (Hm d _ _ Hxy Hd) as Hb.
    destruct max as [[|k]|]; [contradiction Hmax; reflexivity| |].
    + destruct (negb (Nat.eqb min 0)); [exact Hb|].
      destruct greedy.
      * destruct (m d (clearCaps inner x)); [discriminate|contradiction].
      * destruct (c x); [discriminate|exact Hb].
    + destruct (negb (Nat.eqb min 0)); [exact Hb|].
      destruct greedy.
      * destruct (m d (clearCaps inner x)); [discriminate|contradiction].
      * destruct (c x); [discriminate|exact Hb].
Qed.

(** Whenever the pattern matches up to a state that the continuation
    accepts, the matcher returns a match. *)
Lemma exec_complete (fl : flags) (r : regex) : complete (derives fl r) (exec fl r).
Proof.
  induction r as [ | a | | inv items | | | | a IHa b IHb | a IHa b IHb
                 | min max greedy a IHa | i a IHa ];
    intros c x y H Hc; cbn [derives] in H; cbn [exec].
  - subst y. exact Hc.
  - destruct H as (b & t & E & Eb & ->). rewrite E, Eb. exact Hc.
  - destruct H as (b & t & E & Eb & ->). rewrite E, Eb. exact Hc.
  - destruct H as (b & t & E & Eb & ->). rewrite E, Eb. exact Hc.
  - destruct H as [-> H]. destruct (prev x) as [p|]; [|exact Hc].
    rewrite H. exact Hc.
  - destruct H as [-> H]. destruct (rest x) as [|b t]; [exact Hc|].
    rewrite H. exact Hc.
  - destruct H as [-> H]. rewrite H. exact Hc.
  - destruct H as (y' & Ha & Hb). apply (IHa _ _ _ Ha). apply (IHb _ _ _ Hb Hc).
  - destruct H as [H|H].
    + pose proof (IHa _ _ _ H Hc) as Ha.
      destruct (exec fl a c x); [discriminate|contradiction].
    + destruct (exec fl a c x); [discriminate|]. apply (IHb _ _ _ H Hc).
  - eapply repeatMatcher_complete; [exact IHa| |exact H|exact Hc|lia].
    apply derives_forward.
  - destruct H as (y' & Ha & ->). apply (IHa _ _ _ Ha). exact Hc.
Qed.

Lemma lastOf_cons (c : char) (pre : jsstring) (p : option char) :
  lastOf (c :: pre) p = lastOf pre (Some c).
Proof. unfold lastOf. cbn [rev]. destruct (rev pre); reflexivity. Qed.

Lemma lastOf_snoc (pre : jsstring) (c : char) (p : option char) :
  lastOf (pre ++ [c]) p = Some c.
Proof. unfold lastOf. rewrite rev_app_distr. reflexivity. Qed.

Lemma search_sound (re : RegExp) :
  forall s p sk st y, search re p s = Some (sk, st, y) ->
    s = sk ++ st /\ matchAt re (lastOf sk p) st = Some y.
Proof.
  induction s as [|c t IH]; intros p sk st y H; cbn [search] in H.
  - destruct (matchAt re p []) eqn:E; [|discriminate H].
    injection H as <- <- <-. auto.
  - destruct (matchAt re p (c :: t)) eqn:E.
    + injection H as <- <- <-. auto.
    + destruct (search re (Some c) t) as [[[sk' st'] y']|] eqn:E'; [|discriminate H].
      injection H as <- <- <-. apply IH in E'. destruct E' as [-> Hm].
      rewrite lastOf_cons. auto.
Qed.

Lemma search_complete (re : RegExp) (suf : jsstring) :
  forall pre p, matchAt re (lastOf pre p) suf <> None ->
    search re p (pre ++ suf) <> None.
Proof.
  induction pre as [|c pre IH]; intros p H.
  - cbn [app]. unfold lastOf in H. cbn [rev] in H.
    destruct suf; cbn [search]; destruct (matchAt re p _); try discriminate;
      contradiction.
  - cbn [app search]. destruct (matchAt re p (c :: pre ++ suf)); [discriminate|].
    rewrite lastOf_cons in H. specialize (IH (Some c) H).
    destruct (search re (Some c) (pre ++ suf)) as [[[? ?] ?]|];
      [discriminate|contradiction].
Qed.

(** [test] says whether the pattern matches somewhere. *)
Lemma test_matchesIn (re : RegExp) (s : jsstring) :
  test re s = true <-> matchesIn re s.
Proof.
  unfold test, matchesIn. split.
  - destruct (search re None s) as [[[sk st] y]|] eqn:E; [|discriminate].
    intros _. apply search_sound in E. destruct E as [-> Hm].
    unfold matchAt in Hm. apply exec_sound in Hm.
    destruct Hm as (y' & Hy' & _). exists sk, st, y'. auto.
  - intros (pre & suf & y & -> & H).
    assert (Hm : matchAt re (lastOf pre None) suf <> None).
    { unfold matchAt. apply (exec_complete _ _ _ _ _ H). discriminate. }
    pose proof (search_complete re suf pre None Hm) as Hs.
    destruct (search re None (pre ++ suf)); [reflexivity|contradiction].
Qed.

End Semantics.

(* ===================================================================== *)
(** * Runs of code units *)
(* ===================================================================== *)

Section Runs.

Lemma lastOf_None (pre : jsstring) : lastOf pre None = None -> pre = [].
Proof.
  destruct pre as [|c pre] using rev_ind; [reflexivity|].
  rewrite lastOf_snoc. discriminate.
Qed.

Lemma after_nil (x : mstate) : after x [] (rest x) = x.
Proof. destruct x. reflexivity. Qed.

Lemma after_advance (x : mstate) (b : char) (t run u : jsstring) :
  after (advance x b t) run u = after x (b :: run) u.
Proof. unfold after, advance. cbn [prev caps]. rewrite lastOf_cons. reflexivity. Qed.

Lemma after_after (x : mstate) (r1 t1 r2 t2 : jsstring) :
  after (after x r1 t1) r2 t2 = after x (r1 ++ r2) t2.
Proof.
  unfold after. cbn [prev caps]. f_equal.
  unfold lastOf. rewrite rev_app_distr.
  destruct (rev r2); [|reflexivity]. cbn [app]. reflexivity.
Qed.

Lemma advance_after (x : mstate) (b : char) (t : jsstring) :
  advance x b t = after x [b] t.
Proof. reflexivity. Qed.

(** Repetitions of a one-unit matcher consume a run. *)
Lemma reps_run (Q : char -> Prop) (min : nat) (max : option nat) (x z : mstate) :
  reps (step Q) [] min max x z -> within max min ->
  exists run, rest x = run ++ rest z /\ z = after x run (rest z)
    /\ Forall Q run /\ (min <= length run)%nat /\ within max (length run).
Proof.
  intros H. induction H as [min max x Hstop|min max x y z Hmax Hxy _ _ IH];
    intros Hw.
  - exists []. cbn [app length]. rewrite after_nil.
    repeat split; [constructor| |].
    + destruct Hstop as [Hs|Hs]; subst; [lia|]. cbn [within] in Hw. exact Hw.
    + destruct max; cbn [within]; [lia|exact I].
  - rewrite clearCaps_nil in Hxy. destruct Hxy as (b & t & E & Hb & ->).
    assert (Hw' : within (option_map Nat.pred max) (Nat.pred min)).
    { destruct max as [k|]; cbn [within option_map] in *; [lia|exact I]. }
    destruct (IH Hw') as (run & Hr & Hz & Hq & Hmin & Hmax').
    cbn [advance rest] in Hr. exists (b :: run).
    split; [rewrite E, Hr; reflexivity|].
    split; [rewrite <- after_advance with (t := t); exact Hz|].
    split; [constructor; assumption|].
    split; [cbn [length]; lia|].
    destruct max as [k|]; cbn [within option_map length] in *; [|exact I].
    destruct k; [contradiction Hmax; reflexivity|]. cbn [Nat.pred] in Hmax'. lia.
Qed.

(** A run within the bounds is consumed by the repetitions. *)
Lemma run_reps (Q : char -> Prop) (t : jsstring) :
  forall run min max x, rest x = run ++ t -> Forall Q run ->
    (min <= length run)%nat -> within max (length run) ->
    reps (step Q) [] min max x (after x run t).
Proof.
  induction run as [|b run IH]; intros min max x Hx Hq Hmin Hmax.
  - cbn [app] in Hx. rewrite <- Hx, after_nil. apply reps_stop.
    left. cbn [length] in Hmin. lia.
  - inversion Hq as [|? ? Hb Hq']; subst.
    apply reps_step with (y := advance x b (run ++ t)).
    + destruct max as [k|]; [|discriminate]. cbn [within length] in Hmax.
      intros E. injection E as ->. lia.
    + rewrite clearCaps_nil. exists b, (run ++ t). auto.
    + intros _. cbn [advance rest]. rewrite Hx. cbn [app length]. lia.
    + rewrite <- after_advance with (t := run ++ t).
      apply IH; [reflexivity|exact Hq'| |].
      * cbn [length] in Hmin. lia.
      * destruct max as [k|]; cbn [within option_map length] in *; [lia|exact I].
Qed.

End Runs.

(* ===================================================================== *)
(** * The validators of errorHandler.ts *)
(* ===================================================================== *)

Section Email.

Import ErrorUtils.

Lemma emailRe_pattern :
  pattern emailRe
  = RSeq RBol
      (RSeq (RQuant 1 None true (RClass true [CSpace; CChar 64%N]))
         (RSeq (RChar 64%N)
            (RSeq (RQuant 1 None true (RClass true [CSpace; CChar 64%N]))
               (RSeq (RChar 46%N)
                  (RSeq (RQuant 1 None true (RClass true [CSpace; CChar 64%N]))
                     REol))))).
Proof. reflexivity. Qed.

Lemma emailRe_flag :
  flag emailRe = {| global := false; ignoreCase := false; multiline := false |}.
Proof. reflexivity. Qed.

Lemma plain_class (fl : flags) (b : char) :
  ignoreCase fl = false ->
  classMatches fl true [CSpace; CChar 64%N] b = true <-> plain b.
Proof.
  intros Hi. unfold classMatches, plain. cbn [existsb citemMatches].
  unfold canon. rewrite Hi. rewrite orb_false_r.
  destruct (isSpace b); cbn [orb xorb negb].
  - split; [discriminate|]. intros [H _]. discriminate H.
  - destruct (N.eqb 64 b) eqn:E; cbn [negb].
    + apply N.eqb_eq in E. split; [discriminate|]. intros [_ H]. congruence.
    + apply N.eqb_neq in E. split; [|reflexivity]. intros _. split; congruence.
Qed.

Lemma char_step (fl : flags) (a : char) (x y : mstate) :
  ignoreCase fl = false ->
  (exists b t, rest x = b :: t /\ N.eqb (canon fl a) (canon fl b) = true
               /\ y = advance x b t)
  <-> rest x = a :: rest y /\ y = after x [a] (rest y).
Proof.
  intros Hi. unfold canon. rewrite Hi. split.
  - intros (b & t & E & Eb & ->). apply N.eqb_eq in Eb. subst b.
    cbn [advance rest]. auto.
  - intros [E ->]. exists a, (rest y). rewrite N.eqb_refl. auto.
Qed.

Lemma test_emailRe (email : jsstring) :
  test emailRe email = true <-> wellFormedEmail email.
Proof.
  rewrite test_matchesIn. unfold matchesIn.
  rewrite emailRe_pattern, emailRe_flag.
  set (fl := {| global := false; ignoreCase := false; multiline := false |}).
  assert (Hplain : forall run,
            Forall (fun b => classMatches fl true [CSpace; CChar 64%N] b = true) run
            <-> Forall plain run).
  { intros run. split; apply Forall_impl; intros b; apply plain_class; reflexivity. }
  split.
  - intros (pre & suf & y & -> & D). cbn [derives] in D.
    destruct D as (y0 & [-> Hbol] & y1 & D1 & y2 & D2 & y3 & D3 & y4 & D4
                   & y5 & D5 & -> & Heol).
    assert (Hpre : pre = []).
    { apply lastOf_None. cbn [startAt prev] in Hbol.
      destruct (lastOf pre None); [discriminate Hbol|reflexivity]. }
    subst pre. cbn [app].
    apply (reps_run (fun b => classMatches fl true [CSpace; CChar 64%N] b = true))
      in D1; [|exact I].
    apply (reps_run (fun b => classMatches fl true [CSpace; CChar 64%N] b = true))
      in D3; [|exact I].
    apply (reps_run (fun b => classMatches fl true [CSpace; CChar 64%N] b = true))
      in D5; [|exact I].
    apply char_step in D2; [|reflexivity]. apply char_step in D4; [|reflexivity].
    destruct D1 as (loc & E1 & _ & Q1 & L1 & _).
    destruct D2 as [E2 _].
    destruct D3 as (domain & E3 & _ & Q3 & L3 & _).
    destruct D4 as [E4 _].
    destruct D5 as (tld & E5 & _ & Q5 & L5 & _).
    destruct (rest y5) as [|b t] eqn:E6; [|discriminate Heol].
    cbn [startAt rest] in E1.
    exists loc, domain, tld.
    split.
    { rewrite E1, E2, E3, E4, E5, app_nil_r. reflexivity. }
    repeat split; try (apply Hplain; assumption);
      intros ->; cbn [length] in *; lia.
  - intros (loc & domain & tld & -> & N1 & N2 & N3 & Q1 & Q2 & Q3).
    exists [], (loc ++ [64%N] ++ domain ++ [46%N] ++ tld).
    set (x0 := startAt [] (loc ++ [64%N] ++ domain ++ [46%N] ++ tld)).
    set (y1 := after x0 loc ([64%N] ++ domain ++ [46%N] ++ tld)).
    set (y2 := after y1 [64%N] (domain ++ [46%N] ++ tld)).
    set (y3 := after y2 domain ([46%N] ++ tld)).
    set (y4 := after y3 [46%N] tld).
    set (y5 := after y4 tld []).
    exists y5. split; [reflexivity|]. cbn [derives].
    assert (Hlen : forall run : jsstring, run <> [] -> (1 <= length run)%nat).
    { intros [|? ?] H; [contradiction|cbn; lia]. }
    exists x0. split; [split; [reflexivity|exact I]|].
    exists y1. split.
    { apply (run_reps (fun b => classMatches fl true [CSpace; CChar 64%N] b = true));
        [reflexivity|apply Hplain, Q1|apply Hlen, N1|exact I]. }
    exists y2. split; [apply char_step; [reflexivity|split; reflexivity]|].
    exists y3. split.
    { apply (run_reps (fun b => classMatches fl true [CSpace; CChar 64%N] b = true));
        [reflexivity|apply Hplain, Q2|apply Hlen, N2|exact I]. }
    exists y4. split; [apply char_step; [reflexivity|split; reflexivity]|].
    exists y5. split.
    { apply (run_reps (fun b => classMatches fl true [CSpace; CChar 64%N] b = true));
        [rewrite app_nil_r; reflexivity|apply Hplain, Q3|apply Hlen, N3|exact I]. }
    split; [reflexivity|exact I].
Qed.

(** X1 (errorHandler.ts, validateEmail): an address is accepted exactly
    when it is a local part, an at sign, a domain, a dot and a last part,
    each non-empty and free of white space and of further at signs; then
    [true] is returned and nothing is shown.  Any other text returns
    [false] and shows one "Validation Error" toast. *)
Theorem validateEmail_accepts_exactly (email : jsstring) (w : world) :
  (wellFormedEmail email /\ validateEmail email w = (Returned true, w))
  \/ (~ wellFormedEmail email
      /\ validateEmail email w
         = (Returned false, refused (lit "Please enter a valid email address") w)).
Proof.
  unfold validateEmail. fold emailRe.
  destruct (test emailRe email) eqn:E; cbn [negb].
  - left. split; [apply test_emailRe, E|reflexivity].
  - right. split; [|reflexivity].
    intros H. apply test_emailRe in H. congruence.
Qed.

Example validateEmail_dotted_domain :
  fst (validateEmail (lit "ann.b@mail.example.org") idle) = Returned true.
Proof. vm_compute. reflexivity. Qed.

Example validateEmail_no_dot :
  fst (validateEmail (lit "ann@localhost") idle) = Returned false.
Proof. vm_compute. reflexivity. Qed.

(** X2 (errorHandler.ts, validateCodeInput): code passes exactly when it
    is not blank and has at most 50000 code units; blank code shows the
    toast "Code is required", longer code the toast about the length, and
    in each case it is the only toast and nothing is thrown. *)
Theorem validateCodeInput_limits (code language : jsstring) (w : world) :
  (trim code <> [] /\ (N.of_nat (length code) <= 50000)%N
   /\ validateCodeInput code language w = (Returned true, w))
  \/ (trim code = []
      /\ validateCodeInput code language w
         = (Returned false, refused (lit "Code is required") w))
  \/ (trim code <> [] /\ (50000 < N.of_nat (length code))%N
      /\ validateCodeInput code language w
         = (Returned false,
            refused (lit "Code is too long (maximum 50,000 characters)") w)).
Proof.
  unfold validateCodeInput, ErrorHandler.validateRequired.
  destruct (trim code) as [|c t] eqn:E.
  - right. left. split; [reflexivity|]. reflexivity.
  - unfold bind at 1. cbn [ret negb].
    destruct (N.ltb 50000 (N.of_nat (length code))) eqn:L.
    + right. right. apply N.ltb_lt in L.
      split; [discriminate|]. split; [exact L|reflexivity].
    + left. apply N.ltb_ge in L.
      split; [discriminate|]. split; [exact L|reflexivity].
Qed.


End Email.

(* ===================================================================== *)
(** * codeAnalysis.ts: the highlighting language *)
(* ===================================================================== *)

Section Highlight.

Import CodeTools.

Lemma get_own {A : Type} (table : list (string * A)) (key : jsstring) (a : A) :
  get table key = Own a -> exists k, In (k, a) table /\ key = lit k.
Proof.
  unfold get.
  destruct (find (fun p => eqs (lit (fst p)) key) table) as [[k a']|] eqn:E.
  - intros H. injection H as ->. apply find_some in E. destruct E as [Hin He].
    cbn [fst] in He. apply eqs_eq in He. exists k. auto.
  - destruct (isInherited key); discriminate.
Qed.

(** X4 (codeAnalysis.ts, getSyntaxHighlightLanguage): a name the function
    returns is a name it maps to itself, so mapping a language twice gives
    what mapping it once gives ("jsx" goes to "javascript", which stays;
    an unknown language goes to "text", which stays). *)
Theorem getSyntaxHighlightLanguage_idempotent (language name : jsstring) :
  getSyntaxHighlightLanguage language = Language name ->
  getSyntaxHighlightLanguage name = Language name.
Proof.
  unfold getSyntaxHighlightLanguage at 1.
  destruct (get mapping language) as [v| |] eqn:E; intros H;
    [|discriminate H|].
  - injection H as <-. apply get_own in E. destruct E as (k & Hin & _).
    cbn [In mapping] in Hin.
    repeat (destruct Hin as [Hin|Hin];
            [injection Hin as <- <-; reflexivity|]).
    contradiction.
  - injection H as <-. reflexivity.
Qed.

Lemma getSyntaxHighlightLanguage_idempotent_witness :
  getSyntaxHighlightLanguage (lit "tsx") = Language (lit "typescript")
  /\ getSyntaxHighlightLanguage (lit "typescript") = Language (lit "typescript").
Proof.
  split; [reflexivity|].
  apply (getSyntaxHighlightLanguage_idempotent (lit "tsx")). reflexivity.
Defined.

(** Under a name that every object inherits, the table answers with what
    it inherits, which is no string. *)
Example getSyntaxHighlightLanguage_constructor :
  getSyntaxHighlightLanguage (lit "constructor") = NativeValue (lit "constructor").
Proof. reflexivity. Qed.

End Highlight.

(* ===================================================================== *)
(** * codeAnalysis.ts: the identifier of a piece of code *)
(* ===================================================================== *)

Section Captures.

Variable fl : flags.
Variable code : jsstring.
Variable P : jsstring -> jsstring -> Prop.
Variable i : nat.
Variable F : regex -> Prop.

Hypothesis HF : forall a x y, F a -> derives fl a x y ->
  suffixOf (rest x) code -> P (rest x) (rest y).

Lemma capsAll_filter (f : nat * (jsstring * jsstring) -> bool) (x : mstate) :
  capsAll P i x ->
  Forall (fun p => fst p = i -> P (fst (snd p)) (snd (snd p))) (filter f (caps x)).
Proof.
  unfold capsAll. intros H. apply Forall_forall. intros p Hp.
  apply filter_In in Hp. destruct Hp as [Hp _].
  rewrite Forall_forall in H. apply H, Hp.
Qed.

(** What the groups capture is what their bodies match. *)
Lemma derives_capsAll (r : regex) :
  bodies F i r ->
  forall x z, derives fl r x z -> suffixOf (rest x) code ->
    capsAll P i x -> capsAll P i z.
Proof.
  induction r as [ | a | | inv items | | | | a IHa b IHb | a IHa b IHb
                 | min max greedy a IHa | j a IHa ];
    intros Hb x z H Hs Hx; cbn [derives] in H; cbn [bodies] in Hb.
  - subst z. exact Hx.
  - destruct H as (b & t & _ & _ & ->). exact Hx.
  - destruct H as (b & t & _ & _ & ->). exact Hx.
  - destruct H as (b & t & _ & _ & ->). exact Hx.
  - destruct H as [-> _]. exact Hx.
  - destruct H as [-> _]. exact Hx.
  - destruct H as [-> _]. exact Hx.
  - destruct Hb as [Ha Hb]. destruct H as (y & H1 & H2).
    apply (IHb Hb y z H2).
    + eapply suffixOf_trans; [apply (derives_forward _ _ _ _ H1)|exact Hs].
    + apply (IHa Ha x y H1 Hs Hx).
  - destruct Hb as [Ha Hb]. destruct H as [H|H].
    + apply (IHa Ha x z H Hs Hx).
    + apply (IHb Hb x z H Hs Hx).
  - induction H as [min max x _|min max x y z _ Hxy _ _ IH]; [exact Hx|].
    apply IH.
    + eapply suffixOf_trans; [apply (derives_forward _ _ _ _ Hxy)|exact Hs].
    + apply (IHa Hb _ _ Hxy); [exact Hs|].
      unfold capsAll, clearCaps. cbn [caps]. apply capsAll_filter, Hx.
  - destruct Hb as [Hj Hb]. destruct H as (y & H & ->).
    pose proof (IHa Hb x y H Hs Hx) as Hy.
    unfold capsAll, setCap. cbn [caps]. constructor.
    + cbn [fst snd]. intros E. apply (HF a x y (Hj E) H Hs).
    + apply capsAll_filter, Hy.
Qed.

Lemma capture_capsAll (z : mstate) (v : jsstring) :
  capsAll P i z -> capture i z = Some v ->
  exists s e, v = between s e /\ P s e.
Proof.
  unfold capsAll, capture. intros H Hc.
  destruct (find (fun p => Nat.eqb (fst p) i) (caps z)) as [[j [s e]]|] eqn:E;
    [|discriminate Hc].
  injection Hc as <-. apply find_some in E. destruct E as [Hin Hj].
  cbn [fst] in Hj. apply Nat.eqb_eq in Hj.
  rewrite Forall_forall in H. specialize (H _ Hin Hj).
  exists s, e. auto.
Qed.

End Captures.

Section Identifier.

Import CodeTools.

Lemma between_app (pre e : jsstring) : between (pre ++ e) e = pre.
Proof.
  unfold between. rewrite length_app.
  replace (length pre + length e - length e)%nat with (length pre) by lia.
  rewrite firstn_app, firstn_all, Nat.sub_diag. cbn [firstn]. apply app_nil_r.
Qed.

Lemma identBody_identAt (part : char -> bool) (code : jsstring) (a : regex)
  (x y : mstate) :
  identBody plainFlags part a -> derives plainFlags a x y ->
  suffixOf (rest x) code -> identAt part code (rest x) (rest y).
Proof.
  intros (A & B & -> & HA & HB) H Hs. cbn [derives] in H.
  destruct H as (y1 & (b & t & E & Hb & ->) & H).
  apply (reps_run (fun c => classMatches plainFlags false B c = true)) in H;
    [|exact I].
  destruct H as (run & Hr & _ & Hq & _). cbn [advance rest] in Hr.
  exists b, run. split; [rewrite E, Hr; reflexivity|].
  split; [apply HA, Hb|]. split; [|exact Hs].
  apply forallb_forall. intros c Hc. rewrite Forall_forall in Hq.
  apply HB, Hq, Hc.
Qed.

Lemma suffixOf_occursIn (v e s code : jsstring) :
  s = v ++ e -> suffixOf s code -> occursIn v code.
Proof. intros -> [pre ->]. exists pre, e. reflexivity. Qed.

(** What a pattern of [extractIdentifier] captures is an identifier that
    stands in the code. *)
Lemma group1_ident (part : char -> bool) (p : RegExp) (code v : jsstring) :
  identPattern part p -> group1 p code = Some v ->
  identLike part v /\ occursIn v code.
Proof.
  intros [Hfl Hb] H. unfold group1 in H.
  destruct (search p None code) as [[[sk st] y]|] eqn:E; [|discriminate H].
  apply search_sound in E. destruct E as [-> Hm].
  unfold matchAt in Hm. apply exec_sound in Hm.
  destruct Hm as (y' & D & Hacc). unfold accept in Hacc. injection Hacc as ->.
  rewrite Hfl in D.
  assert (Hcaps : capsAll (identAt part (sk ++ st)) 1 y).
  { apply (derives_capsAll plainFlags (sk ++ st) (identAt part (sk ++ st)) 1
             (identBody plainFlags part)
             (fun a x y' Fa => identBody_identAt part (sk ++ st) a x y' Fa)
             (pattern p) Hb _ _ D).
    - exists sk. reflexivity.
    - constructor. }
  destruct (capture_capsAll _ _ _ _ Hcaps H) as (s & e & -> & c & run & -> & Hc & Hr & Hs).
  change (c :: run ++ e) with ((c :: run) ++ e). rewrite between_app.
  split; [exists c, run; auto|].
  eapply suffixOf_occursIn; [|exact Hs]. reflexivity.
Qed.

Lemma firstGroup_ident (part : char -> bool) (code v : jsstring) :
  forall patterns, Forall (identPattern part) patterns ->
    firstGroup patterns code = Some v ->
    identLike part v /\ occursIn v code.
Proof.
  induction patterns as [|p more IH]; intros Hp H; [discriminate H|].
  inversion Hp as [|? ? Hp1 Hp2]; subst. cbn [firstGroup] in H.
  destruct (group1 p code) as [[|c w]|] eqn:E; try (apply IH; assumption).
  injection H as <-. eapply group1_ident; eauto.
Qed.

Ltac class_solver H c :=
  unfold classMatches in H;
  cbn [xorb existsb citemMatches canon ignoreCase plainFlags] in H;
  unfold rubyPart, idPart, idStart, isLower, isUpper, isDigit;
  rewrite ?(N.eqb_sym c 95%N), ?(N.eqb_sym c 36%N), ?(N.eqb_sym c 63%N),
    ?(N.eqb_sym c 33%N);
  destruct (inRange 97%N 122%N c), (inRange 65%N 90%N c), (inRange 48%N 57%N c),
    (N.eqb 95%N c), (N.eqb 36%N c), (N.eqb 63%N c), (N.eqb 33%N c);
  try reflexivity; discriminate H.

Ltac ident_solver :=
  split;
  [ reflexivity
  | match goal with
    | |- bodies _ _ (pattern ?p) =>
        let r := eval vm_compute in (pattern p) in
        change (pattern p) with r
    end;
    cbn [bodies]; repeat split; try exact I; intros _;
    eexists _, _; split; [reflexivity|];
    split; intros c H; class_solver H c ].

Lemma generalPatterns_ident : Forall (identPattern idPart) generalPatterns.
Proof.
  unfold generalPatterns.
  repeat (apply Forall_cons; [ident_solver|]). apply Forall_nil.
Qed.

Lemma languagePatterns_ident (k : string) (patterns : list RegExp) :
  In (k, patterns) languagePatterns ->
  Forall (identPattern (partFor (Some (lit k)))) patterns.
Proof.
  intros Hin. cbn [In languagePatterns] in Hin.
  repeat (destruct Hin as [Hin|Hin];
          [ injection Hin as <- <-;
            unfold partFor;
            match goal with
            | |- context [eqs ?a ?b] =>
                let v := eval vm_compute in (eqs a b) in change (eqs a b) with v
            end;
            cbv iota;
            repeat (apply Forall_cons; [ident_solver|]); apply Forall_nil
          | ]).
  contradiction.
Qed.

Lemma idPart_partFor (language : option jsstring) (run : jsstring) :
  forallb idPart run = true -> forallb (partFor language) run = true.
Proof.
  intros H. apply forallb_forall. intros c Hc.
  rewrite forallb_forall in H. specialize (H c Hc).
  unfold partFor. destruct language as [l|]; [|exact H].
  destruct (eqs l (lit "ruby")); [|exact H].
  unfold rubyPart. rewrite H. reflexivity.
Qed.

Lemma identLike_partFor (language : option jsstring) (v : jsstring) :
  identLike idPart v -> identLike (partFor language) v.
Proof.
  intros (c & run & -> & Hc & Hr). exists c, run.
  split; [reflexivity|]. split; [exact Hc|apply idPart_partFor, Hr].
Qed.

Lemma firstGroup_last (code : jsstring) (patterns : list RegExp) (p : RegExp)
  (d : char) (w : jsstring) :
  group1 p code = Some (d :: w) ->
  exists c v, firstGroup (patterns ++ [p]) code = Some (c :: v).
Proof.
  intros H. induction patterns as [|q more IH]; cbn [app firstGroup].
  - rewrite H. eauto.
  - destruct (group1 q code) as [[|? ?]|]; eauto.
Qed.

(** The last of the general patterns finds an identifier wherever a code
    unit can start one. *)
Lemma general_found (code : jsstring) :
  existsb idStart code = true ->
  exists c w, firstGroup generalPatterns code = Some (c :: w).
Proof.
  intros H. apply existsb_exists in H. destruct H as (c & Hin & Hc).
  apply in_split in Hin. destruct Hin as (pre & t & ->).
  set (g3 := re "([A-Za-z_$][A-Za-z0-9_$]*)" "").
  assert (Hp : pattern g3
               = RGroup 1
                   (RSeq (RClass false
                            [CRange 65%N 90%N; CRange 97%N 122%N; CChar 95%N;
                             CChar 36%N])
                      (RQuant 0 None true
                         (RClass false
                            [CRange 65%N 90%N; CRange 97%N 122%N;
                             CRange 48%N 57%N; CChar 95%N; CChar 36%N]))))
    by reflexivity.
  assert (H3 : exists d w, group1 g3 (pre ++ c :: t) = Some (d :: w)).
  { assert (Hm : matchAt g3 (lastOf pre None) (c :: t) <> None).
    { unfold matchAt. rewrite Hp.
      set (x := {| prev := lastOf pre None; rest := c :: t; caps := [] |}).
      apply (exec_complete _ _ accept x
               (setCap 1 (rest x) t (advance x c t))); [|discriminate].
      cbn [derives]. exists (advance x c t). split; [|reflexivity].
      exists (advance x c t). split.
      - exists c, t. split; [reflexivity|]. split; [|reflexivity].
        change (flag g3) with plainFlags. unfold classMatches.
        cbn [xorb existsb citemMatches canon ignoreCase plainFlags].
        unfold idStart, isLower, isUpper in Hc.
        rewrite (N.eqb_sym c 95%N), (N.eqb_sym c 36%N) in Hc.
        destruct (inRange 97%N 122%N c), (inRange 65%N 90%N c),
          (N.eqb 95%N c), (N.eqb 36%N c); try reflexivity; discriminate Hc.
      - apply reps_stop. left. reflexivity. }
    pose proof (search_complete g3 (c :: t) pre None Hm) as Hs.
    unfold group1.
    destruct (search g3 None (pre ++ c :: t)) as [[[sk st] y]|] eqn:E;
      [|contradiction].
    apply search_sound in E. destruct E as [Hsplit Hy].
    unfold matchAt in Hy. apply exec_sound in Hy.
    destruct Hy as (y' & D & Hacc). unfold accept in Hacc. injection Hacc as ->.
    rewrite Hp in D. cbn [derives] in D.
    destruct D as (y1 & (y2 & (b & u & E1 & Hb & ->) & D) & ->).
    apply (reps_run (fun c => classMatches (flag g3) false _ c = true)) in D;
      [|exact I].
    destruct D as (run & Hr & _). cbn [advance rest] in Hr, E1.
    unfold capture, setCap. cbn [caps find fst Nat.eqb].
    cbn [rest] in *. rewrite E1, Hr.
    change (b :: run ++ rest y1) with ((b :: run) ++ rest y1).
    rewrite between_app. exists b, run. reflexivity. }
  destruct H3 as (d & w & H3).
  apply (firstGroup_last _ [_; _] g3 d w H3).
Qed.

(** X5 (codeAnalysis.ts, extractIdentifier): the result reads as an
    identifier (a letter, underscore or dollar sign, then letters, digits,
    underscores and dollar signs; for Ruby also question and exclamation
    marks).  Where the code has a code unit that can start an identifier,
    the result is a piece of the code; where it has none, the result is
    "code".  The call throws only for a language that is a name every
    object inherits, such as "constructor". *)
Theorem extractIdentifier_names_what_occurs (code : jsstring)
  (language : option jsstring) :
  match extractIdentifier code language with
  | Returned v =>
      identLike (partFor language) v
      /\ (if existsb idStart code then occursIn v code else v = lit "code")
  | Thrown e =>
      e = notIterable
      /\ exists key, language = Some key /\ isInherited key = true
  end.
Proof.
  assert (Hnone : existsb idStart code = false ->
            forall part patterns, Forall (identPattern part) patterns ->
              firstGroup patterns code = None).
  { intros Hno part patterns Hp.
    destruct (firstGroup patterns code) as [v|] eqn:E; [|reflexivity].
    exfalso. destruct (firstGroup_ident _ _ _ _ Hp E)
      as [(c & run & -> & Hc & _) (pre & post & ->)].
    rewrite existsb_app in Hno. cbn [app existsb] in Hno.
    rewrite Hc in Hno. cbn [orb] in Hno. rewrite orb_true_r in Hno.
    discriminate Hno. }
  assert (Hgeneral :
            match firstGroup generalPatterns code with
            | Some v => Returned v
            | None => Returned (lit "code")
            end
            = Returned
                (match firstGroup generalPatterns code with
                 | Some v => v
                 | None => lit "code"
                 end)).
  { destruct (firstGroup generalPatterns code); reflexivity. }
  assert (Hg : let v := match firstGroup generalPatterns code with
                        | Some v => v
                        | None => lit "code"
                        end in
               identLike (partFor language) v
               /\ (if existsb idStart code then occursIn v code
                   else v = lit "code")).
  { cbn zeta. destruct (existsb idStart code) eqn:Hs.
    - destruct (general_found code Hs) as (c & w & E). rewrite E.
      destruct (firstGroup_ident _ _ _ _ generalPatterns_ident E) as [Hi Ho].
      split; [apply identLike_partFor, Hi|exact Ho].
    - rewrite (Hnone eq_refl idPart _ generalPatterns_ident).
      split; [|reflexivity]. apply identLike_partFor.
      exists 99%N, (lit "ode"). repeat split. }
  unfold extractIdentifier. rewrite Hgeneral.
  destruct language as [[|l0 l]|]; [exact Hg| |exact Hg].
  destruct (get languagePatterns (l0 :: l)) as [patterns| |] eqn:E.
  - apply get_own in E. destruct E as (k & Hin & Hk).
    pose proof (languagePatterns_ident k patterns Hin) as Hp. rewrite <- Hk in Hp.
    destruct (firstGroup patterns code) as [v|] eqn:Ev; [|exact Hg].
    destruct (firstGroup_ident _ _ _ _ Hp Ev) as [Hi Ho].
    split; [exact Hi|].
    destruct (existsb idStart code) eqn:Hs; [exact Ho|].
    rewrite (Hnone eq_refl _ _ Hp) in Ev. discriminate Ev.
  - split; [reflexivity|]. exists (l0 :: l). split; [reflexivity|].
    unfold get in E.
    destruct (find _ languagePatterns) as [[? ?]|]; [discriminate E|].
    destruct (isInherited (l0 :: l)); [reflexivity|discriminate E].
  - exact Hg.
Qed.

Example extractIdentifier_factorial :
  extractIdentifier
    (lit "def factorial(n):" ++ [LF] ++ lit "    return 1") None
  = Returned (lit "factorial").
Proof. vm_compute. reflexivity. Qed.

Example extractIdentifier_digits :
  extractIdentifier (lit "1 + 2") (Some (lit "python")) = Returned (lit "code").
Proof. vm_compute. reflexivity. Qed.

Example extractIdentifier_constructor :
  extractIdentifier (lit "x = 1") (Some (lit "constructor")) = Thrown notIterable.
Proof. vm_compute. reflexivity. Qed.

End Identifier.

(* ===================================================================== *)
(** * codeAnalysis.ts: the validation of code *)
(* ===================================================================== *)

Section Literals.

Variable fl : flags.

(** A literal text is matched unit by unit. *)
Lemma derives_lits (r : regex) (l : jsstring) :
  forall x z,
    derives fl (lits l r) x z
    <-> exists u y, rest x = u ++ rest y
          /\ List.map (canon fl) u = List.map (canon fl) l
          /\ y = after x u (rest y) /\ derives fl r y z.
Proof.
  induction l as [|a l IH]; intros x z; cbn [lits fold_right].
  - split.
    + intros H. exists [], x. cbn [app List.map]. rewrite after_nil. auto.
    + intros (u & y & E & Hu & Hy & H). destruct u; [|discriminate Hu].
      cbn [app] in E. rewrite <- E, after_nil in Hy. subst y. exact H.
  - change (fold_right (fun a r => RSeq (RChar a) r) r l) with (lits l r).
    cbn [derives]. split.
    + intros (y1 & (b & t & E & Eb & ->) & H). apply IH in H.
      destruct H as (u & y & Eu & Hu & Hy & H). cbn [advance rest] in Eu.
      exists (b :: u), y. split; [rewrite E, Eu; reflexivity|].
      split; [cbn [List.map]; apply N.eqb_eq in Eb; congruence|].
      split; [rewrite <- after_advance with (t := t); exact Hy|exact H].
    + intros (u & y & E & Hu & Hy & H). destruct u as [|b u]; [discriminate Hu|].
      cbn [List.map] in Hu. injection Hu as Hb Hu. cbn [app] in E.
      exists (advance x b (u ++ rest y)). split.
      * exists b, (u ++ rest y). rewrite Hb, N.eqb_refl. auto.
      * apply IH. exists u, y. cbn [advance rest]. split; [reflexivity|].
        split; [exact Hu|]. split; [|exact H].
        rewrite after_advance. exact Hy.
Qed.

Lemma derives_chars (l : jsstring) :
  l <> [] ->
  forall x z,
    derives fl (chars l) x z
    <-> exists u, rest x = u ++ rest z
          /\ List.map (canon fl) u = List.map (canon fl) l
          /\ z = after x u (rest z).
Proof.
  induction l as [|a l IH]; intros Hl x z; [contradiction|].
  destruct l as [|a' l].
  - cbn [chars derives]. split.
    + intros (b & t & E & Eb & ->). apply N.eqb_eq in Eb.
      exists [b]. cbn [advance rest app List.map]. rewrite E, Eb. auto.
    + intros (u & E & Hu & Hz). destruct u as [|b [|? ?]]; try discriminate Hu.
      cbn [List.map] in Hu. injection Hu as Hb. cbn [app] in E.
      exists b, (rest z). rewrite Hb, N.eqb_refl. auto.
  - change (chars (a :: a' :: l)) with (RSeq (RChar a) (chars (a' :: l))).
    cbn [derives]. split.
    + intros (y1 & (b & t & E & Eb & ->) & H).
      apply IH in H; [|discriminate].
      destruct H as (u & Eu & Hu & Hz). cbn [advance rest] in Eu.
      exists (b :: u). split; [rewrite E, Eu; reflexivity|].
      split; [cbn [List.map] in Hu |- *; apply N.eqb_eq in Eb; congruence|].
      rewrite <- after_advance with (t := t). exact Hz.
    + intros (u & E & Hu & Hz). destruct u as [|b u]; [discriminate Hu|].
      cbn [List.map] in Hu. injection Hu as Hb Hu. cbn [app] in E.
      exists (advance x b (u ++ rest z)). split.
      * exists b, (u ++ rest z). rewrite Hb, N.eqb_refl. auto.
      * apply IH; [discriminate|]. exists u. cbn [advance rest].
        split; [reflexivity|]. split; [exact Hu|].
        rewrite after_advance. exact Hz.
Qed.

End Literals.

Section Unsafe.

Import CodeTools.

Lemma upperAscii_fixed (a b : char) :
  isLower a = false -> isUpper a = false -> upperAscii b = a -> b = a.
Proof.
  unfold upperAscii, isLower, isUpper, inRange. intros Hl Hu H.
  destruct (N.leb 97 b && N.leb b 122)%bool eqn:E; [|exact H].
  exfalso. apply andb_prop in E. destruct E as [E1 E2].
  apply N.leb_le in E1, E2. subst a.
  assert (N.leb 65 (b - 32) && N.leb (b - 32) 90 = true)%bool.
  { apply andb_true_intro. split; apply N.leb_le; lia. }
  congruence.
Qed.

Lemma reads_one (a b : char) :
  isLower a = false -> isUpper a = false ->
  List.map (canon iFlags) [b] = List.map (canon iFlags) [a] <-> b = a.
Proof.
  intros Hl Hu. cbn [List.map]. unfold canon. cbn [ignoreCase iFlags]. split.
  - intros H. injection H as H. apply (upperAscii_fixed a b Hl Hu).
    rewrite H. unfold upperAscii. rewrite Hl. reflexivity.
  - intros ->. reflexivity.
Qed.

Lemma reads_app (l1 l2 : string) (u1 u2 : jsstring) :
  reads l1 u1 -> reads l2 u2 -> lit l1 ++ lit l2 = lit (l1 ++ l2)%string ->
  reads (l1 ++ l2)%string (u1 ++ u2).
Proof.
  unfold reads. intros H1 H2 <-. rewrite !map_app, H1, H2. reflexivity.
Qed.

Lemma jsUrlRe_pattern : pattern jsUrlRe = chars (lit "javascript:").
Proof. reflexivity. Qed.

Lemma test_jsUrlRe (code : jsstring) :
  test jsUrlRe code = true <-> hasJsUrl code.
Proof.
  rewrite test_matchesIn. unfold matchesIn, hasJsUrl.
  rewrite jsUrlRe_pattern. change (flag jsUrlRe) with iFlags. split.
  - intros (pre & suf & y & -> & D).
    apply derives_chars in D; [|discriminate].
    destruct D as (u & E & Hu & _). cbn [startAt rest] in E.
    exists pre, u, (rest y). split; [rewrite E; reflexivity|exact Hu].
  - intros (pre & u & post & -> & Hu).
    exists pre, (u ++ post), (after (startAt pre (u ++ post)) u post).
    split; [reflexivity|]. apply derives_chars; [discriminate|].
    exists u. cbn [after rest startAt]. auto.
Qed.

Lemma special_step (a : char) (x y : mstate) :
  isLower a = false -> isUpper a = false ->
  derives iFlags (RChar a) x y
  <-> rest x = a :: rest y /\ y = after x [a] (rest y).
Proof.
  intros Hl Hu. cbn [derives]. split.
  - intros (b & t & E & Eb & ->). apply N.eqb_eq in Eb.
    assert (b = a).
    { apply (upperAscii_fixed a b Hl Hu). unfold canon in Eb.
      cbn [ignoreCase iFlags] in Eb. rewrite <- Eb.
      unfold upperAscii. rewrite Hl. reflexivity. }
    subst b. cbn [advance rest]. auto.
  - intros [E ->]. exists a, (rest y). rewrite N.eqb_refl. auto.
Qed.

Lemma handlerRe_pattern :
  pattern handlerRe
  = lits (lit "on")
      (RSeq (RQuant 1 None true (RClass false [CWord]))
         (RSeq (RQuant 0 None true (RClass false [CSpace])) (RChar 61%N))).
Proof. reflexivity. Qed.

Lemma word_class (w : jsstring) :
  Forall (fun c => classMatches iFlags false [CWord] c = true) w
  <-> Forall (fun c => isWord c = true) w.
Proof.
  split; apply Forall_impl; intros c; unfold classMatches;
    cbn [xorb existsb citemMatches]; rewrite orb_false_r; auto.
Qed.

Lemma space_class (w : jsstring) :
  Forall (fun c => classMatches iFlags false [CSpace] c = true) w
  <-> Forall (fun c => isSpace c = true) w.
Proof.
  split; apply Forall_impl; intros c; unfold classMatches;
    cbn [xorb existsb citemMatches]; rewrite orb_false_r; auto.
Qed.

Lemma test_handlerRe (code : jsstring) :
  test handlerRe code = true <-> hasHandler code.
Proof.
  rewrite test_matchesIn. unfold matchesIn, hasHandler.
  rewrite handlerRe_pattern. change (flag handlerRe) with iFlags. split.
  - intros (pre & suf & y & -> & D). apply derives_lits in D.
    destruct D as (o & y1 & E1 & Ho & _ & D). cbn [derives] in D.
    destruct D as (y2 & D2 & y3 & D3 & D4).
    apply (reps_run (fun c => classMatches iFlags false [CWord] c = true)) in D2;
      [|exact I].
    apply (reps_run (fun c => classMatches iFlags false [CSpace] c = true)) in D3;
      [|exact I].
    apply (special_step 61%N) in D4; [|reflexivity|reflexivity].
    destruct D2 as (w & E2 & _ & Hw & Lw & _).
    destruct D3 as (sp & E3 & _ & Hsp & _).
    destruct D4 as [E4 _]. cbn [startAt rest] in E1.
    exists pre, o, w, sp, (rest y).
    split; [rewrite E1, E2, E3, E4; reflexivity|].
    split; [exact Ho|]. split; [intros ->; cbn in Lw; lia|].
    split; [apply word_class, Hw|apply space_class, Hsp].
  - intros (pre & o & w & sp & post & -> & Ho & Nw & Hw & Hsp).
    set (x0 := startAt pre (o ++ w ++ sp ++ [61%N] ++ post)).
    set (y1 := after x0 o (w ++ sp ++ [61%N] ++ post)).
    set (y2 := after y1 w (sp ++ [61%N] ++ post)).
    set (y3 := after y2 sp ([61%N] ++ post)).
    set (y4 := after y3 [61%N] post).
    exists pre, (o ++ w ++ sp ++ [61%N] ++ post), y4.
    split; [reflexivity|]. apply derives_lits.
    exists o, y1. split; [reflexivity|]. split; [exact Ho|].
    split; [reflexivity|]. cbn [derives].
    exists y2. split.
    { apply (run_reps (fun c => classMatches iFlags false [CWord] c = true));
        [reflexivity|apply word_class, Hw| |exact I].
      destruct w; [contradiction|cbn; lia]. }
    exists y3. split.
    { apply (run_reps (fun c => classMatches iFlags false [CSpace] c = true));
        [reflexivity|apply space_class, Hsp|lia|exact I]. }
    apply (special_step 61%N y3 y4); [reflexivity|reflexivity|].
    split; reflexivity.
Qed.

Lemma scriptRe_pattern :
  pattern scriptRe
  = lits (lit "<script")
      (RSeq (RQuant 0 None true (RClass true [CChar 62%N]))
         (RSeq (RChar 62%N)
            (RSeq (RQuant 0 None false RDot) (chars (lit "</script>"))))).
Proof. reflexivity. Qed.

Lemma notGt_class (w : jsstring) :
  Forall (fun c => classMatches iFlags true [CChar 62%N] c = true) w
  <-> Forall (fun c => c <> 62%N) w.
Proof.
  assert (H : forall c, classMatches iFlags true [CChar 62%N] c = true <-> c <> 62%N).
  { intros c. unfold classMatches. cbn [xorb existsb citemMatches].
    rewrite orb_false_r. unfold canon. cbn [ignoreCase iFlags].
    change (upperAscii 62%N) with 62%N.
    destruct (N.eqb 62 (upperAscii c)) eqn:E; cbn [negb].
    - apply N.eqb_eq in E. symmetry in E.
      apply upperAscii_fixed in E; [|reflexivity|reflexivity].
      split; [discriminate|]. intros Hc. contradiction.
    - apply N.eqb_neq in E. split; [|reflexivity].
      intros _ ->. apply E. reflexivity. }
  split; apply Forall_impl; intros c; apply H.
Qed.

Lemma test_scriptRe (code : jsstring) :
  test scriptRe code = true <-> hasScriptTag code.
Proof.
  rewrite test_matchesIn. unfold matchesIn, hasScriptTag.
  rewrite scriptRe_pattern. change (flag scriptRe) with iFlags. split.
  - intros (pre & suf & y & -> & D). apply derives_lits in D.
    destruct D as (o & y1 & E1 & Ho & _ & D). cbn [derives] in D.
    destruct D as (y2 & D2 & y3 & D3 & y4 & D4 & D5).
    apply (reps_run (fun c => classMatches iFlags true [CChar 62%N] c = true))
      in D2; [|exact I].
    change (exists b t, rest y2 = b :: t
              /\ N.eqb (canon iFlags 62%N) (canon iFlags b) = true
              /\ y3 = advance y2 b t)
      with (derives iFlags (RChar 62%N) y2 y3) in D3.
    apply (special_step 62%N) in D3; [|reflexivity|reflexivity].
    apply (reps_run (fun c => isLineTerminator c = false)) in D4; [|exact I].
    apply derives_chars in D5; [|discriminate].
    destruct D2 as (attrs & E2 & _ & Ha & _).
    destruct D3 as [E3 _].
    destruct D4 as (body & E4 & _ & Hb & _).
    destruct D5 as (closing & E5 & Hc & _). cbn [startAt rest] in E1.
    exists pre, o, attrs, body, closing, (rest y).
    split; [rewrite E1, E2, E3, E4, E5; reflexivity|].
    split; [exact Ho|]. split; [apply notGt_class, Ha|].
    split; [exact Hb|exact Hc].
  - intros (pre & o & attrs & body & closing & post & -> & Ho & Ha & Hb & Hc).
    set (x0 := startAt pre (o ++ attrs ++ [62%N] ++ body ++ closing ++ post)).
    set (y1 := after x0 o (attrs ++ [62%N] ++ body ++ closing ++ post)).
    set (y2 := after y1 attrs ([62%N] ++ body ++ closing ++ post)).
    set (y3 := after y2 [62%N] (body ++ closing ++ post)).
    set (y4 := after y3 body (closing ++ post)).
    set (y5 := after y4 closing post).
    exists pre, (o ++ attrs ++ [62%N] ++ body ++ closing ++ post), y5.
    split; [reflexivity|]. apply derives_lits.
    exists o, y1. split; [reflexivity|]. split; [exact Ho|].
    split; [reflexivity|]. cbn [derives].
    exists y2. split.
    { apply (run_reps (fun c => classMatches iFlags true [CChar 62%N] c = true));
        [reflexivity|apply notGt_class, Ha|lia|exact I]. }
    exists y3. split.
    { apply (special_step 62%N y2 y3); [reflexivity|reflexivity|].
      split; reflexivity. }
    exists y4. split.
    { apply (run_reps (fun c => isLineTerminator c = false));
        [reflexivity|exact Hb|lia|exact I]. }
    apply derives_chars; [discriminate|].
    exists closing. split; [reflexivity|]. split; [exact Hc|reflexivity].
Qed.

(** X6 (codeAnalysis.ts, validateCodeInput): code is valid exactly when
    it is not blank, has at most 100000 code units, and shows none of the
    three shapes, each read without regard to case: a script element whose
    content stays on one line, the scheme "javascript:", and "on" followed
    by word characters, optional white space and an equals sign. *)
Theorem validateCodeInput_accepts_exactly (code : jsstring) :
  valid (validateCodeInput code) = true
  <-> trim code <> [] /\ (N.of_nat (length code) <= 100000)%N
      /\ ~ hasScriptTag code /\ ~ hasJsUrl code /\ ~ hasHandler code.
Proof.
  unfold validateCodeInput. cbn [valid fold_left dangerousPatterns].
  fold scriptRe jsUrlRe handlerRe.
  pose proof (test_scriptRe code) as H1.
  pose proof (test_jsUrlRe code) as H2.
  pose proof (test_handlerRe code) as H3.
  destruct (trim code) as [|c0 t0];
    destruct (N.ltb 100000 (N.of_nat (length code))) eqn:L;
    [apply N.ltb_lt in L|apply N.ltb_ge in L|apply N.ltb_lt in L|apply N.ltb_ge in L];
    destruct (test scriptRe code), (test jsUrlRe code), (test handlerRe code);
    cbn [app length Nat.eqb];
    (split;
     [ try discriminate; intros _;
       repeat split; try discriminate; try exact L;
       intros Hx; first [apply H1 in Hx|apply H2 in Hx|apply H3 in Hx];
       discriminate Hx
     | intros (N0 & N1 & N2 & N3 & N4); try reflexivity; exfalso;
       first [ apply N0; reflexivity
             | lia
             | apply N2, H1; reflexivity
             | apply N3, H2; reflexivity
             | apply N4, H3; reflexivity ] ]).
Qed.

Example validateCodeInput_python_assignment :
  validateCodeInput (lit "json_data = load()")
  = {| valid := false;
       issues := [lit "Code contains potentially unsafe content"] |}.
Proof. vm_compute. reflexivity. Qed.

Example validateCodeInput_plain :
  validateCodeInput (lit "print(1)") = {| valid := true; issues := [] |}.
Proof. vm_compute. reflexivity. Qed.

End Unsafe.

(* ===================================================================== *)
(** * aiService.ts: the language the model names *)
(* ===================================================================== *)

Section Letters.

(** Deleting every match of a class keeps the code units outside it. *)
Lemma replaceLoop_class (re : RegExp) (invert : bool) (items : list citem) :
  pattern re = RClass invert items ->
  forall s fuel p, (length s < fuel)%nat ->
    replaceLoop fuel re [] p s
    = filter (fun c => negb (classMatches (flag re) invert items c)) s.
Proof.
  intros Hp. induction s as [|c t IH]; intros fuel p Hf;
    (destruct fuel as [|fuel]; [cbn in Hf; lia|]);
    cbn [replaceLoop filter]; unfold matchAt; rewrite Hp; cbn [exec rest].
  - reflexivity.
  - destruct (classMatches (flag re) invert items c); cbn [negb accept advance rest].
    + replace (Nat.eqb (length t) (length (c :: t))) with false
        by (symmetry; apply Nat.eqb_neq; cbn; lia).
      cbn [expand flat_map app]. apply IH. cbn in Hf. lia.
    + f_equal. apply IH. cbn in Hf. lia.
Qed.

Lemma replace_class (re : RegExp) (invert : bool) (items : list citem)
  (s : jsstring) :
  pattern re = RClass invert items -> global (flag re) = true ->
  replace re [] s
  = filter (fun c => negb (classMatches (flag re) invert items c)) s.
Proof.
  intros Hp Hg. unfold replace. rewrite Hg.
  apply (replaceLoop_class re invert items Hp). lia.
Qed.

Lemma replace_nonletters (s : jsstring) :
  replace (re "[^a-z]" "g") [] s = filter isLower s.
Proof.
  rewrite (replace_class _ true [CRange 97%N 122%N]); [|reflexivity|reflexivity].
  apply filter_ext. intros c.
  change (flag (re "[^a-z]" "g")) with {| global := true; ignoreCase := false; multiline := false |}.
  unfold classMatches, isLower.
  cbn [xorb existsb citemMatches ignoreCase].
  destruct (inRange 97%N 122%N c); reflexivity.
Qed.

Lemma tryCatch_bind_ret {S A B : Type} (m : M S A) (f : A -> B)
  (h : jsstring -> M S B) (s : S) :
  tryCatch (bind m (fun a => ret (f a))) h s
  = match m s with
    | (Returned a, s') => (Returned (f a), s')
    | (Thrown e, s') => h e s'
    end.
Proof. unfold tryCatch, bind, ret. destruct (m s) as [[a|e] s']; reflexivity. Qed.

(** X7 (aiService.ts, AIService.detectLanguage): the call never throws,
    whatever the network does; it posts exactly one request, and the name
    it returns consists of the letters a to z only (it may be empty). *)
Theorem AIService_detectLanguage_letters (code : jsstring) (w : world) :
  exists lang,
    fst (AIService.detectLanguage code w) = Returned lang
    /\ Forall (fun c => isLower c = true) lang
    /\ length (fetches (snd (AIService.detectLanguage code w)))
       = S (length (fetches w)).
Proof.
  unfold AIService.detectLanguage. rewrite tryCatch_bind_ret.
  match goal with
  | |- context [GroqService.executeWithGroq ?m ?o w] =>
      pose proof (executeWithGroq_fetches_once m o w) as [Hf _];
      destruct (GroqService.executeWithGroq m o w) as [[a|e] w'] eqn:E
  end; cbn [fst snd ret] in *.
  - eexists. split; [reflexivity|]. split; [|exact Hf].
    rewrite replace_nonletters. apply Forall_forall. intros c Hc.
    apply filter_In in Hc. apply Hc.
  - eexists. split; [reflexivity|]. split; [|exact Hf].
    repeat constructor.
Qed.

Example AIService_detectLanguage_sentence :
  fst (AIService.detectLanguage (lit "print(1)")
         (answering idle (replies (lit " Python 3.11 (CPython)"))))
  = Returned (lit "python").
Proof. vm_compute. reflexivity. Qed.

End Letters.

(* ===================================================================== *)
(** * groqService.ts: the blank lines of cleaned code *)
(* ===================================================================== *)

Section Newlines.

Import GroqService.

Ltac lengths := unfold jsstring, char in *; cbn [length app] in *; lia.

(** A greedy unbounded repetition of a one-unit matcher, with nothing
    behind it, takes the whole run. *)
Lemma greedy_run (m : continuation -> mstate -> option mstate) (P : char -> bool) :
  (forall c x, m c x = match rest x with
                       | b :: t => if P b then c (advance x b t) else None
                       | [] => None
                       end) ->
  forall s fuel min x, rest x = s -> (min + length s < fuel)%nat ->
    option_map rest (repeatMatcher m [] fuel min None true accept x)
    = runAt P min s.
Proof.
  intros Hm. induction s as [|b t IH]; intros fuel min x Hx Hf;
    (destruct fuel as [|fuel]; [lia|]);
    rewrite repeatMatcher_step; cbv zeta; rewrite clearCaps_nil, Hm, Hx;
    unfold runAt; cbn [takeWhile dropWhile length].
  - destruct min; cbn [Nat.eqb negb Nat.leb]; [|reflexivity].
    unfold accept. cbn [option_map]. rewrite Hx. reflexivity.
  - destruct (P b) eqn:Eb.
    + cbn [advance rest andb length].
      replace (Nat.eqb (length t) (S (length t))) with false
        by (symmetry; apply Nat.eqb_neq; lia).
      rewrite andb_false_r. cbn [option_map Nat.pred].
      pose proof (IH fuel (Nat.pred min) (advance x b t) eq_refl
                    ltac:(cbn [length] in Hf; lia)) as Hi.
      unfold runAt in Hi.
      destruct min as [|k]; cbn [Nat.eqb negb Nat.pred Nat.leb] in *.
      * destruct (repeatMatcher m [] fuel 0 None true accept (advance x b t));
          cbn [option_map] in *; [congruence|discriminate Hi].
      * exact Hi.
    + cbn [length]. destruct min; cbn [Nat.eqb negb Nat.leb]; [|reflexivity].
      unfold accept. cbn [option_map]. rewrite Hx. reflexivity.
Qed.

Lemma newlinesRe_pattern : pattern newlinesRe = RQuant 3 None true (RChar 10%N).
Proof. reflexivity. Qed.

Lemma newlinesRe_matchAt (p : option char) (s : jsstring) :
  option_map rest (matchAt newlinesRe p s) = runAt isLF 3 s.
Proof.
  unfold matchAt. rewrite newlinesRe_pattern. cbn [exec groups rest].
  apply (greedy_run _ isLF); [|reflexivity|lia].
  intros c x. cbn [exec]. reflexivity.
Qed.

Lemma replace_newlinesRe (s : jsstring) :
  replace newlinesRe [RLit [LF; LF]] s
  = scan (S (length s)) (runAt isLF 3) [LF; LF] s.
Proof.
  unfold replace. change (global (flag newlinesRe)) with true. cbv iota.
  apply (replaceLoop_scan newlinesRe [RLit [LF; LF]] (runAt isLF 3) eq_refl
           newlinesRe_matchAt).
Qed.

Lemma runAt_none (P : char -> bool) (k : nat) (s : jsstring) :
  (length (takeWhile P s) < k)%nat -> runAt P k s = None.
Proof.
  intros H. unfold runAt.
  replace (Nat.leb k (length (takeWhile P s))) with false
    by (symmetry; apply Nat.leb_gt; exact H).
  reflexivity.
Qed.

Lemma runAt_some (P : char -> bool) (k : nat) (s : jsstring) :
  (k <= length (takeWhile P s))%nat -> runAt P k s = Some (dropWhile P s).
Proof.
  intros H. unfold runAt.
  replace (Nat.leb k (length (takeWhile P s))) with true
    by (symmetry; apply Nat.leb_le; exact H).
  reflexivity.
Qed.

Lemma run_length (P : char -> bool) (s : jsstring) :
  length s = (length (takeWhile P s) + length (dropWhile P s))%nat.
Proof.
  rewrite <- length_app, <- takeWhile_dropWhile. reflexivity.
Qed.

(** Where there is no run to collapse the replacement makes none longer. *)
Lemma scan_newlines_short :
  forall fuel s, (length s < fuel)%nat -> (length (takeWhile isLF s) < 3)%nat ->
    (length (takeWhile isLF (scan fuel (runAt isLF 3) [LF; LF] s))
     <= length (takeWhile isLF s))%nat.
Proof.
  induction fuel as [|fuel IH]; intros s Hf Hs; [lia|].
  cbn [scan]. rewrite (runAt_none _ _ _ Hs).
  destruct s as [|c t]; [cbn; lia|].
  cbn [takeWhile] in *. destruct (isLF c); [|cbn; lia].
  cbn [length] in *. specialize (IH t ltac:(lia) ltac:(lia)). lia.
Qed.

Lemma scan_newlines_head (fuel : nat) (r : jsstring) :
  match r with d :: _ => isLF d = false | [] => True end ->
  length (takeWhile isLF (scan fuel (runAt isLF 3) [LF; LF] r)) = 0%nat.
Proof.
  intros H. destruct r as [|d u].
  - destruct fuel; reflexivity.
  - destruct fuel as [|fuel]; cbn [scan]; [cbn [takeWhile]; rewrite H; reflexivity|].
    rewrite runAt_none by (cbn [takeWhile]; rewrite H; cbn; lia).
    cbn [takeWhile]. rewrite H. reflexivity.
Qed.

Lemma noRun_nil (P : char -> bool) (k : nat) : (0 < k)%nat -> noRun P k [].
Proof.
  intros Hk t [pre H]. destruct pre; [|discriminate H].
  cbn [app] in H. subst t. exact Hk.
Qed.

Lemma noRun_cons (P : char -> bool) (k : nat) (c : char) (s : jsstring) :
  (length (takeWhile P (c :: s)) < k)%nat -> noRun P k s -> noRun P k (c :: s).
Proof.
  intros Hc Hs t [pre H]. destruct pre as [|d pre].
  - cbn [app] in H. subst t. exact Hc.
  - cbn [app] in H. injection H as _ ->. apply Hs. exists pre. reflexivity.
Qed.

(** After the replacement no three newlines are left in a row. *)
Lemma scan_newlines_noRun :
  forall fuel s, (length s < fuel)%nat ->
    noRun isLF 3 (scan fuel (runAt isLF 3) [LF; LF] s).
Proof.
  induction fuel as [|fuel IH]; intros s Hf; [lia|].
  cbn [scan].
  destruct (Nat.leb 3 (length (takeWhile isLF s))) eqn:E.
  - apply Nat.leb_le in E. rewrite (runAt_some _ _ _ E).
    pose proof (run_length isLF s) as Hl.
    replace (Nat.eqb (length (dropWhile isLF s)) (length s)) with false
      by (symmetry; apply Nat.eqb_neq; lia).
    pose proof (scan_newlines_head fuel _ (dropWhile_head isLF s)) as Hh.
    cbn [app].
    apply noRun_cons; [|apply noRun_cons; [|apply IH; lia]].
    + change (takeWhile isLF (LF :: LF :: ?s))
        with (LF :: LF :: takeWhile isLF s).
      cbn [length]. rewrite Hh. lia.
    + change (takeWhile isLF (LF :: ?s)) with (LF :: takeWhile isLF s).
      cbn [length]. rewrite Hh. lia.
  - apply Nat.leb_gt in E. rewrite (runAt_none _ _ _ E).
    destruct s as [|c t]; [apply noRun_nil; lia|].
    apply noRun_cons; [|apply IH; lengths].
    cbn [takeWhile] in *. destruct (isLF c); [|cbn; lia].
    cbn [length] in *.
    pose proof (scan_newlines_short fuel t ltac:(lia) ltac:(lia)). lia.
Qed.

Lemma suffixOf_snoc (t s : jsstring) (c : char) :
  suffixOf t (s ++ [c]) -> t = [] \/ exists t', t = t' ++ [c] /\ suffixOf t' s.
Proof.
  intros [pre H]. destruct t as [|x t0 _] using rev_ind; [left; reflexivity|].
  right. rewrite app_assoc in H. apply app_inj_tail in H. destruct H as [-> ->].
  exists t0. split; [reflexivity|]. exists pre. reflexivity.
Qed.

Lemma trim_last (s : jsstring) :
  trim s = [] \/ exists u l, trim s = u ++ [l] /\ isSpace l = false.
Proof.
  unfold trim, trimEnd.
  pose proof (dropWhile_head isSpace (rev (trimStart s))) as H.
  destruct (dropWhile isSpace (rev (trimStart s))) as [|l v]; [left; reflexivity|].
  right. exists (rev v), l. cbn [rev]. auto.
Qed.

Lemma takeWhile_prefix (P : char -> bool) (t w : jsstring) :
  (length (takeWhile P t) <= length (takeWhile P (t ++ w)))%nat.
Proof.
  induction t as [|c t IH]; cbn [app takeWhile]; [cbn; lia|].
  destruct (P c); cbn [length]; lia.
Qed.

(** Trimming and ending with one newline makes no run of three. *)
Lemma trim_newline_noRun (s : jsstring) :
  noRun isLF 3 s -> noRun isLF 3 (trim s ++ [LF]).
Proof.
  intros H t Ht. apply suffixOf_snoc in Ht.
  destruct Ht as [->|(t' & -> & Ht')]; [cbn; lia|].
  destruct (trim_decompose s) as (pre & suf & Hs).
  destruct Ht' as [q Hq].
  assert (Hsuf : suffixOf (t' ++ suf) s).
  { exists (pre ++ q). rewrite Hs at 1. rewrite Hq, <- !app_assoc. reflexivity. }
  specialize (H _ Hsuf).
  destruct t' as [|a t0 _] using rev_ind; [cbn; lia|].
  destruct (trim_last s) as [E|(u & l & E & Hl)].
  { rewrite E in Hq. symmetry in Hq.
    apply app_eq_nil in Hq. destruct Hq as [_ Hq].
    apply app_eq_nil in Hq. destruct Hq as [_ Hq]. discriminate Hq. }
  rewrite E, app_assoc in Hq. apply app_inj_tail in Hq. destruct Hq as [_ <-].
  assert (Hlf : isLF l = false).
  { unfold isLF. destruct (N.eqb 10 l) eqn:E10; [|reflexivity].
    apply N.eqb_eq in E10. subst l. discriminate Hl. }
  rewrite (takeWhile_app_stop isLF (t0 ++ [l]) [LF] l);
    [|apply in_or_app; right; left; reflexivity|exact Hlf].
  pose proof (takeWhile_prefix isLF (t0 ++ [l]) suf). lia.
Qed.

Lemma noRun_includes (s : jsstring) :
  noRun isLF 3 s -> includes [LF; LF; LF] s = false.
Proof.
  intros H. destruct (includes [LF; LF; LF] s) eqn:E; [|reflexivity].
  exfalso. apply includes_spec in E. destruct E as (pre & suf & ->).
  specialize (H ([LF; LF; LF] ++ suf) ltac:(exists pre; reflexivity)).
  cbn [app] in H.
  change (takeWhile isLF (LF :: LF :: LF :: suf))
    with (LF :: LF :: LF :: takeWhile isLF suf) in H.
  cbn [length] in H. lia.
Qed.

(** X8 (groqService.ts, cleanCodeResponse): the cleaned code never has
    three newlines in a row, that is never two blank lines one after the
    other, whatever the model answered. *)
Theorem cleanCodeResponse_no_double_blank_line (code language : jsstring) :
  includes [LF; LF; LF] (cleanCodeResponse code language) = false.
Proof.
  apply noRun_includes. unfold cleanCodeResponse. cbv zeta.
  apply trim_newline_noRun. fold newlinesRe.
  rewrite replace_newlinesRe. apply scan_newlines_noRun. lia.
Qed.

Example cleanCodeResponse_blank_lines :
  cleanCodeResponse (lit "a" ++ [LF; LF; LF; LF; LF] ++ lit "b" ++ [LF; LF; LF]) []
  = lit "a" ++ [LF; LF] ++ lit "b" ++ [LF].
Proof. vm_compute. reflexivity. Qed.

End Newlines.

(* ===================================================================== *)
(** * groqService.ts: the request and the failures of the client *)
(* ===================================================================== *)

Section Client.

Import GroqService.

Lemma slashRe_pattern : pattern (re "\/$" "") = RSeq (RChar 47%N) REol.
Proof. reflexivity. Qed.

Lemma slashRe_matchAt (p : option char) (s : jsstring) :
  matchAt (re "\/$" "") p s
  = match s with
    | [c] => if N.eqb 47 c
             then Some {| prev := Some c; rest := []; caps := [] |}
             else None
    | _ => None
    end.
Proof.
  unfold matchAt. rewrite slashRe_pattern.
  change (flag (re "\/$" "")) with plainFlags.
  cbn [exec rest canon ignoreCase plainFlags].
  destruct s as [|c [|d t]]; [reflexivity| |];
    destruct (N.eqb 47 c); reflexivity.
Qed.

Lemma slashRe_search :
  forall s p,
    search (re "\/$" "") p s
    = match rev s with
      | c :: r =>
          if N.eqb 47 c
          then Some (rev r, [c], {| prev := Some c; rest := []; caps := [] |})
          else None
      | [] => None
      end.
Proof.
  induction s as [|c t IH]; intros p.
  - cbn [search]. rewrite slashRe_matchAt. reflexivity.
  - cbn [search]. rewrite slashRe_matchAt, IH.
    destruct t as [|d t'].
    + cbn [rev app]. destruct (N.eqb 47 c); reflexivity.
    + cbn [rev]. destruct (rev t' ++ [d]) as [|l r] eqn:E.
      { destruct (rev t'); discriminate E. }
      cbn [app]. destruct (N.eqb 47 l); [|reflexivity].
      rewrite rev_app_distr. reflexivity.
Qed.

Lemma replace_slashRe (s : jsstring) :
  replace (re "\/$" "") [] s = withoutSlash s.
Proof.
  unfold replace, withoutSlash.
  change (global (flag (re "\/$" ""))) with false. cbv iota.
  rewrite slashRe_search.
  destruct (rev s) as [|c r]; [reflexivity|].
  destruct (N.eqb 47 c); [|reflexivity].
  cbn [expand flat_map rest app]. apply app_nil_r.
Qed.

(** X9 (groqService.ts, executeWithGroq): every call posts exactly one
    request, and its URL is the configured base address without one slash
    at its end, followed by "/functions/v1/groq-proxy": a base written with
    or without the final slash leads to the same address. *)
Theorem executeWithGroq_url (messages : list ChatMessage) (options : GroqOptions)
  (w : world) :
  (exists req,
     fetches (snd (executeWithGroq messages options w)) = fetches w ++ [req]
     /\ url req = withoutSlash (VITE_SUPABASE_URL w) ++ lit "/functions/v1/groq-proxy"
     /\ Effects.messages req = messages)
  /\ forall base, withoutSlash (base ++ lit "/") = base.
Proof.
  split.
  - unfold executeWithGroq, tryCatch, bind, get, fetch.
    rewrite replace_slashRe.
    destruct (network w) as [|[e|r] more]; cbn [fst snd fetches].
    + eexists. split; [reflexivity|]. split; reflexivity.
    + eexists. split; [reflexivity|]. split; reflexivity.
    + destruct (ok r); cbn [negb]; destruct (body r); cbn [fst snd fetches throw ret];
        eexists; (split; [reflexivity|]); split; reflexivity.
  - intros base. change (lit "/") with [47%N]. unfold withoutSlash.
    rewrite rev_app_distr. cbn [rev app].
    change (N.eqb 47 47) with true. cbv iota. apply rev_involutive.
Qed.

Lemma executeWithGroq_answerText (messages : list ChatMessage)
  (options : GroqOptions) (w : world) :
  match answerText w with
  | Some a => fst (executeWithGroq messages options w) = Returned a
  | None => exists e, fst (executeWithGroq messages options w) = Thrown e
  end.
Proof.
  unfold answerText, executeWithGroq, tryCatch, bind, get, fetch.
  destruct (network w) as [|[e|r] more].
  - eexists. reflexivity.
  - eexists. reflexivity.
  - destruct (ok r); cbn [negb]; destruct (body r);
      try reflexivity; eexists; reflexivity.
Qed.

(** X10 (groqService.ts, generateCode and generateTests): when the proxy
    answers ok with an object, both return the cleaned text of the answer.
    In every other case (no connection, an error status, a body that is
    no object) [generateCode] throws one fixed message, so the status and
    the text of the failure do not reach its caller; [generateTests]
    throws what the client threw. *)
Theorem generateCode_masks_failures (description code language : jsstring)
  (w : world) :
  match answerText w with
  | Some a =>
      fst (generateCode description language w)
      = Returned (cleanCodeResponse a language)
      /\ fst (generateTests code language w)
         = Returned (cleanCodeResponse a language)
  | None =>
      fst (generateCode description language w) = Thrown generateCodeFailed
      /\ exists e, fst (generateTests code language w) = Thrown e
                   /\ fst (executeWithGroq [] noOptions w) = Thrown e
  end.
Proof.
  unfold generateCode, generateTests. cbv zeta.
  rewrite tryCatch_throw_fst, !bind_ret_fst.
  match goal with
  | |- context [fst (executeWithGroq ?m ?o w)] =>
      pose proof (executeWithGroq_answerText m o w) as H1
  end.
  match goal with
  | |- context [fst (executeWithGroq [system ?s; user code] ?o w)] =>
      pose proof (executeWithGroq_answerText [system s; user code] o w) as H2
  end.
  pose proof (executeWithGroq_answerText [] noOptions w) as H3.
  destruct (answerText w) as [a|].
  - rewrite H1, H2. split; reflexivity.
  - destruct H1 as [e1 ->]. destruct H2 as [e2 H2]. destruct H3 as [e3 H3].
    split; [reflexivity|]. exists e2. rewrite H2. split; [reflexivity|].
    rewrite H3. f_equal.
    revert H2 H3. unfold executeWithGroq, tryCatch, bind, get, fetch.
    destruct (network w) as [|[e|r] more].
    + unfold throw. cbn [fst]. congruence.
    + unfold throw. cbn [fst]. congruence.
    + destruct (ok r); cbn [negb]; destruct (body r); unfold throw, ret;
        cbn [fst]; congruence.
Qed.

End Client.

(* ===================================================================== *)
(** * codeAnalysis.ts: the confidence of a detection *)
(* ===================================================================== *)

Section Confidence.

Import CodeAnalysis.

Lemma round53_nonneg (q : Q) : (0 <= Number.round53 q)%Q.
Proof.
  unfold Number.round53.
  destruct (Qnum q <=? 0)%Z eqn:E; [apply Qle_refl|].
  apply Z.leb_gt in E. cbv zeta.
  set (d := Zpos (Qden q)).
  set (s0 := (52 - (Z.log2 (Qnum q) - Z.log2 d))%Z).
  set (s := if (Number.scaled (Qnum q) d s0 <? 2 ^ 52)%Z then (s0 + 1)%Z else s0).
  set (num := if (0 <=? s)%Z then (Qnum q * 2 ^ s)%Z else Qnum q).
  set (den := if (0 <=? s)%Z then d else (d * 2 ^ (- s))%Z).
  assert (Hnum : (0 <= num)%Z).
  { unfold num. destruct (0 <=? s)%Z eqn:Es; [|lia].
    apply Z.leb_le in Es. apply Z.mul_nonneg_nonneg; [lia|].
    apply Z.pow_nonneg. lia. }
  assert (Hden : (0 < den)%Z).
  { unfold den, d. destruct (0 <=? s)%Z eqn:Es; [lia|].
    apply Z.leb_gt in Es. apply Z.mul_pos_pos; [lia|].
    apply Z.pow_pos_nonneg; lia. }
  assert (Hq0 : (0 <= num / den)%Z) by (apply Z.div_pos; assumption).
  match goal with
  | |- context [if ?b then (num / den + 1)%Z else (num / den)%Z] =>
      set (m := if b then (num / den + 1)%Z else (num / den)%Z)
  end.
  assert (Hm : (0 <= m)%Z).
  { unfold m. match goal with |- context [if ?b then _ else _] => destruct b end; lia. }
  destruct (0 <=? s)%Z eqn:Es.
  - unfold Qle. cbn [Qnum Qden]. lia.
  - apply Z.leb_gt in Es. unfold Qle, inject_Z. cbn [Qnum Qden].
    assert (0 <= 2 ^ (- s))%Z by (apply Z.pow_nonneg; lia). nia.
Qed.

Lemma round_nonneg (a : Q) : (0 <= a)%Q -> (0 <= Number.round a)%Z.
Proof.
  intros H. unfold Number.round.
  change 0%Z with (Qfloor 0). apply Qfloor_resp_le.
  apply Qle_trans with a; [exact H|].
  rewrite <- (Qplus_0_r a) at 1. apply Qplus_le_r. discriminate.
Qed.

Lemma confidenceOf_range (score length : nat) :
  (0 <= confidenceOf score length <= 100)%Z.
Proof.
  unfold confidenceOf. split; [|apply Z.le_min_l].
  apply Z.min_glb; [lia|]. apply round_nonneg. apply round53_nonneg.
Qed.

(** X11 (codeAnalysis.ts, detectLanguage): the call never throws, and the
    confidence it reports always lies between 0 and 100; for blank code
    the confidence is 0 and nothing is asked of the network. *)
Theorem detectLanguage_confidence_range (code : jsstring)
  (config : CodeAnalysisConfig) (w : world) :
  exists r,
    fst (detectLanguage code config w) = Returned r
    /\ (0 <= confidence r <= 100)%Z
    /\ match trim code with
       | [] => snd (detectLanguage code config w) = w /\ confidence r = 0%Z
       | _ :: _ => True
       end.
Proof.
  destruct (trim code) as [|c t] eqn:E.
  - unfold detectLanguage. rewrite E. eexists. split; [reflexivity|].
    cbn [confidence snd ret]. split; [lia|]. split; reflexivity.
  - assert (Hne : trim code <> []) by (rewrite E; discriminate).
    rewrite (detectLanguage_unfold code config w Hne).
    eexists. split; [reflexivity|]. split; [|exact I].
    destruct (if usesAI config then aiLanguage code w else None).
    + cbn [confidence]. lia.
    + unfold detectByPatterns.
      destruct (match sortDesc (score code) with
                | e :: _ => e
                | [] => (lit "unknown", 0%nat)
                end) as [bestLanguage sc].
      cbv zeta.
      destruct (Number.ltb _ _); cbn [confidence]; [lia|].
      apply confidenceOf_range.
Qed.

End Confidence.

(* ===================================================================== *)
(** * The test generator page: a run of the generate handler *)
(* ===================================================================== *)

Section Generate.

Import TestGenerator TestPage.

(** The model's language detection leaves the clock, the toasts and the
    rows alone and posts one request. *)
Lemma AIService_detectLanguage_frame (code : jsstring) (w : world) :
  let w' := snd (AIService.detectLanguage code w) in
  now w' = now w /\ toasts w' = toasts w /\ rows w' = rows w
  /\ length (fetches w') = S (length (fetches w)).
Proof.
  unfold AIService.detectLanguage. rewrite tryCatch_bind_ret.
  match goal with
  | |- context [GroqService.executeWithGroq ?m ?o w] =>
      pose proof (executeWithGroq_fetches_once m o w) as [Hf _];
      pose proof (executeWithGroq_frame m o w) as (Hn & Ht & Hr);
      destruct (GroqService.executeWithGroq m o w) as [[a|e] w'] eqn:E
  end; cbn [fst snd ret] in *; auto.
Qed.

Lemma detectLanguage_frame (code : jsstring)
  (config : CodeAnalysis.CodeAnalysisConfig) (w : world) :
  let w' := snd (CodeAnalysis.detectLanguage code config w) in
  now w' = now w /\ toasts w' = toasts w /\ rows w' = rows w
  /\ (length (fetches w') <= S (length (fetches w)))%nat.
Proof.
  unfold CodeAnalysis.detectLanguage.
  destruct (trim code) as [|c t]; [cbn; auto|].
  destruct (GroqService.withDefault (CodeAnalysis.useAI config) true).
  - unfold bind at 1. unfold tryCatch, bind.
    pose proof (AIService_detectLanguage_frame code w) as (Hn & Ht & Hr & Hf).
    destruct (AIService.detectLanguage code w) as [[[|a l]|e] w1];
      cbn [fst snd ret] in *.
    + repeat split; auto. lia.
    + destruct (eqs (a :: l) (lit "unknown")); cbn [fst snd ret];
        repeat split; auto; lia.
    + repeat split; auto. lia.
  - cbn. auto.
Qed.

Lemma chatCompletion_frame (messages : list ChatMessage) (temperature : option Q)
  (maxTokens : option N) (w : world) :
  let w' := snd (AIService.chatCompletion messages temperature maxTokens w) in
  now w' = now w /\ toasts w' = toasts w /\ rows w' = rows w
  /\ length (fetches w') = S (length (fetches w)).
Proof.
  unfold AIService.chatCompletion.
  match goal with
  | |- context [GroqService.executeWithGroq ?m ?o w] =>
      pose proof (executeWithGroq_fetches_once m o w) as [Hf _];
      pose proof (executeWithGroq_frame m o w) as (Hn & Ht & Hr)
  end.
  cbv zeta in *. auto.
Qed.

Ltac page_simpl :=
  cbn [fst snd outside page TestPage.sourceCode generatedTests isGenerating
       activeTab detectedLang TestPage.identifier] in *.

(** A run on code that is not blank ends with one toast, "Tests
    Generated" or "Error", behind what the two requests left. *)
Lemma handleGenerate_settles (sourceCode testQuality : jsstring)
  (user : option jsstring) (identifier : jsstring) (s : state) :
  trim sourceCode <> [] ->
  exists t o p,
    handleGenerate sourceCode testQuality user identifier s
    = (Returned tt, {| outside := o; page := p |})
    /\ isGenerating p = false
    /\ (title t = lit "Tests Generated" \/ title t = lit "Error")
    /\ toasts o = toasts (outside s) ++ [t]
    /\ (length (fetches o) <= length (fetches (outside s)) + 2)%nat.
Proof.
  intros Hne.
  unfold handleGenerate, bind, lift, ErrorHandler.validateRequired.
  destruct (trim sourceCode) as [|c0 t0] eqn:Ht; [congruence|].
  unfold ret. cbn [negb fst snd].
  unfold tryFinally, tryCatch, bind, lift, setIsGenerating, setGeneratedTests,
    setDetectedLang, setIdentifier, setActiveTab, setPage, modify, ret, throw,
    toast, modify.
  page_simpl.
  change (CodeAnalysis.detectLanguage sourceCode CodeAnalysis.defaultConfig (outside s))
    with (detection sourceCode (outside s)).
  pose proof (detectLanguage_frame sourceCode CodeAnalysis.defaultConfig (outside s))
    as (_ & Ht1 & _ & Hf1).
  fold (detection sourceCode) in Ht1, Hf1. cbv zeta in Ht1, Hf1.
  destruct (detection sourceCode (outside s)) as [[r|e] w1] eqn:E1;
    page_simpl.
  - destruct (getFramework (CodeAnalysis.language r)) as [entry|].
    + destruct (find (fun q => eqs (value q) testQuality) testQualities)
        as [quality|].
      * page_simpl.
        change (AIService.chatCompletion _ (Some (3 # 10)) None w1)
          with (testCall quality (CodeAnalysis.language r) (framework entry)
                  sourceCode w1).
        pose proof (chatCompletion_frame
                      [GroqService.system
                         (systemContent (CodeAnalysis.language r) (framework entry));
                       GroqService.user
                         (buildPrompt quality (CodeAnalysis.language r)
                            (framework entry) sourceCode)]
                      (Some (3 # 10)) None w1) as (_ & Ht2 & _ & Hf2).
        fold (testCall quality (CodeAnalysis.language r) (framework entry) sourceCode)
          in Ht2, Hf2. cbv zeta in Ht2, Hf2.
        destruct (testCall quality (CodeAnalysis.language r) (framework entry)
                    sourceCode w1) as [[a|e] w2] eqn:E2;
          page_simpl;
          destruct user as [id|];
          unfold toISOString, insert, modify; page_simpl;
          (eexists _, _, _; split; [reflexivity|]);
          page_simpl; cbn [title toasts fetches];
          (split; [reflexivity|]);
          (split; [|split; [rewrite ?Ht2, ?Ht1; reflexivity|lia]]);
          left; reflexivity.
      * eexists _, _, _. split; [reflexivity|].
        page_simpl; cbn [title toasts fetches]. split; [reflexivity|].
        split; [|split; [rewrite ?Ht1; reflexivity|lia]]. right. reflexivity.
    + eexists _, _, _. split; [reflexivity|].
      page_simpl; cbn [title toasts fetches]. split; [reflexivity|].
      split; [|split; [rewrite ?Ht1; reflexivity|lia]]. right. reflexivity.
  - eexists _, _, _. split; [reflexivity|].
    page_simpl; cbn [title toasts fetches]. split; [reflexivity|].
    split; [|split; [rewrite ?Ht1; reflexivity|lia]]. right. reflexivity.
Qed.

(** A run that finds a framework and a quality: what it leaves. *)
Lemma handleGenerate_after_checks (sourceCode testQuality : jsstring)
  (user : option jsstring) (identifier : jsstring) (s : state)
  (r : CodeAnalysis.LanguageDetectionResult) (w1 : world)
  (entry : Framework) (quality : TestQuality) :
  trim sourceCode <> [] ->
  detection sourceCode (outside s) = (Returned r, w1) ->
  getFramework (CodeAnalysis.language r) = Some entry ->
  find (fun q => eqs (value q) testQuality) testQualities = Some quality ->
  let lang := CodeAnalysis.language r in
  let call := testCall quality lang (framework entry) sourceCode w1 in
  let result := match fst call with
                | Returned a => stripFences a
                | Thrown _ =>
                    generateFallbackTests identifier lang (framework entry) quality
                end in
  let w3 := match user with
            | Some id =>
                inserting (testRow id sourceCode result lang (now (snd call)))
                  (snd call)
            | None => snd call
            end in
  handleGenerate sourceCode testQuality user identifier s
  = (Returned tt,
     {| outside := toasting (testsReady quality (framework entry) lang) w3;
        page := {| TestPage.sourceCode := TestPage.sourceCode (page s);
                   generatedTests := result;
                   isGenerating := false;
                   activeTab := lit "result";
                   detectedLang := lang;
                   TestPage.identifier := lit "unknown" |} |}).
Proof.
  intros Hne E1 Hfw Hq lang call result w3.
  unfold handleGenerate, bind, lift, ErrorHandler.validateRequired.
  destruct (trim sourceCode) as [|c0 t0] eqn:Ht; [congruence|].
  unfold ret. cbn [negb fst snd].
  unfold tryFinally, tryCatch, bind, lift, setIsGenerating, setGeneratedTests,
    setDetectedLang, setIdentifier, setActiveTab, setPage, modify, ret, throw,
    toast, modify.
  page_simpl.
  change (CodeAnalysis.detectLanguage sourceCode CodeAnalysis.defaultConfig (outside s))
    with (detection sourceCode (outside s)).
  rewrite E1. page_simpl. rewrite Hfw, Hq. page_simpl.
  change (AIService.chatCompletion _ (Some (3 # 10)) None w1) with call.
  subst w3 result. fold lang.
  destruct call as [[a|e] w2]; page_simpl; destruct user as [id|];
    unfold toISOString, insert, modify; page_simpl; reflexivity.
Qed.

(** X12 (test generator page, handleGenerate): the handler never throws.
    On blank code it shows the validation toast and changes nothing else.
    On any other code it ends with [isGenerating] false and exactly one
    more toast, titled "Tests Generated" or "Error", and has posted at
    most two requests. *)
Theorem handleGenerate_one_toast (sourceCode testQuality : jsstring)
  (user : option jsstring) (identifier : jsstring) (s : state) :
  let run := handleGenerate sourceCode testQuality user identifier s in
  fst run = Returned tt
  /\ match trim sourceCode with
     | [] =>
         snd run = {| outside := refused (lit "Source Code is required") (outside s);
                      page := page s |}
     | _ :: _ =>
         isGenerating (page (snd run)) = false
         /\ (exists t,
               toasts (outside (snd run)) = toasts (outside s) ++ [t]
               /\ (title t = lit "Tests Generated" \/ title t = lit "Error"))
         /\ (length (fetches (outside (snd run)))
             <= length (fetches (outside s)) + 2)%nat
     end.
Proof.
  cbv zeta. destruct (trim sourceCode) as [|c0 t0] eqn:Ht.
  - unfold handleGenerate, bind, lift, ErrorHandler.validateRequired.
    rewrite Ht. split; reflexivity.
  - assert (Hne : trim sourceCode <> []) by (rewrite Ht; discriminate).
    destruct (handleGenerate_settles sourceCode testQuality user identifier s Hne)
      as (t & o & p & -> & Hg & Ht' & Hto & Hf).
    cbn [fst snd outside page]. split; [reflexivity|].
    split; [exact Hg|]. split; [exists t; auto|exact Hf].
Qed.

(** X13 (test generator page, handleGenerate): when [getFramework] finds
    an entry for the detected language (its own or the "Unknown" one) and
    the chosen quality is one of the three, the run ends on the tab
    "result" with the toast "Tests Generated" (and the row in the history,
    for a signed-in user), whether the tests shown are the model's answer
    without its fences or, the completion having failed, the fallback
    template: a failed completion is not reported. *)
Theorem handleGenerate_fallback_is_silent (sourceCode testQuality : jsstring)
  (user : option jsstring) (identifier : jsstring) (s : state)
  (r : CodeAnalysis.LanguageDetectionResult) (w1 : world)
  (entry : Framework) (quality : TestQuality) :
  trim sourceCode <> [] ->
  detection sourceCode (outside s) = (Returned r, w1) ->
  getFramework (CodeAnalysis.language r) = Some entry ->
  find (fun q => eqs (value q) testQuality) testQualities = Some quality ->
  let lang := CodeAnalysis.language r in
  let run := handleGenerate sourceCode testQuality user identifier s in
  let shown := generatedTests (page (snd run)) in
  match answerText w1 with
  | Some a => shown = stripFences a
  | None => shown = generateFallbackTests identifier lang (framework entry) quality
  end
  /\ activeTab (page (snd run)) = lit "result"
  /\ toasts (outside (snd run))
     = toasts (outside s) ++ [testsReady quality (framework entry) lang]
  /\ rows (outside (snd run))
     = rows (outside s)
       ++ match user with
          | Some id => [testRow id sourceCode shown lang (now (outside s))]
          | None => []
          end.
Proof.
  intros Hne E1 Hfw Hq lang run shown. subst shown run.
  rewrite (handleGenerate_after_checks _ _ user identifier s r w1 entry quality
             Hne E1 Hfw Hq).
  fold lang. cbn [fst snd outside page generatedTests activeTab].
  pose proof (detectLanguage_frame sourceCode CodeAnalysis.defaultConfig (outside s))
    as (Hn1 & Ht1 & Hr1 & _).
  fold (detection sourceCode) in Hn1, Ht1, Hr1. rewrite E1 in Hn1, Ht1, Hr1.
  cbn [snd] in Hn1, Ht1, Hr1.
  pose proof (chatCompletion_frame
                [GroqService.system (systemContent lang (framework entry));
                 GroqService.user (buildPrompt quality lang (framework entry)
                                     sourceCode)]
                (Some (3 # 10)) None w1) as (Hn2 & Ht2 & Hr2 & _).
  fold (testCall quality lang (framework entry) sourceCode) in Hn2, Ht2, Hr2.
  cbv zeta in Hn2, Ht2, Hr2.
  pose proof (executeWithGroq_answerText
                [GroqService.system (systemContent lang (framework entry));
                 GroqService.user (buildPrompt quality lang (framework entry)
                                     sourceCode)]
                {| GroqService.opt_model := None;
                   GroqService.opt_temperature :=
                     Some (GroqService.withDefault (Some (3 # 10)) (7 # 10));
                   GroqService.opt_maxTokens :=
                     Some (GroqService.withDefault None 2000%N);
                   GroqService.opt_topP := None;
                   GroqService.opt_stream := None |} w1) as Ha.
  change (GroqService.executeWithGroq _ _ w1)
    with (testCall quality lang (framework entry) sourceCode w1) in Ha.
  split.
  { destruct (answerText w1) as [a|].
    - rewrite Ha. reflexivity.
    - destruct Ha as [e ->]. reflexivity. }
  split; [reflexivity|].
  destruct user as [id|]; unfold toasting, inserting; cbn [toasts rows].
  - split; [rewrite Ht2, Ht1; reflexivity|].
    rewrite Hr2, Hr1, Hn2, Hn1. reflexivity.
  - split; [rewrite Ht2, Ht1; reflexivity|].
    rewrite Hr2, Hr1, app_nil_r. reflexivity.
Qed.

Lemma handleGenerate_fallback_is_silent_witness :
  let s := {| outside := idle; page := emptyTestPage |} in
  let run := handleGenerate (lit "def add(a, b): return a + b") (lit "standard")
               None (lit "add") s in
  activeTab (page (snd run)) = lit "result"
  /\ List.map title (toasts (outside (snd run))) = [lit "Tests Generated"].
Proof.
  cbv zeta.
  destruct (handleGenerate_fallback_is_silent
              (lit "def add(a, b): return a + b") (lit "standard") None (lit "add")
              {| outside := idle; page := emptyTestPage |}
              {| CodeAnalysis.language := lit "python";
                 CodeAnalysis.confidence := 100;
                 CodeAnalysis.fallback := None |}
              (snd (detection (lit "def add(a, b): return a + b") idle))
              {| framework := lit "pytest"; ext := lit "py";
                 testFile := fun n => lit "test_" ++ n ++ lit ".py" |}
              {| value := lit "standard"; label := lit "Standard"; coverage := 88;
                 features := [lit "Happy path"; lit "Edge cases";
                              lit "Error handling"; lit "Input validation";
                              lit "Integration"] |})
    as (_ & Htab & Htoasts & _).
  - vm_compute. discriminate.
  - vm_compute. reflexivity.
  - vm_compute. reflexivity.
  - vm_compute. reflexivity.
  - split; [exact Htab|]. rewrite Htoasts. vm_compute. reflexivity.
Defined.

(** [getFramework] finds nothing exactly for the names the table
    inherits. *)
Lemma getFramework_none (lang : jsstring) :
  getFramework lang = None <-> CodeTools.isInherited (toLowerCase lang) = true.
Proof.
  unfold getFramework, CodeTools.get.
  set (key := toLowerCase lang). clearbody key. split.
  - destruct (find _ frameworkMap) as [[k a]|]; [discriminate|].
    destruct (CodeTools.isInherited key); [reflexivity|discriminate].
  - intros H. rewrite H.
    assert (Hf : find (fun p : string * Framework => eqs (lit (fst p)) key)
                   frameworkMap = None).
    { unfold CodeTools.isInherited in H. apply existsb_exists in H.
      destruct H as (k & Hin & Hk). apply eqs_eq in Hk. subst key.
      unfold CodeTools.inherited in Hin. cbn [In] in Hin.
      repeat (destruct Hin as [<-|Hin]; [vm_compute; reflexivity|]).
      contradiction. }
    rewrite Hf. reflexivity.
Qed.

Lemma find_quality_none (testQuality : jsstring) :
  find (fun q => eqs (value q) testQuality) testQualities = None
  <-> existsb (fun q => eqs (value q) testQuality) testQualities = false.
Proof.
  induction testQualities as [|q l IH]; cbn [find existsb]; [tauto|].
  destruct (eqs (value q) testQuality); cbn [orb]; [split; discriminate|exact IH].
Qed.

(** A run that finds no framework or no quality: what it leaves. *)
Lemma handleGenerate_type_error (sourceCode testQuality : jsstring)
  (user : option jsstring) (identifier : jsstring) (s : state)
  (r : CodeAnalysis.LanguageDetectionResult) (w1 : world) :
  trim sourceCode <> [] ->
  detection sourceCode (outside s) = (Returned r, w1) ->
  getFramework (CodeAnalysis.language r) = None
  \/ find (fun q => eqs (value q) testQuality) testQualities = None ->
  exists message,
    handleGenerate sourceCode testQuality user identifier s
    = (Returned tt,
       {| outside := toasting {| title := lit "Error"; description := message;
                                 destructive := true |} w1;
          page := {| TestPage.sourceCode := TestPage.sourceCode (page s);
                     generatedTests := [];
                     isGenerating := false;
                     activeTab := activeTab (page s);
                     detectedLang := CodeAnalysis.language r;
                     TestPage.identifier := lit "unknown" |} |}).
Proof.
  intros Hne E1 Hbroken.
  unfold handleGenerate, bind, lift, ErrorHandler.validateRequired.
  destruct (trim sourceCode) as [|c0 t0] eqn:Ht; [congruence|].
  unfold ret. cbn [negb fst snd].
  unfold tryFinally, tryCatch, bind, lift, setIsGenerating, setGeneratedTests,
    setDetectedLang, setIdentifier, setActiveTab, setPage, modify, ret, throw,
    toast, modify.
  page_simpl.
  change (CodeAnalysis.detectLanguage sourceCode CodeAnalysis.defaultConfig (outside s))
    with (detection sourceCode (outside s)).
  rewrite E1. page_simpl.
  destruct (getFramework (CodeAnalysis.language r)) as [entry|] eqn:Hfw.
  - destruct Hbroken as [Hb|Hb]; [discriminate Hb|]. rewrite Hb.
    page_simpl. eexists. reflexivity.
  - page_simpl. eexists. reflexivity.
Qed.

(** X19 (test generator page, handleGenerate): for code that is not
    blank, the run ends with the toast "Error" exactly when the detected
    language, in lower case, is a name that every object inherits (such
    as "constructor") or the chosen quality is none of the three.  It
    then shows no tests and has asked for no completion. *)
Theorem handleGenerate_error_exactly (sourceCode testQuality : jsstring)
  (user : option jsstring) (identifier : jsstring) (s : state)
  (r : CodeAnalysis.LanguageDetectionResult) (w1 : world) :
  trim sourceCode <> [] ->
  detection sourceCode (outside s) = (Returned r, w1) ->
  let run := handleGenerate sourceCode testQuality user identifier s in
  let broken :=
    (CodeTools.isInherited (toLowerCase (CodeAnalysis.language r))
     || negb (existsb (fun q => eqs (value q) testQuality) testQualities))%bool in
  exists t,
    toasts (outside (snd run)) = toasts (outside s) ++ [t]
    /\ (title t = lit "Error" <-> broken = true)
    /\ (broken = true ->
        generatedTests (page (snd run)) = []
        /\ fetches (outside (snd run)) = fetches w1).
Proof.
  intros Hne E1 run broken.
  pose proof (detectLanguage_frame sourceCode CodeAnalysis.defaultConfig (outside s))
    as (_ & Ht1 & _ & _).
  fold (detection sourceCode) in Ht1. rewrite E1 in Ht1. cbn [snd] in Ht1.
  destruct (getFramework (CodeAnalysis.language r)) as [entry|] eqn:Hfw.
  - assert (Hi : CodeTools.isInherited (toLowerCase (CodeAnalysis.language r)) = false).
    { destruct (CodeTools.isInherited _) eqn:Hi; [|reflexivity].
      apply getFramework_none in Hi. congruence. }
    destruct (find (fun q => eqs (value q) testQuality) testQualities)
      as [quality|] eqn:Hq.
    + assert (He : existsb (fun q => eqs (value q) testQuality) testQualities = true).
      { destruct (existsb _ testQualities) eqn:He; [reflexivity|].
        apply find_quality_none in He. congruence. }
      subst run broken. rewrite Hi, He.
      rewrite (handleGenerate_after_checks _ _ user identifier s r w1 entry quality
                 Hne E1 Hfw Hq).
      pose proof (chatCompletion_frame
                    [GroqService.system
                       (systemContent (CodeAnalysis.language r) (framework entry));
                     GroqService.user
                       (buildPrompt quality (CodeAnalysis.language r)
                          (framework entry) sourceCode)]
                    (Some (3 # 10)) None w1) as (_ & Ht2 & _ & _).
      fold (testCall quality (CodeAnalysis.language r) (framework entry) sourceCode)
        in Ht2.
      cbv zeta in Ht2.
      exists (testsReady quality (framework entry) (CodeAnalysis.language r)).
      cbn [fst snd outside]. split.
      * destruct user as [id|]; unfold toasting, inserting; cbn [toasts];
          rewrite Ht2, Ht1; reflexivity.
      * split; [|discriminate].
        split; [intros H; vm_compute in H; discriminate H|discriminate].
    + apply find_quality_none in Hq.
      destruct (handleGenerate_type_error sourceCode testQuality user identifier
                  s r w1 Hne E1) as [message E].
      { right. apply find_quality_none. exact Hq. }
      subst run broken. rewrite E, Hi, Hq. cbn [fst snd outside page].
      eexists. split; [unfold toasting; cbn [toasts]; rewrite Ht1; reflexivity|].
      split; [split; reflexivity|].
      intros _. split; reflexivity.
  - destruct (handleGenerate_type_error sourceCode testQuality user identifier
                s r w1 Hne E1) as [message E]; [left; exact Hfw|].
    apply getFramework_none in Hfw.
    subst run broken. rewrite E, Hfw. cbn [fst snd outside page orb].
    eexists. split; [unfold toasting; cbn [toasts]; rewrite Ht1; reflexivity|].
    split; [split; reflexivity|].
    intros _. split; reflexivity.
Qed.

Lemma handleGenerate_error_exactly_witness :
  exists t,
    toasts (outside (snd (handleGenerate (lit "def add(a, b): return a + b")
                            (lit "thorough") None (lit "add")
                            {| outside := idle; page := emptyTestPage |})))
    = [t]
    /\ title t = lit "Error".
Proof.
  destruct (handleGenerate_error_exactly
              (lit "def add(a, b): return a + b") (lit "thorough") None (lit "add")
              {| outside := idle; page := emptyTestPage |}
              {| CodeAnalysis.language := lit "python";
                 CodeAnalysis.confidence := 100;
                 CodeAnalysis.fallback := None |}
              (snd (detection (lit "def add(a, b): return a + b") idle)))
    as (t & Ht & Hiff & _).
  - vm_compute. discriminate.
  - vm_compute. reflexivity.
  - exists t. split; [exact Ht|]. apply Hiff. vm_compute. reflexivity.
Defined.

End Generate.

(* ===================================================================== *)
(** * The explanation page: every run of the explain handler *)
(* ===================================================================== *)

Section ExplainRun.

Import CodeExplanation.

(** X14 (CodeExplanation.tsx, handleExplain): the handler never throws.
    Blank code gets two toasts, "Validation Error" and "No Code", and
    markup gets the one toast "Invalid Input"; neither posts a request or
    touches the page.  Every other run posts exactly one request, ends
    with [isExplaining] false and shows exactly one toast: "Done!", with
    the tab "result", or else "Invalid Code" or "Error", and then the
    explanation and the tab on the page are the ones from before. *)
Theorem handleExplain_shows_only_when_done
  (sourceCode explanationLevel : jsstring) (user detectedLang : option jsstring)
  (s : state) :
  let run := handleExplain sourceCode explanationLevel user detectedLang s in
  let before := page s in
  let after := page (snd run) in
  fst run = Returned tt
  /\ exists ts,
       toasts (outside (snd run)) = toasts (outside s) ++ ts
       /\ match trim sourceCode with
          | [] =>
              after = before
              /\ fetches (outside (snd run)) = fetches (outside s)
              /\ ts = [required (lit "Source Code"); noCode]
          | _ :: _ =>
              if looksLikeMarkup (trim sourceCode) then
                after = before
                /\ fetches (outside (snd run)) = fetches (outside s)
                /\ ts = [invalidInput]
              else
                isExplaining after = false
                /\ length (fetches (outside (snd run)))
                   = S (length (fetches (outside s)))
                /\ exists t,
                     ts = [t]
                     /\ ((title t = lit "Done!" /\ activeTab after = lit "result")
                         \/ ((title t = lit "Invalid Code" \/ title t = lit "Error")
                             /\ explanation after = explanation before
                             /\ activeTab after = activeTab before))
          end.
Proof.
  cbv zeta.
  unfold handleExplain, bind, lift, ErrorHandler.validateRequired.
  destruct (trim sourceCode) as [|c0 t0] eqn:Ht.
  - unfold toast, modify, bind, ret. cbn [fst snd outside page toasts negb].
    split; [reflexivity|]. exists [required (lit "Source Code"); noCode].
    cbn [toasts fetches]. rewrite <- app_assoc.
    split; [reflexivity|]. split; [reflexivity|]. split; reflexivity.
  - unfold ret. cbn [negb fst snd].
    destruct (looksLikeMarkup (c0 :: t0)) eqn:Hm.
    + unfold toast, modify. cbn [fst snd outside page toasts fetches].
      split; [reflexivity|]. exists [invalidInput].
      split; [reflexivity|]. split; [reflexivity|]. split; reflexivity.
    + unfold tryFinally, tryCatch, bind, lift, setIsExplaining, setExplanation,
        setActiveTab, setPage, modify, ret.
      cbn [outside page].
      match goal with
      | |- context [AIService.chatCompletion ?m None None (outside s)] =>
          pose proof (chatCompletion_frame m None None (outside s))
            as (_ & Htoasts & _ & Hfetches);
          destruct (AIService.chatCompletion m None None (outside s))
            as [[raw|e] w1]
      end; cbn [fst snd] in Htoasts, Hfetches; cbn [fst snd outside page].
      * destruct (includes (lit "ERROR: JSX") (cleanOutput raw)).
        { unfold toast, modify.
          cbn [fst snd outside page toasts fetches isExplaining explanation activeTab].
          split; [reflexivity|]. exists [invalidCode]. rewrite Htoasts.
          split; [reflexivity|]. split; [reflexivity|]. split; [exact Hfetches|].
          exists invalidCode. split; [reflexivity|]. right. auto. }
        destruct user as [id|];
          unfold toast, toISOString, insert, modify, tryCatch, bind, ret;
          cbn [fst snd outside page toasts fetches isExplaining explanation activeTab];
          (split; [reflexivity|]);
          eexists; rewrite Htoasts;
          (split; [reflexivity|]); (split; [reflexivity|]);
          (split; [exact Hfetches|]);
          eexists; (split; [reflexivity|]); left; split; reflexivity.
      * unfold toast, modify.
        cbn [fst snd outside page toasts fetches isExplaining explanation activeTab].
        split; [reflexivity|]. eexists. rewrite Htoasts.
        split; [reflexivity|]. split; [reflexivity|]. split; [exact Hfetches|].
        eexists. split; [reflexivity|]. right. auto.
Qed.

End ExplainRun.

(* ===================================================================== *)
(** * The clean-up of an explanation: what it leaves *)
(* ===================================================================== *)

Section Plain.

(** A global replacement whose pattern matches, with a match that is not
    empty, wherever a code unit that satisfies [Q] stands, and whose
    template has none, leaves none. *)
Lemma replaceLoop_removes (Q : char -> bool) (re : RegExp) (tpl : list ritem) :
  literally (fun c => Q c = false) tpl ->
  (forall p c t, Q c = true ->
     exists y, matchAt re p (c :: t) = Some y
               /\ length (rest y) <> length (c :: t)) ->
  forall fuel p s, (length s < fuel)%nat ->
    Forall (fun c => Q c = false) (replaceLoop fuel re tpl p s).
Proof.
  intros Htpl Hhit. induction fuel as [|fuel IH]; intros p s Hf; [lia|].
  cbn [replaceLoop].
  destruct (matchAt re p s) as [y|] eqn:E.
  - pose proof (suffixOf_length _ _ (matchAt_suffix _ _ _ _ E)) as Hl.
    destruct (Nat.eqb (length (rest y)) (length s)) eqn:El.
    + destruct s as [|c t]; [apply expand_literally, Htpl|].
      apply Forall_app. split; [apply expand_literally, Htpl|].
      constructor; [|apply IH; cbn in Hf; lia].
      destruct (Q c) eqn:Eq; [|reflexivity]. exfalso.
      destruct (Hhit p c t Eq) as (y' & Ey & Hn).
      rewrite E in Ey. injection Ey as <-.
      apply Nat.eqb_eq in El. contradiction.
    + apply Nat.eqb_neq in El.
      apply Forall_app. split; [apply expand_literally, Htpl|].
      apply IH. lia.
  - destruct s as [|c t]; [constructor|].
    constructor; [|apply IH; cbn in Hf; lia].
    destruct (Q c) eqn:Eq; [|reflexivity]. exfalso.
    destruct (Hhit p c t Eq) as (y' & Ey & _). congruence.
Qed.

Lemma tagRe_pattern :
  pattern tagRe
  = RSeq (RChar 60%N)
      (RSeq (RQuant 0 None true (RClass true [CChar 62%N]))
            (RQuant 0 (Some 1%nat) true (RChar 62%N))).
Proof. vm_compute. reflexivity. Qed.

(** The pattern of the tags matches at every [<], and takes it. *)
Lemma tagRe_hits (p : option char) (c : char) (t : jsstring) :
  isLt c = true ->
  exists y, matchAt tagRe p (c :: t) = Some y
            /\ length (rest y) <> length (c :: t).
Proof.
  intros Hc. unfold isLt in Hc. apply N.eqb_eq in Hc. subst c.
  destruct (matchAt tagRe p (60%N :: t)) as [y|] eqn:E.
  - exists y. split; [exact E|].
    unfold matchAt in E. rewrite tagRe_pattern in E.
    apply exec_sound in E. destruct E as (y' & Hd & Hy).
    unfold accept in Hy. injection Hy as <-.
    cbn [derives] in Hd. destruct Hd as (mid & (b & u & Hr & _ & ->) & Hd).
    cbn [rest] in Hr. injection Hr as <- <-.
    assert (Hs : suffixOf (rest y') t).
    { change t with (rest (advance {| prev := p; rest := 60%N :: t; caps := [] |}
                             60%N t)).
      apply (derives_forward (flag tagRe)
               (RSeq (RQuant 0 None true (RClass true [CChar 62%N]))
                     (RQuant 0 (Some 1%nat) true (RChar 62%N)))).
      exact Hd. }
    apply suffixOf_length in Hs. cbn [length]. lia.
  - exfalso. revert E. unfold matchAt. rewrite tagRe_pattern.
    apply (exec_complete (flag tagRe) _ accept _
             (advance {| prev := p; rest := 60%N :: t; caps := [] |} 60%N t));
      [|discriminate].
    cbn [derives]. eexists. split.
    + exists 60%N, t. split; [reflexivity|]. split; reflexivity.
    + eexists. split; apply reps_stop; left; reflexivity.
Qed.

Lemma replace_tagRe_free (s : jsstring) :
  Forall (fun c => isLt c = false) (replace tagRe [] s).
Proof.
  unfold replace. change (global (flag tagRe)) with true. cbv iota.
  apply replaceLoop_removes; [constructor|apply tagRe_hits|lia].
Qed.

Lemma replace_specialsRe (s : jsstring) :
  replace specialsRe [] s = filter (fun c => negb (isSpecial c)) s.
Proof.
  unfold specialsRe.
  rewrite (replace_class _ false [CChar 35%N; CChar 42%N; CChar 95%N; CChar 96%N;
                                  CChar 126%N]); [|reflexivity|reflexivity].
  apply filter_ext. intros c.
  change (flag (re "[#*_`~]" "g"))
    with {| global := true; ignoreCase := false; multiline := false |}.
  unfold classMatches, isSpecial, canon.
  cbn [xorb existsb citemMatches ignoreCase].
  rewrite !(N.eqb_sym c). reflexivity.
Qed.

Lemma replace_specialsRe_free (s : jsstring) :
  Forall (fun c => isSpecial c = false) (replace specialsRe [] s).
Proof.
  rewrite replace_specialsRe. apply Forall_forall. intros c Hc.
  apply filter_In in Hc. destruct Hc as [_ Hc].
  destruct (isSpecial c); [discriminate Hc|reflexivity].
Qed.

(** ** White space in front of a newline *)

Lemma trailRe_pattern :
  pattern trailRe = RSeq (RQuant 1 None true (RClass false [CSpace])) (RChar 10%N).
Proof. vm_compute. reflexivity. Qed.

Lemma isSpace_LF : isSpace 10%N = true.
Proof. reflexivity. Qed.

Lemma newline_back (fl : flags) :
  ignoreCase fl = false ->
  forall t pv cp,
    option_map rest (gstar isSpace (exec fl (RChar 10%N) accept) pv cp t) = back t.
Proof.
  intros Hi. induction t as [|c t IH]; intros pv cp; cbn [gstar back].
  - rewrite exec_RChar_plain by exact Hi. reflexivity.
  - destruct (isSpace c) eqn:Ec.
    + specialize (IH (Some c) cp).
      destruct (gstar isSpace (exec fl (RChar 10%N) accept) (Some c) cp t) as [z|];
        cbn [option_map] in IH; rewrite <- IH; [reflexivity|].
      rewrite exec_RChar_plain by exact Hi. cbn [rest].
      destruct (N.eqb 10 c); reflexivity.
    + rewrite exec_RChar_plain by exact Hi. cbn [rest].
      destruct (N.eqb 10 c) eqn:E; [|reflexivity].
      apply N.eqb_eq in E. subst c. discriminate Ec.
Qed.

Lemma trailRe_matchAt (p : option char) (s : jsstring) :
  option_map rest (matchAt trailRe p s) = trailAt s.
Proof.
  unfold matchAt. rewrite trailRe_pattern.
  change (flag trailRe)
    with {| global := true; ignoreCase := false; multiline := false |}.
  set (fl := {| global := true; ignoreCase := false; multiline := false |}).
  change (exec fl (RSeq (RQuant 1 None true (RClass false [CSpace])) (RChar 10%N))
            accept {| prev := p; rest := s; caps := [] |})
    with (repeatMatcher (exec fl (RClass false [CSpace])) []
            (1 + length s + 1) 1 None true (exec fl (RChar 10%N) accept)
            {| prev := p; rest := s; caps := [] |}).
  replace (1 + length s + 1)%nat with (S (S (length s))) by lia.
  rewrite repeatMatcher_step. cbv zeta. rewrite clearCaps_nil.
  change (negb (Nat.eqb 1 0)) with true. cbv iota.
  rewrite exec_RClass_step. cbn [rest].
  destruct s as [|c t]; [reflexivity|].
  rewrite classMatches_space. unfold trailAt.
  destruct (isSpace c); [|reflexivity].
  change (Nat.eqb 1 0) with false. cbn [andb Nat.pred option_map].
  unfold advance. cbn [caps].
  rewrite repeat_class_star by (cbn [length]; lia).
  rewrite (gstar_ext _ isSpace _ (classMatches_space fl)).
  apply newline_back. reflexivity.
Qed.

Lemma replace_trailRe (s : jsstring) :
  replace trailRe [RLit [LF]] s = scan (S (length s)) trailAt [LF] s.
Proof.
  unfold replace. change (global (flag trailRe)) with true. cbv iota.
  apply (replaceLoop_scan trailRe [RLit [LF]] trailAt eq_refl trailRe_matchAt).
Qed.

(** Where [back] finds nothing there is no newline at the start, and
    nothing is found one code unit of white space further. *)
Lemma back_none (c : char) (t : jsstring) :
  back (c :: t) = None -> N.eqb 10 c = false /\ (isSpace c = true -> back t = None).
Proof.
  cbn [back]. destruct (isSpace c) eqn:Ec.
  - destruct (back t); [discriminate|].
    destruct (N.eqb 10 c); [discriminate|]. auto.
  - intros _. split; [|discriminate].
    destruct (N.eqb 10 c) eqn:E; [|reflexivity].
    apply N.eqb_eq in E. subst c. discriminate Ec.
Qed.

(** What a match leaves behind: shorter, and nothing is found there. *)
Lemma back_some :
  forall t r, back t = Some r -> (length r < length t)%nat /\ back r = None.
Proof.
  induction t as [|c t IH]; intros r H; cbn [back] in H; [discriminate H|].
  destruct (isSpace c); [|discriminate H].
  destruct (back t) as [r'|] eqn:E.
  - injection H as <-. destruct (IH r' eq_refl) as [Hl Hb].
    split; [cbn [length]; lia|exact Hb].
  - destruct (N.eqb 10 c); [|discriminate H].
    injection H as <-. split; [cbn [length]; lia|exact E].
Qed.

Lemma tidy_nil : tidy [].
Proof. intros pre a suf H. destruct pre; discriminate H. Qed.

Lemma tidy_cons (c : char) (o : jsstring) :
  tidy o -> (isSpace c = true -> startsLF o = false) -> tidy (c :: o).
Proof.
  intros Ho Hc pre a suf H. destruct pre as [|d pre]; cbn [app] in H.
  - injection H as <- ->. destruct (isSpace c); [|reflexivity].
    specialize (Hc eq_refl). discriminate Hc.
  - injection H as _ ->. eapply Ho. reflexivity.
Qed.

Lemma tidy_inside (pre s suf : jsstring) : tidy (pre ++ s ++ suf) -> tidy s.
Proof.
  intros H p a u E. apply (H (pre ++ p) a (u ++ suf)).
  rewrite E, <- !app_assoc. reflexivity.
Qed.

(** The replacement leaves no white space in front of a newline. *)
Lemma scan_trail_tidy :
  forall fuel s, (length s < fuel)%nat ->
    tidy (scan fuel trailAt [LF] s)
    /\ (back s = None -> startsLF (scan fuel trailAt [LF] s) = false).
Proof.
  induction fuel as [|fuel IH]; intros s Hf; [lia|].
  destruct s as [|c t].
  - cbn [scan trailAt]. split; [apply tidy_nil|reflexivity].
  - cbn [scan]. destruct (trailAt (c :: t)) as [r|] eqn:E.
    + unfold trailAt in E. destruct (isSpace c) eqn:Ec; [|discriminate E].
      destruct (back_some t r E) as [Hl Hb].
      replace (Nat.eqb (length r) (length (c :: t))) with false
        by (symmetry; apply Nat.eqb_neq; cbn [length]; lia).
      destruct (IH r ltac:(cbn [length] in Hf; lia)) as [Ht Hs].
      split.
      * cbn [app]. apply tidy_cons; [exact Ht|]. intros _. apply Hs, Hb.
      * intros Hn. apply back_none in Hn. destruct Hn as [_ Hn].
        rewrite (Hn Ec) in E. discriminate E.
    + destruct (IH t ltac:(cbn [length] in Hf; lia)) as [Ht Hs].
      split.
      * apply tidy_cons; [exact Ht|]. intros Ec. apply Hs.
        unfold trailAt in E. rewrite Ec in E. exact E.
      * intros Hn. apply back_none in Hn. destruct Hn as [Hn _].
        cbn [startsLF]. exact Hn.
Qed.

Lemma replace_trailRe_tidy (s : jsstring) : tidy (replace trailRe [RLit [LF]] s).
Proof.
  rewrite replace_trailRe. apply scan_trail_tidy. lia.
Qed.

(** In such a text no three newlines stand in a row: the last pattern of
    the clean-up finds nothing. *)
Lemma replace_newlinesRe_tidy (s : jsstring) :
  tidy s -> replace newlinesRe [RLit [LF; LF]] s = s.
Proof.
  intros H. rewrite replace_newlinesRe. apply scan_nowhere.
  intros t [pre Hp]. apply runAt_none.
  destruct t as [|a [|b u]]; cbn [takeWhile]; [cbn; lia| |].
  { destruct (isLF a); cbn; lia. }
  destruct (isLF a) eqn:Ea; [|cbn; lia].
  destruct (isLF b) eqn:Eb; [|cbn; lia].
  exfalso. unfold isLF in Ea, Eb. apply N.eqb_eq in Ea, Eb. subst a b.
  specialize (H pre 10%N u Hp). discriminate H.
Qed.

Lemma tidy_includes (s : jsstring) (c : char) :
  tidy s -> isSpace c = true -> includes [c; LF] s = false.
Proof.
  intros H Hc. destruct (includes [c; LF] s) eqn:E; [|reflexivity].
  apply includes_spec in E. destruct E as (pre & suf & E).
  specialize (H pre c suf E). congruence.
Qed.

(** X15 (AIService.explainCode): whatever the model answers, the
    explanation that comes back holds none of [# * _ ` ~] and no [<], and
    no newline in it stands directly behind white space: no line ends in
    white space and no line is empty (so paragraphs are never set apart by
    a blank line). *)
Theorem AIService_explainCode_plain (code language : jsstring)
  (detailLevel : option jsstring) (w : world) :
  match fst (AIService.explainCode code language detailLevel w) with
  | Returned r =>
      Forall (fun c => isSpecial c = false /\ isLt c = false) r
      /\ (forall c, isSpace c = true -> includes [c; LF] r = false)
      /\ includes [LF; LF] r = false
  | Thrown _ => True
  end.
Proof.
  unfold AIService.explainCode. cbv zeta. rewrite bind_ret_fst.
  match goal with
  | |- context [AIService.chatCompletion ?m ?a ?b w] =>
      destruct (fst (AIService.chatCompletion m a b w)) as [answer|e]
  end; [|exact I].
  fold specialsRe tagRe trailRe newlinesRe.
  set (s1 := replace specialsRe [] _).
  assert (H1 : Forall (fun c => isSpecial c = false) s1)
    by apply replace_specialsRe_free.
  clearbody s1.
  pose proof (replace_tagRe_free s1) as H2.
  assert (H1' : Forall (fun c => isSpecial c = false) (replace tagRe [] s1))
    by (apply replace_Forall; [constructor|exact H1]).
  set (s2 := replace tagRe [] s1) in *. clearbody s2.
  assert (H3 : Forall (fun c => isSpecial c = false /\ isLt c = false) s2).
  { apply Forall_forall. intros c Hc. rewrite Forall_forall in H1', H2. auto. }
  pose proof (replace_trailRe_tidy s2) as Ht.
  assert (H4 : Forall (fun c => isSpecial c = false /\ isLt c = false)
                 (replace trailRe [RLit [LF]] s2)).
  { apply replace_Forall; [|exact H3].
    repeat constructor. }
  set (s3 := replace trailRe [RLit [LF]] s2) in *. clearbody s3.
  rewrite (replace_newlinesRe_tidy s3 Ht).
  assert (Htrim : tidy (trim s3)).
  { destruct (trim_decompose s3) as (pre & suf & E).
    apply (tidy_inside pre (trim s3) suf). rewrite <- E. exact Ht. }
  split; [apply trim_Forall, H4|].
  split.
  - intros c Hc. apply tidy_includes; assumption.
  - apply (tidy_includes _ LF Htrim). reflexivity.
Qed.

(** An answer with a comparison in it loses the rest of the sentence. *)
Example AIService_explainCode_comparison :
  fst (AIService.explainCode (lit "x") (lit "python") None
         (answering idle (replies (lit "It loops while i < n and stops."))))
  = Returned (lit "It loops while i").
Proof. vm_compute. reflexivity. Qed.

End Plain.

(* ===================================================================== *)
(** * The performance monitor: what a measurement records *)
(* ===================================================================== *)

Section Monitor.

Import PerformanceMonitor.

Lemma eqs_refl (a : jsstring) : eqs a a = true.
Proof. apply eqs_eq. reflexivity. Qed.

Lemma eqs_neq (a b : jsstring) : a <> b -> eqs a b = false.
Proof.
  intros H. destruct (eqs a b) eqn:E; [|reflexivity].
  apply eqs_eq in E. contradiction.
Qed.

Lemma mapGet_set_same {V} (m : Map V) (k : jsstring) (v : V) :
  mapGet (mapSet m k v) k = Some v.
Proof.
  unfold mapGet. induction m as [|e r IH]; cbn [mapSet find].
  - cbn [fst]. rewrite eqs_refl. reflexivity.
  - destruct (eqs (fst e) k) eqn:E; cbn [find fst].
    + rewrite eqs_refl. reflexivity.
    + rewrite E. exact IH.
Qed.

Lemma mapGet_set_other {V} (m : Map V) (k k' : jsstring) (v : V) :
  k' <> k -> mapGet (mapSet m k v) k' = mapGet m k'.
Proof.
  intros Hk. unfold mapGet. induction m as [|e r IH]; cbn [mapSet find].
  - cbn [fst]. rewrite (eqs_neq k k') by congruence. reflexivity.
  - destruct (eqs (fst e) k) eqn:E; cbn [find fst].
    + apply eqs_eq in E. rewrite E.
      rewrite (eqs_neq k k') by congruence. reflexivity.
    + destruct (eqs (fst e) k'); [reflexivity|exact IH].
Qed.

Lemma mapGet_delete_same {V} (m : Map V) (k : jsstring) :
  mapGet (mapDelete m k) k = None.
Proof.
  unfold mapGet, mapDelete. induction m as [|e r IH]; cbn [filter find];
    [reflexivity|].
  destruct (eqs (fst e) k) eqn:E; cbn [negb find]; [exact IH|].
  rewrite E. exact IH.
Qed.

Lemma mapGet_delete_other {V} (m : Map V) (k k' : jsstring) :
  k' <> k -> mapGet (mapDelete m k) k' = mapGet m k'.
Proof.
  intros Hk. unfold mapGet, mapDelete.
  induction m as [|e r IH]; cbn [filter find]; [reflexivity|].
  destruct (eqs (fst e) k) eqn:E; cbn [negb find].
  - apply eqs_eq in E. rewrite E.
    rewrite (eqs_neq k k') by congruence. exact IH.
  - destruct (eqs (fst e) k'); [reflexivity|exact IH].
Qed.

(** What [endTimer] does to a monitor in which the timer runs. *)
Lemma endTimer_running (operation : jsstring) (s : monitor) (startTime : Q) :
  mapGet (timers s) operation = Some startTime ->
  Qeq_bool startTime 0 = false ->
  endTimer operation s
  = (Returned (minus (clock s (ticks s)) startTime),
     {| timers := mapDelete (timers s) operation;
        metrics := mapSet (metrics s) operation
                     (recorded operation s
                      ++ [minus (clock s (ticks s)) startTime]);
        clock := clock s; ticks := S (ticks s) |}).
Proof.
  intros Hg Hz. unfold endTimer, bind, get. rewrite Hg, Hz. reflexivity.
Qed.

Lemma endTimer_idle (operation : jsstring) (s : monitor) :
  match mapGet (timers s) operation with
  | Some startTime => Qeq_bool startTime 0 = true
  | None => True
  end ->
  endTimer operation s = (Returned 0, s).
Proof.
  intros H. unfold endTimer, bind, get.
  destruct (mapGet (timers s) operation) as [t|]; [|reflexivity].
  rewrite H. reflexivity.
Qed.

(** A measurement that starts at a reading other than 0, around a
    function that leaves the monitor alone. *)
Lemma measure_exact {A} (operation : jsstring) (fn : M monitor A) (s : monitor) :
  untouched fn (started operation s) ->
  Qeq_bool (clock s (ticks s)) 0 = false ->
  let after := snd (fn (started operation s)) in
  measure operation fn s
  = (fst (fn (started operation s)),
     {| timers := mapDelete (timers s) operation;
        metrics := mapSet (metrics s) operation
                     (recorded operation s
                      ++ [minus (clock s (ticks after)) (clock s (ticks s))]);
        clock := clock s; ticks := S (ticks after) |}).
Proof.
  intros (Ht & Hm & Hc) Hz after.
  unfold measure, bind, tryFinally.
  change (startTimer operation s) with (Returned tt, started operation s).
  cbv iota beta.
  destruct (fn (started operation s)) as [r s2] eqn:E.
  cbn [fst snd] in Ht, Hm, Hc, after. subst after.
  rewrite (endTimer_running operation s2 (clock s (ticks s))).
  - cbn [fst snd]. unfold ret. rewrite Ht, Hm, Hc. cbn [started].
    unfold recorded. rewrite Hm.
    change (metrics (started operation s)) with (metrics s).
    change (clock (started operation s)) with (clock s).
    change (timers (started operation s))
      with (mapSet (timers s) operation (clock s (ticks s))).
    f_equal. f_equal.
    unfold mapDelete. clear. induction (timers s) as [|e r IH]; cbn [mapSet filter].
    + cbn [fst]. rewrite eqs_refl. reflexivity.
    + destruct (eqs (fst e) operation) eqn:Ee; cbn [filter fst].
      * rewrite eqs_refl. reflexivity.
      * rewrite ?Ee. cbn [negb]. f_equal. exact IH.
  - rewrite Ht. apply mapGet_set_same.
  - exact Hz.
Qed.

(** X16 (PerformanceMonitor.measure): around a function that leaves the
    monitor alone, a measurement hands on what the function returns or
    throws and leaves the other operations as they were.  When the clock
    reads anything but 0 at the start, it leaves no timer for the
    operation and appends exactly one duration, the rounded difference of
    the two readings; when the clock reads 0 at the start, nothing is
    recorded and the timer stays behind. *)
Theorem measure_records_once {A} (operation : jsstring) (fn : M monitor A)
  (s : monitor) :
  untouched fn (started operation s) ->
  let run := measure operation fn s in
  let after := snd (fn (started operation s)) in
  fst run = fst (fn (started operation s))
  /\ (forall k, k <> operation ->
        mapGet (timers (snd run)) k = mapGet (timers s) k
        /\ mapGet (metrics (snd run)) k = mapGet (metrics s) k)
  /\ if Qeq_bool (clock s (ticks s)) 0
     then mapGet (timers (snd run)) operation = Some (clock s (ticks s))
          /\ metrics (snd run) = metrics s
     else mapGet (timers (snd run)) operation = None
          /\ mapGet (metrics (snd run)) operation
             = Some (recorded operation s
                     ++ [minus (clock s (ticks after)) (clock s (ticks s))]).
Proof.
  intros Hu run after. subst run.
  destruct (Qeq_bool (clock s (ticks s)) 0) eqn:Hz.
  - destruct Hu as (Ht & Hm & Hc).
    unfold measure, bind, tryFinally.
    change (startTimer operation s) with (Returned tt, started operation s).
    cbv iota beta. subst after.
    destruct (fn (started operation s)) as [r s2] eqn:E.
    cbn [fst snd] in Ht, Hm, Hc |- *.
    rewrite endTimer_idle.
    + cbn [fst snd ret]. unfold ret. cbn [fst snd].
      rewrite Ht, Hm.
      change (metrics (started operation s)) with (metrics s).
      change (timers (started operation s))
        with (mapSet (timers s) operation (clock s (ticks s))).
      split; [reflexivity|]. split.
      * intros k Hk. split; [apply mapGet_set_other, Hk|reflexivity].
      * split; [apply mapGet_set_same|reflexivity].
    + rewrite Ht.
      change (timers (started operation s))
        with (mapSet (timers s) operation (clock s (ticks s))).
      rewrite mapGet_set_same. exact Hz.
  - rewrite (measure_exact operation fn s Hu Hz). cbn [fst snd timers metrics].
    split; [reflexivity|]. split.
    + intros k Hk. split.
      * apply mapGet_delete_other, Hk.
      * apply mapGet_set_other, Hk.
    + split; [apply mapGet_delete_same|apply mapGet_set_same].
Qed.

Lemma measure_records_once_witness :
  mapGet (metrics (snd (measure (lit "load") performanceNow freshMonitor)))
    (lit "load")
  = Some [minus (inject_Z 15) (inject_Z 5)].
Proof.
  destruct (measure_records_once (lit "load") performanceNow freshMonitor)
    as (_ & _ & H).
  - repeat split.
  - exact (proj2 H).
Defined.

(** X17 (PerformanceMonitor.measure): a measurement of an operation
    inside a measurement of the same operation records one duration
    only, the inner one: the inner call ends the timer, and the outer
    call finds none and records nothing. *)
Theorem measure_nested_records_inner {A} (operation : jsstring)
  (fn : M monitor A) (s : monitor) :
  untouched fn (started operation (started operation s)) ->
  Qeq_bool (clock s (S (ticks s))) 0 = false ->
  let run := measure operation (measure operation fn) s in
  let after := snd (fn (started operation (started operation s))) in
  fst run = fst (fn (started operation (started operation s)))
  /\ mapGet (timers (snd run)) operation = None
  /\ mapGet (metrics (snd run)) operation
     = Some (recorded operation s
             ++ [minus (clock s (ticks after)) (clock s (S (ticks s)))])
  /\ ticks (snd run) = S (ticks after).
Proof.
  intros Hu Hz run after.
  assert (E : run
              = (fst (fn (started operation (started operation s))),
                 {| timers := mapDelete (timers (started operation s)) operation;
                    metrics := mapSet (metrics s) operation
                                 (recorded operation s
                                  ++ [minus (clock s (ticks after))
                                        (clock s (S (ticks s)))]);
                    clock := clock s; ticks := S (ticks after) |})).
  { subst run. unfold measure at 1. unfold bind, tryFinally.
    change (startTimer operation s) with (Returned tt, started operation s).
    cbv iota beta.
    rewrite (measure_exact operation fn (started operation s) Hu Hz).
    cbv zeta. fold after.
    rewrite endTimer_idle
      by (cbn [timers]; rewrite mapGet_delete_same; exact I).
    reflexivity. }
  rewrite E. cbn [fst snd timers metrics ticks].
  split; [reflexivity|].
  split; [apply mapGet_delete_same|].
  split; [apply mapGet_set_same|reflexivity].
Qed.

Lemma measure_nested_records_inner_witness :
  mapGet (metrics (snd (measure (lit "load") (measure (lit "load") (ret tt))
                          freshMonitor)))
    (lit "load")
  = Some [minus (inject_Z 15) (inject_Z 10)].
Proof.
  destruct (measure_nested_records_inner (lit "load") (ret tt) freshMonitor)
    as (_ & _ & H & _).
  - repeat split.
  - reflexivity.
  - exact H.
Defined.

End Monitor.

(* ===================================================================== *)
(** * What the two pages show of an answer *)
(* ===================================================================== *)

Section Shown.

Import CodeExplanation.

Lemma blankFree_includes (s : jsstring) :
  blankFree s -> includes [LF; LF; LF] s = false.
Proof.
  intros H. destruct (includes [LF; LF; LF] s) eqn:E; [|reflexivity].
  exfalso. apply includes_spec in E. destruct E as (pre & suf & ->).
  specialize (H ([LF; LF; LF] ++ suf) ltac:(exists pre; reflexivity)).
  unfold blankAt in H. cbn [app startsLF] in H.
  change (takeWhile isSpace (LF :: LF :: LF :: suf))
    with (LF :: LF :: LF :: takeWhile isSpace suf) in H.
  rewrite !countLF_newline in H. discriminate H.
Qed.

(** X18 (stripFences of the test generator, the clean-up of
    handleExplain): whatever the model answers, the tests shown hold no
    fence marker, and the explanation shown holds no fence marker, no
    carriage return and no three newlines in a row, and has no white space
    at its ends. *)
Theorem shown_text_is_clean (x : jsstring) :
  includes (lit "```") (TestGenerator.stripFences x) = false
  /\ includes (lit "```") (cleanOutput x) = false
  /\ Forall (fun c => c <> CR) (cleanOutput x)
  /\ includes [LF; LF; LF] (cleanOutput x) = false
  /\ trim (cleanOutput x) = cleanOutput x.
Proof.
  destruct (cleanOutput_shape x) as (Hf & Hc & Hb & Ht).
  split.
  - unfold TestGenerator.stripFences. fold fenceRe ticksRe.
    assert (H1 : fenced (replace fenceRe [] x) = false).
    { rewrite replace_fenceRe. apply scan_fence_clean. lia. }
    destruct (unfenced_fixed _ H1) as [_ H2]. rewrite H2.
    apply (trim_unfenced _ H1).
  - split; [exact Hf|]. split; [exact Hc|].
    split; [apply blankFree_includes, Hb|exact Ht].
Qed.

End Shown.
